(** * MediaDownloader: the two metadata extractors and the streaming downloader

    A shallow embedding of [audiomack_downloader.py] and [spotify_utils.py],
    and the properties of the two files that the specification states.

    - [Py]        the fragment of Python's values and built-ins the two files use
                  (JSON-shaped values, truthiness, [dict.get], string methods,
                  true division and [int()] on binary64 floats, exceptions);
    - [Re]        a backtracking matcher for the fragment of [re] the patterns of
                  [audiomack_downloader.py] are written in;
    - [Net]       what lies outside the repository: the process environment,
                  [urllib.parse.urlparse], [json.loads], the HTTP peer and the
                  local disk, as one record of oracles, with a monad that logs
                  every request sent;
    - [Info]      the metadata record;
    - [Audiomack] [audiomack_downloader.py];
    - [Spotify]   [spotify_utils.py];
    - [Spec]      the vocabulary of the properties;
    - [Scenario]  concrete worlds on which the models are run;
    - the properties, claim by claim.

    Text is modelled as Rocq [string]s, sequences of 8-bit characters, and the
    model is one of ASCII text: the character classes [\d], [\w], [\s] and the
    methods [str.lower] and [str.strip] are the ASCII ones, as under
    [re.ASCII]. *)

From Stdlib Require Import ZArith String Ascii List Bool Lia SpecFloat DecimalString DecimalZ.
Import ListNotations.

Local Open Scope list_scope.
Local Open Scope string_scope.
Local Open Scope bool_scope.

(* ===================================================================== *)
(** * Python values and built-ins *)
(* ===================================================================== *)

Module Py.

(** ** Exceptions *)

(** The exception classes that occur in the two files, either named in an
    [except] clause or raised by the interpreter and the libraries. *)
Inductive exn_class :=
| Exception | AttributeError | TypeError | IndexError | KeyError | ValueError
| OverflowError | ZeroDivisionError
| OSError              (* IOError is an alias of OSError *)
| RequestException     (* requests.RequestException, a subclass of IOError *)
| Timeout              (* requests.Timeout *)
| ConnectionError      (* requests.ConnectionError *)
| ConnectTimeout.      (* requests.ConnectTimeout: both of the previous two *)

Record exn := Exn { exn_cls : exn_class; exn_msg : string }.

(** [str(e)] *)
Definition str_exn (e : exn) : string := exn_msg e.

Definition exn_class_eqb (a b : exn_class) : bool :=
  match a, b with
  | Exception, Exception | AttributeError, AttributeError | TypeError, TypeError
  | IndexError, IndexError | KeyError, KeyError | ValueError, ValueError
  | OverflowError, OverflowError | ZeroDivisionError, ZeroDivisionError
  | OSError, OSError | RequestException, RequestException | Timeout, Timeout
  | ConnectionError, ConnectionError | ConnectTimeout, ConnectTimeout => true
  | _, _ => false
  end.

(** [issubclass c d] *)
Definition issubclass (c d : exn_class) : bool :=
  match d with
  | Exception => true
  | OSError =>
      match c with
      | OSError | RequestException | Timeout | ConnectionError | ConnectTimeout => true
      | _ => false
      end
  | RequestException =>
      match c with
      | RequestException | Timeout | ConnectionError | ConnectTimeout => true
      | _ => false
      end
  | Timeout => match c with Timeout | ConnectTimeout => true | _ => false end
  | ConnectionError =>
      match c with ConnectionError | ConnectTimeout => true | _ => false end
  | _ => exn_class_eqb c d
  end.

(** [except d] catches [e] *)
Definition caught_by (e : exn) (d : exn_class) : bool := issubclass (exn_cls e) d.

(** A computation that returns a value or raises. *)
Inductive result (A : Type) :=
| Ok (a : A)
| Raise (e : exn).
Arguments Ok {A} a.
Arguments Raise {A} e.

Definition rbind {A B} (r : result A) (k : A -> result B) : result B :=
  match r with
  | Ok a => k a
  | Raise e => Raise e
  end.

Definition raise {A} (c : exn_class) (msg : string) : result A := Raise (Exn c msg).

Declare Scope py_scope.
Delimit Scope py_scope with py.
Notation "'let*' x ':=' r 'in' k" := (rbind r (fun x => k))
  (at level 10, x name, r at level 100, k at level 200) : py_scope.

(** ** Characters and strings *)

Definition dq : ascii := ascii_of_nat 34.     (* the double quote *)
Definition sq : ascii := "'"%char.

Definition code (c : ascii) : nat := nat_of_ascii c.

Definition between (lo hi : nat) (c : ascii) : bool :=
  (lo <=? code c)%nat && (code c <=? hi)%nat.

Definition is_upper (c : ascii) : bool := between 65 90 c.
Definition is_lower (c : ascii) : bool := between 97 122 c.
Definition is_digit (c : ascii) : bool := between 48 57 c.

(** [str.isspace] on one character: TAB..CR, FS..US and the space *)
Definition is_space (c : ascii) : bool :=
  between 9 13 c || between 28 32 c.

(** [\w] *)
Definition is_word (c : ascii) : bool :=
  is_upper c || is_lower c || is_digit c || Ascii.eqb c "_".

Definition lower_char (c : ascii) : ascii :=
  if is_upper c then ascii_of_nat (code c + 32) else c.

(** [s.lower()] *)
Fixpoint lower (s : string) : string :=
  match s with
  | "" => ""
  | String c t => String (lower_char c) (lower t)
  end.

Definition is_empty (s : string) : bool :=
  match s with "" => true | _ => false end.

(** [s.startswith(p)] *)
Fixpoint startswith (p s : string) : bool :=
  match p, s with
  | "", _ => true
  | String a p', String b s' => Ascii.eqb a b && startswith p' s'
  | String _ _, "" => false
  end.

(** [p in s] for strings *)
Fixpoint contains (p s : string) : bool :=
  startswith p s ||
  match s with
  | "" => false
  | String _ t => contains p t
  end.

(** [s.endswith(p)] *)
Fixpoint endswith (p s : string) : bool :=
  match s with
  | "" => is_empty p
  | String _ t => String.eqb s p || endswith p t
  end.

(** Leading characters satisfying [f] removed. *)
Fixpoint lstrip_by (f : ascii -> bool) (s : string) : string :=
  match s with
  | "" => ""
  | String c t => if f c then lstrip_by f t else s
  end.

(** Trailing characters satisfying [f] removed. *)
Fixpoint rstrip_by (f : ascii -> bool) (s : string) : string :=
  match s with
  | "" => ""
  | String c t =>
      let t' := rstrip_by f t in
      if is_empty t' && f c then "" else String c t'
  end.

Definition strip_by (f : ascii -> bool) (s : string) : string :=
  rstrip_by f (lstrip_by f s).

(** [s.strip()] *)
Definition strip (s : string) : string := strip_by is_space s.

(** [s.strip(c)] for a one-character argument *)
Definition strip_char (c : ascii) (s : string) : string := strip_by (Ascii.eqb c) s.

(** [s.split(c)] for a one-character separator: never the empty list. *)
Fixpoint split (sep : ascii) (s : string) : list string :=
  match s with
  | "" => [""]
  | String c t =>
      if Ascii.eqb c sep then "" :: split sep t
      else match split sep t with
           | [] => [String c ""]
           | h :: r => String c h :: r
           end
  end.

(** [l[-1]] on a list of strings, [d] when the list is empty *)
Definition last_item (l : list string) (d : string) : string := List.last l d.

(** [sep.join(l)] *)
Fixpoint join (sep : string) (l : list string) : string :=
  match l with
  | [] => ""
  | [x] => x
  | x :: r => x ++ sep ++ join sep r
  end.

(** [str(n)] for an integer *)
Definition str_of_Z (n : Z) : string := NilEmpty.string_of_int (Z.to_int n).

(** The value of a string of decimal digits, most significant first. *)
Fixpoint digits_value (acc : Z) (s : string) : Z :=
  match s with
  | "" => acc
  | String c t => digits_value (10 * acc + Z.of_nat (code c - 48)) t
  end.

Fixpoint all_chars (f : ascii -> bool) (s : string) : bool :=
  match s with
  | "" => true
  | String c t => f c && all_chars f t
  end.

(** Digits with single underscores between them, as [int()] accepts. *)
Fixpoint digit_groups (prev_digit : bool) (s : string) : bool :=
  match s with
  | "" => prev_digit
  | String c t =>
      if is_digit c then digit_groups true t
      else if Ascii.eqb c "_" then prev_digit && digit_groups false t
      else false
  end.

Fixpoint drop_underscores (s : string) : string :=
  match s with
  | "" => ""
  | String c t =>
      if Ascii.eqb c "_" then drop_underscores t else String c (drop_underscores t)
  end.

(** The whitespace [int()] skips around a literal of ASCII text: TAB..CR and
    the space.  It is narrower than [str.isspace]: FS..US are not skipped. *)
Definition is_int_space (c : ascii) : bool :=
  between 9 13 c || Ascii.eqb c " ".

(** [sys.get_int_max_str_digits()], at its default. *)
Definition MAX_STR_DIGITS : Z := 4300.

Definition msg_int_limit (n : Z) : string :=
  "Exceeds the limit (4300 digits) for integer string conversion: value has "
  ++ str_of_Z n ++ " digits; use sys.set_int_max_str_digits() to increase the limit".

(** [int(s)] for a string, base 10: surrounding whitespace, an optional sign,
    digits with single underscores between them.  A literal that is well
    formed but has more digits than the interpreter's limit on decimal
    conversions is refused too. *)
Definition int_of_str (s : string) : result Z :=
  let body := strip_by is_int_space s in
  let '(neg, ds) :=
    match body with
    | String "-" t => (true, t)
    | String "+" t => (false, t)
    | _ => (false, body)
    end in
  if digit_groups false ds
  then let n := Z.of_nat (String.length (drop_underscores ds)) in
       if (MAX_STR_DIGITS <? n)%Z then raise ValueError (msg_int_limit n)
       else let v := digits_value 0 (drop_underscores ds) in
            Ok (if neg then (- v)%Z else v)
  else raise ValueError
         ("invalid literal for int() with base 10: " ++ String sq s ++ String sq "").

(** ** Floats (binary64) *)

Definition prec : Z := 53.
Definition emax : Z := 1024.

(** An integer as an exact (unnormalised) datum: [fdiv] rounds the quotient of
    two of them once, which is how [int / int] rounds. *)
Definition exact_of_Z (z : Z) : spec_float :=
  match z with
  | Z0 => S754_zero false
  | Zpos p => S754_finite false p 0
  | Zneg p => S754_finite true p 0
  end.

(** [float(n)]: the integer rounded to a binary64 float. *)
Definition float_of_int (z : Z) : spec_float := binary_normalize prec emax z 0 false.

Definition fdiv (x y : spec_float) : spec_float := SFdiv prec emax x y.
Definition fmul (x y : spec_float) : spec_float := SFmul prec emax x y.

Definition is_inf (x : spec_float) : bool :=
  match x with S754_infinity _ => true | _ => false end.

(** [a / b] on integers: the correctly rounded quotient. *)
Definition int_truediv (a b : Z) : result spec_float :=
  if (b =? 0)%Z then raise ZeroDivisionError "division by zero"
  else
    let q := fdiv (exact_of_Z a) (exact_of_Z b) in
    if is_inf q then raise OverflowError "integer division result too large for a float"
    else Ok q.

(** [int(x)] on a float: truncation towards zero. *)
Definition int_of_float (x : spec_float) : result Z :=
  match x with
  | S754_zero _ => Ok 0%Z
  | S754_infinity _ => raise OverflowError "cannot convert float infinity to integer"
  | S754_nan => raise ValueError "cannot convert float NaN to integer"
  | S754_finite s m e =>
      let a := match e with
               | Z0 => Zpos m
               | Zpos _ => Z.shiftl (Zpos m) e
               | Zneg _ => Z.shiftr (Zpos m) (- e)
               end in
      Ok (if s then (- a)%Z else a)
  end.

(** ** JSON-shaped values *)

(** What [json.loads] and [Response.json] return: [None], booleans, integers,
    floats, strings, lists and dicts with string keys.  A dict is kept as the
    list of its items; [dict_get] finds the binding of a key. *)
#[warnings="-register-all"]
Inductive pyval :=
| PNone
| PBool (b : bool)
| PInt (n : Z)
| PFloat (x : spec_float)
| PStr (s : string)
| PList (l : list pyval)
| PDict (d : list (string * pyval)).

(** [bool(v)] *)
Definition truthy (v : pyval) : bool :=
  match v with
  | PNone => false
  | PBool b => b
  | PInt n => negb (n =? 0)%Z
  | PFloat (S754_zero _) => false
  | PFloat _ => true
  | PStr s => negb (is_empty s)
  | PList l => match l with [] => false | _ => true end
  | PDict d => match d with [] => false | _ => true end
  end.

(** [a or b] *)
Definition por (a b : pyval) : pyval := if truthy a then a else b.

(** [type(v).__name__] *)
Definition type_name (v : pyval) : string :=
  match v with
  | PNone => "NoneType"
  | PBool _ => "bool"
  | PInt _ => "int"
  | PFloat _ => "float"
  | PStr _ => "str"
  | PList _ => "list"
  | PDict _ => "dict"
  end.

Definition is_dict (v : pyval) : bool := match v with PDict _ => true | _ => false end.
Definition is_list (v : pyval) : bool := match v with PList _ => true | _ => false end.
Definition is_str (v : pyval) : bool := match v with PStr _ => true | _ => false end.

Fixpoint dict_get (d : list (string * pyval)) (k : string) : option pyval :=
  match d with
  | [] => None
  | (k', v) :: r => if String.eqb k' k then Some v else dict_get r k
  end.

Definition no_attribute {A} (v : pyval) (attr : string) : result A :=
  raise AttributeError
    (String sq (type_name v) ++ String sq " object has no attribute "
       ++ String sq attr ++ String sq "").

(** [v.get(k, default)]: only a dict has [get]. *)
Definition get_default (v : pyval) (k : string) (default : pyval) : result pyval :=
  match v with
  | PDict d => Ok (match dict_get d k with Some x => x | None => default end)
  | _ => no_attribute v "get"
  end.

(** [v.get(k)] *)
Definition get (v : pyval) (k : string) : result pyval := get_default v k PNone.

(** [v.lower()]: only a string has [lower]. *)
Definition lower_of (v : pyval) : result string :=
  match v with
  | PStr s => Ok (lower s)
  | _ => no_attribute v "lower"
  end.

(** [v.split(c)] *)
Definition split_of (v : pyval) (c : ascii) : result (list string) :=
  match v with
  | PStr s => Ok (split c s)
  | _ => no_attribute v "split"
  end.

(** [v[0]] *)
Definition item0 (v : pyval) : result pyval :=
  match v with
  | PList (x :: _) => Ok x
  | PList [] => raise IndexError "list index out of range"
  | PStr (String c _) => Ok (PStr (String c ""))
  | PStr "" => raise IndexError "string index out of range"
  | PDict _ => raise KeyError "0"
  | _ => raise TypeError (String sq (type_name v) ++ String sq " object is not subscriptable")
  end.

(** [for x in v]: the items the loop visits. *)
Definition iter (v : pyval) : result (list pyval) :=
  match v with
  | PList l => Ok l
  | PDict d => Ok (map (fun kv => PStr (fst kv)) d)
  | PStr s => Ok (map (fun c => PStr (String c "")) (list_ascii_of_string s))
  | _ => raise TypeError (String sq (type_name v) ++ String sq " object is not iterable")
  end.

(** [v / n] for an integer literal [n] *)
Definition truediv_int (v : pyval) (n : Z) : result spec_float :=
  match v with
  | PInt a => int_truediv a n
  | PBool b => int_truediv (if b then 1 else 0)%Z n
  | PFloat x =>
      if (n =? 0)%Z then raise ZeroDivisionError "float division by zero"
      else Ok (fdiv x (float_of_int n))
  | _ => raise TypeError
           ("unsupported operand type(s) for /: " ++ String sq (type_name v)
              ++ String sq " and 'int'")
  end.

(** Equality of values as the models use it: on strings, the only values the
    sources compare or put in a set, it is Python's [==]. *)
Definition str_eqb (a b : pyval) : bool :=
  match a, b with
  | PStr x, PStr y => String.eqb x y
  | _, _ => false
  end.

End Py.

(* ===================================================================== *)
(** * Regular expressions *)
(* ===================================================================== *)

(** The patterns of [audiomack_downloader.py] use literals, character classes,
    greedy and lazy repetition of one character class, optional non-capturing
    groups, alternation and capturing groups.  [exec] is the backtracking
    matcher of [re] on that fragment: alternatives are tried left to right, a
    greedy repetition tries the longest run first and a lazy one the shortest,
    and the first way of matching the whole pattern wins. *)

Module Re.
Import Py.

Inductive regex :=
| Eps
| Chr (f : ascii -> bool)                  (* one character of a class *)
| Cat (a b : regex)
| Alt (a b : regex)
| Star (greedy : bool) (f : ascii -> bool) (* [c*] when greedy, [c*?] when not *)
| Grp (n : nat) (a : regex).               (* capturing group number [n] *)

(** A group is kept as the span it matched: offsets from the start of the
    match, as [m.span(n)] gives them. *)
Definition captures := list (nat * (nat * nat)).

Fixpoint lookup (n : nat) (g : captures) : option (nat * nat) :=
  match g with
  | [] => None
  | (i, sp) :: r => if Nat.eqb i n then Some sp else lookup n r
  end.

Section Matcher.
Context {A : Type}.

(** The matcher works on the rest [s] of the subject and the number [i] of
    characters taken so far; [k] is what remains to be matched. *)
Fixpoint star_greedy (f : ascii -> bool) (s : string) (i : nat)
  (k : string -> nat -> option A) : option A :=
  match s with
  | "" => k "" i
  | String c t =>
      if f c
      then match star_greedy f t (S i) k with
           | Some x => Some x
           | None => k s i
           end
      else k s i
  end.

Fixpoint star_lazy (f : ascii -> bool) (s : string) (i : nat)
  (k : string -> nat -> option A) : option A :=
  match k s i with
  | Some x => Some x
  | None =>
      match s with
      | "" => None
      | String c t => if f c then star_lazy f t (S i) k else None
      end
  end.

Fixpoint exec (r : regex) (s : string) (i : nat) (g : captures)
  (k : string -> nat -> captures -> option A) : option A :=
  match r with
  | Eps => k s i g
  | Chr f =>
      match s with
      | String c t => if f c then k t (S i) g else None
      | "" => None
      end
  | Cat a b => exec a s i g (fun s' i' g' => exec b s' i' g' k)
  | Alt a b =>
      match exec a s i g k with
      | Some x => Some x
      | None => exec b s i g k
      end
  | Star greedy f =>
      (if greedy then star_greedy else star_lazy) f s i (fun s' i' => k s' i' g)
  | Grp n a => exec a s i g (fun s' i' g' => k s' i' ((n, (i, i')) :: g'))
  end.

End Matcher.

(** A match object: the subject from the start of the match on, the length of
    the match, the spans of the groups. *)
Record match_obj := Match { subject : string; stop : nat; spans : captures }.

(** [m.group(0)] *)
Definition matched (m : match_obj) : string := substring 0 (stop m) (subject m).

(** [m.group(n)] for [n >= 1]: [None] when the group took no part. *)
Definition group (m : match_obj) (n : nat) : option string :=
  match lookup n (spans m) with
  | Some (a, b) => Some (substring a (b - a) (subject m))
  | None => None
  end.

(** [pattern.match(s)]: a match that starts at the beginning of [s] *)
Definition match_at (r : regex) (s : string) : option match_obj :=
  exec r s 0 [] (fun _ i g => Some (Match s i g)).

(** [re.search(pattern, s)]: the match at the leftmost position that has one *)
Fixpoint search (r : regex) (s : string) : option match_obj :=
  match match_at r s with
  | Some m => Some m
  | None =>
      match s with
      | "" => None
      | String _ t => search r t
      end
  end.

(** [re.findall(pattern, s)] for a pattern without capturing groups that
    matches no empty text: the texts of the successive non-overlapping
    matches, left to right.  [skip] counts the characters of the last match
    still to step over. *)
Fixpoint findall_from (r : regex) (s : string) (skip : nat) : list string :=
  match skip with
  | S n =>
      match s with
      | "" => []
      | String _ t => findall_from r t n
      end
  | O =>
      match match_at r s with
      | Some m =>
          matched m ::
          match s with
          | "" => []
          | String _ t => findall_from r t (stop m - 1)
          end
      | None =>
          match s with
          | "" => []
          | String _ t => findall_from r t 0
          end
      end
  end.

Definition findall (r : regex) (s : string) : list string := findall_from r s 0.

(** ** Pattern syntax *)

Definition chr (c : ascii) : regex := Chr (Ascii.eqb c).

(** a literal character under [re.I] *)
Definition ichr (c : ascii) : regex :=
  Chr (fun x => Ascii.eqb (lower_char x) (lower_char c)).

Definition any_char : ascii -> bool := fun _ => true.       (* [.] under [re.S] *)

Definition none_of (l : list ascii) : ascii -> bool :=
  fun x => negb (existsb (Ascii.eqb x) l).

Definition one_of (l : list ascii) : ascii -> bool :=
  fun x => existsb (Ascii.eqb x) l.

Fixpoint lit (s : string) : regex :=
  match s with
  | "" => Eps
  | String c t => Cat (chr c) (lit t)
  end.

Fixpoint ilit (s : string) : regex :=
  match s with
  | "" => Eps
  | String c t => Cat (ichr c) (ilit t)
  end.

Definition plus (f : ascii -> bool) : regex := Cat (Chr f) (Star true f).   (* [c+] *)
Definition star (f : ascii -> bool) : regex := Star true f.                 (* [c*] *)
Definition opt (a : regex) : regex := Alt a Eps.                            (* [(?:a)?] *)

Fixpoint seq (l : list regex) : regex :=
  match l with
  | [] => Eps
  | a :: r => Cat a (seq r)
  end.

End Re.

(* ===================================================================== *)
(** * The world outside the repository *)
(* ===================================================================== *)

Module Net.
Import Py.

(** The fields of [urlparse]'s result that the sources read. *)
Record url_parts := UrlParts { netloc : string; path : string }.

Inductive headers :=
| NoHeaders
| DefaultHeaders                (* [DEFAULT_HEADERS] of audiomack_downloader.py *)
| Authorization (token : pyval). (* [{'Authorization': f'Bearer {token}'}] *)

Inductive request :=
| Get (url : string) (params : list (string * string)) (h : headers)
      (stream : bool) (timeout : Z)
| Post (url : string) (data : list (string * string)) (auth : string * string)
       (timeout : Z).

(** A [requests.Response]: what the sources read of it.  [chunks] is what
    [iter_content] yields, and [stream_error] the exception it raises after
    them, if any. *)
Record response := Response {
  status_code : Z;
  text : string;
  json : result pyval;                (* [resp.json()] *)
  content_length : option string;     (* [resp.headers.get('Content-Length')] *)
  chunks : list string;
  stream_error : option exn
}.

Record World := {
  environ : string -> option string;        (* [os.environ.get] *)
  urlparse : string -> result url_parts;    (* [urllib.parse.urlparse] *)
  json_loads : string -> result pyval;      (* [json.loads] *)
  send : request -> result response;        (* [requests.get], [requests.post] *)
  makedirs : string -> option exn;          (* [os.makedirs(d, exist_ok=True)] *)
  open_wb : string -> option exn;           (* [open(path, 'wb')] *)
  write : nat -> string -> option exn;      (* [fh.write(chunk)], [n]-th chunk *)
  speed_at : nat -> Z -> Z                  (* see [Audiomack.download_direct] *)
}.

(** Computations that send requests: every request is appended to a log,
    whether the computation then returns or raises. *)
Definition M (A : Type) : Type := list request -> result A * list request.

Definition ret {A} (a : A) : M A := fun tr => (Ok a, tr).

Definition bind {A B} (m : M A) (k : A -> M B) : M B :=
  fun tr =>
    match m tr with
    | (Ok a, tr') => k a tr'
    | (Raise e, tr') => (Raise e, tr')
    end.

Definition lift {A} (r : result A) : M A := fun tr => (r, tr).

Definition throw {A} (c : exn_class) (msg : string) : M A := lift (raise c msg).

(** [try: m  except c as e: h e] *)
Definition try_except {A} (m : M A) (c : exn_class) (h : exn -> M A) : M A :=
  fun tr =>
    match m tr with
    | (Raise e, tr') => if caught_by e c then h e tr' else (Raise e, tr')
    | done => done
    end.

Definition request_ (w : World) (rq : request) : M response :=
  fun tr => (send w rq, (tr ++ [rq])%list).

(** The outcome of a computation started with an empty log. *)
Definition run {A} (m : M A) : result A * list request := m [].
Definition outcome {A} (m : M A) : result A := fst (run m).
Definition sent {A} (m : M A) : list request := snd (run m).

Declare Scope net_scope.
Delimit Scope net_scope with net.
Notation "x <- m ;; k" := (bind m (fun x => k))
  (at level 61, m at next level, right associativity) : net_scope.

Definition request_url (rq : request) : string :=
  match rq with
  | Get u _ _ _ _ => u
  | Post u _ _ _ => u
  end.

End Net.

(* ===================================================================== *)
(** * The metadata record *)
(* ===================================================================== *)

(** The dict both extractors return, and the dicts of its [formats] list. *)
Module Info.
Import Py.

Record format_entry := Format { format_id : pyval; ext : pyval; url : pyval }.

Record info := Info {
  title : pyval;
  thumbnail : pyval;
  uploader : pyval;
  duration : pyval;
  formats : list format_entry
}.

(** [{'title': None, 'thumbnail': None, 'uploader': None, 'duration': None,
    'formats': []}] *)
Definition empty : info := Info PNone PNone PNone PNone [].

Definition set_title (v : pyval) (i : info) : info :=
  Info v (thumbnail i) (uploader i) (duration i) (formats i).
Definition set_thumbnail (v : pyval) (i : info) : info :=
  Info (title i) v (uploader i) (duration i) (formats i).
Definition set_uploader (v : pyval) (i : info) : info :=
  Info (title i) (thumbnail i) v (duration i) (formats i).
Definition set_duration (v : pyval) (i : info) : info :=
  Info (title i) (thumbnail i) (uploader i) v (formats i).
Definition set_formats (l : list format_entry) (i : info) : info :=
  Info (title i) (thumbnail i) (uploader i) (duration i) l.
(** [info['formats'].append(f)] *)
Definition append_format (f : format_entry) (i : info) : info :=
  set_formats (formats i ++ [f])%list i.

(** The urls of a format list that are not [None], in order. *)
Definition urls (l : list format_entry) : list pyval :=
  filter (fun u => match u with PNone => false | _ => true end) (map url l).

End Info.

(* ===================================================================== *)
(** * audiomack_downloader.py *)
(* ===================================================================== *)

Module Audiomack.
Import Py Re Net Info.
Local Open Scope py_scope.
Local Open Scope net_scope.

Definition q : string := String dq "".

(** The patterns are quoted with \x22 standing for the double quote character.

    [r'<script[^>]+type=[\x22\']application/ld\+json[\x22\'][^>]*>(.*?)</script>']
    with [re.S | re.I] *)
Definition json_ld_re : regex :=
  seq [ ilit "<script"; plus (none_of [">"%char]); ilit "type=";
        Chr (one_of [dq; sq]); ilit "application/ld+json"; Chr (one_of [dq; sq]);
        star (none_of [">"%char]); chr ">";
        Grp 1 (Star false any_char);
        ilit "</script>" ].

(** [[\w\-/._?=&%]] *)
Definition url_char (c : ascii) : bool :=
  is_word c || one_of ["-"; "/"; "."; "_"; "?"; "="; "&"; "%"]%char c.

(** [[^\x22\'>\s]] *)
Definition query_char (c : ascii) : bool :=
  none_of [dq; sq; ">"%char] c && negb (is_space c).

(** [r'https?://[\w\-/._?=&%]+\.(?:mp3|m3u8)(?:\?[^\x22\'>\s]+)?'] *)
Definition audio_url_re : regex :=
  seq [ lit "http"; opt (chr "s"); lit "://"; plus url_char; chr ".";
        Alt (lit "mp3") (lit "m3u8");
        opt (Cat (chr "?") (plus query_char)) ].

(** [r'<meta property=\x22og:title\x22 content=\x22([^\x22]+)\x22'] with [re.I],
    and its two siblings *)
Definition meta_re (attr name : string) : regex :=
  seq [ ilit ("<meta " ++ attr ++ "=" ++ q ++ name ++ q ++ " content=" ++ q);
        Grp 1 (plus (none_of [dq])); chr dq ].

Definition og_title_re : regex := meta_re "property" "og:title".
Definition og_image_re : regex := meta_re "property" "og:image".
Definition author_re : regex := meta_re "name" "author".

(** [r'\x22duration\x22\s*:\s*\x22PT?(?:(\d+)M)?(?:(\d+)S)?\x22'] *)
Definition duration_re : regex :=
  seq [ lit (q ++ "duration" ++ q); star is_space; chr ":"; star is_space;
        chr dq; chr "P"; opt (chr "T");
        opt (Cat (Grp 1 (plus is_digit)) (chr "M"));
        opt (Cat (Grp 2 (plus is_digit)) (chr "S"));
        chr dq ].

(** [m.group(n).strip()] *)
Definition group_strip (m : match_obj) (n : nat) : result string :=
  match group m n with
  | Some s => Ok (strip s)
  | None => no_attribute PNone "strip"
  end.

Definition _find_json_ld (w : World) (html_text : string) : pyval :=
  match search json_ld_re html_text with
  | None => PNone
  | Some m =>
      match (let* s := group_strip m 1 in json_loads w s) with
      | Ok v => v
      | Raise _ => PNone          (* except Exception: return None *)
      end
  end.

(** The loop of [_find_direct_audio_urls]: the state is [(seen, out)]. *)
Definition keep_first (st : list string * list string) (u : string)
  : list string * list string :=
  let '(seen, out) := st in
  if existsb (String.eqb u) seen then st else (u :: seen, (out ++ [u])%list).

Definition _find_direct_audio_urls (html_text : string) : list string :=
  let urls := findall audio_url_re html_text in
  snd (fold_left keep_first urls ([], [])).

(** Lines 69-87: the JSON-LD block, when there is one. *)
Definition from_json_ld (json_ld : pyval) (i : info) : result info :=
  if truthy json_ld then
    let* name := get json_ld "name" in
    let* t := (if truthy name then Ok name
               else let* headline := get json_ld "headline" in
                    Ok (por headline (title i))) in
    let i := set_title t i in
    let* image := get json_ld "image" in
    let* thumb := (if is_list image then item0 image else Ok image) in
    let i := set_thumbnail thumb i in
    let* author := get json_ld "author" in
    let* i := (if is_dict author then
                 let* n := get author "name" in Ok (set_uploader n i)
               else if is_str author then Ok (set_uploader author i)
               else Ok i) in
    let* audio := get json_ld "audio" in
    if is_dict audio then
      let* c := get audio "contentUrl" in
      let* content := (if truthy c then Ok c else get audio "url") in
      if truthy content then
        let* low := lower_of content in
        let* e := (if endswith ".mp3" low then Ok "mp3"
                   else let* parts := split_of content "." in
                        Ok (hd "" (split "?" (last_item parts "")))) in
        Ok (append_format (Format (PStr "audio") (PStr e) content) i)
      else Ok i
    else Ok i
  else Ok i.

(** [if not v: m = re.search(pattern, text, re.I); if m: v = m.group(1)] *)
Definition meta_fallback (r : regex) (text : string) (v : pyval) : pyval :=
  if truthy v then v
  else match search r text with
       | Some m => match group m 1 with Some s => PStr s | None => PNone end
       | None => v
       end.

(** Line 108 *)
Definition direct_ext (u : string) : string :=
  if endswith ".mp3" (lower u) then "mp3"
  else if contains ".m3u8" (lower u) then "m3u8"
  else last_item (split "." u) "".

Definition direct_format (u : string) : format_entry :=
  Format (PStr (direct_ext u)) (PStr (direct_ext u)) (PStr u).

(** Lines 112-117: the state is [(seen_urls, formats)]. *)
Definition keep_new_url (st : list pyval * list format_entry) (f : format_entry)
  : list pyval * list format_entry :=
  let '(seen_urls, fs) := st in
  if truthy (url f) && negb (existsb (str_eqb (url f)) seen_urls)
  then (url f :: seen_urls, (fs ++ [f])%list)
  else st.

Definition dedup_formats (l : list format_entry) : list format_entry :=
  snd (fold_left keep_new_url l ([], [])).

(** [int(m.group(n) or 0)] *)
Definition int_group (m : match_obj) (n : nat) : result Z :=
  match group m n with
  | Some s => if is_empty s then Ok 0%Z else int_of_str s
  | None => Ok 0%Z
  end.

(** Lines 122-126 *)
Definition with_duration (text : string) (i : info) : result info :=
  match search duration_re text with
  | Some m =>
      let* mins := int_group m 1 in
      let* secs := int_group m 2 in
      Ok (set_duration (PInt (mins * 60 + secs)) i)
  | None => Ok i
  end.

(** [parsed.path.strip('/').split('/')[-1] or 'Audiomack Track'] *)
Definition title_from_path (p : string) : string :=
  let seg := last_item (split "/" (strip_char "/" p)) "" in
  if is_empty seg then "Audiomack Track" else seg.

(** Lines 129-131 *)
Definition with_title (w : World) (url : string) (i : info) : result info :=
  if truthy (title i) then Ok i
  else let* parsed := urlparse w url in
       Ok (set_title (PStr (title_from_path (path parsed))) i).

(** Lines 59-126, given the JSON-LD block found: the record as the heuristics
    leave it, before the final check on the title. *)
Definition heuristics (json_ld : pyval) (text : string) : result info :=
  let i := Info.empty in
  let* i := from_json_ld json_ld i in
  let i := set_title (meta_fallback og_title_re text (title i)) i in
  let i := set_thumbnail (meta_fallback og_image_re text (thumbnail i)) i in
  let i := set_uploader (meta_fallback author_re text (uploader i)) i in
  let direct := _find_direct_audio_urls text in
  let i := set_formats (formats i ++ map direct_format direct)%list i in
  let i := set_formats (dedup_formats (formats i)) i in
  with_duration text i.

Definition scrape (w : World) (text : string) : result info :=
  heuristics (_find_json_ld w text) text.

Definition msg_forbidden : string :=
  "This track is not publicly accessible. It may be premium-only or region-restricted.".
Definition msg_not_found : string :=
  "Track not found. It may have been deleted or made private.".
Definition msg_status (status : Z) : string :=
  "Failed to access Audiomack track (HTTP " ++ str_of_Z status ++ ")".

(** Lines 43-48 *)
Definition fetch (w : World) (url : string) : M response :=
  fun tr =>
    match request_ w (Get url [] DefaultHeaders false 15) tr with
    | (Raise e, tr') =>
        if caught_by e Timeout then
          throw Exception "Request timed out while accessing Audiomack track." tr'
        else if caught_by e RequestException then
          throw Exception ("Failed to access Audiomack track: " ++ str_exn e) tr'
        else (Raise e, tr')
    | done => done
    end.

(** Lines 50-55 *)
Definition check_status (resp : response) : result unit :=
  if (status_code resp =? 403)%Z then raise Exception msg_forbidden
  else if (status_code resp =? 404)%Z then raise Exception msg_not_found
  else if negb (status_code resp =? 200)%Z then
    raise Exception (msg_status (status_code resp))
  else Ok tt.

Definition extract_info (w : World) (url : string) : M info :=
  resp <- fetch w url ;;
  _ <- lift (check_status resp) ;;
  lift (let* i := scrape w (text resp) in with_title w url i).

(** ** The streaming downloader *)

(** The dict handed to [progress_callback]; the closing one has no [speed]. *)
Record event := Event {
  status : string;
  downloaded_bytes : Z;
  total_bytes : Z;
  percentage : Z;
  speed : option Z
}.

(** What a download leaves behind: the destination file ([None] when it was
    never opened) and the calls made to [progress_callback], in order. *)
Record effects := Effects { file : option string; events : list event }.

(** [posixpath.dirname] *)
Fixpoint upto_last_slash (s : string) : string :=
  match s with
  | "" => ""
  | String c t =>
      let h := upto_last_slash t in
      if is_empty h then (if Ascii.eqb c "/" then "/" else "") else String c h
  end.

Definition dirname (p : string) : string :=
  let head := upto_last_slash p in
  if negb (is_empty head) && negb (all_chars (Ascii.eqb "/") head)
  then rstrip_by (Ascii.eqb "/") head
  else head.

(** Line 158: [int(resp.headers.get('Content-Length') or 0)] *)
Definition total_of (resp : response) : result Z :=
  match content_length resp with
  | Some s => if is_empty s then Ok 0%Z else int_of_str s
  | None => Ok 0%Z
  end.

(** Line 175: [int((downloaded / total) * 100) if total else 0] *)
Definition percent (downloaded total : Z) : result Z :=
  if (total =? 0)%Z then Ok 0%Z
  else let* ratio := int_truediv downloaded total in
       int_of_float (fmul ratio (float_of_int 100)).

(** The state of the loop of lines 167-182. *)
Record progress := Progress {
  downloaded : Z;
  written : string;          (* the bytes in the file so far *)
  calls : list event         (* the callback's calls so far *)
}.

(** Lines 167-182.  [cb] tells whether a [progress_callback] was passed; the
    callback is a recorder, it does not raise.  [speed] is
    [int(downloaded / elapsed) if elapsed > 0 else 0] for a wall-clock reading
    [elapsed]: the clock is outside the model and the world supplies the
    value for the [n]-th chunk. *)
Fixpoint receive (w : World) (cb : bool) (total : Z) (cs : list string)
  (n : nat) (st : progress) : result unit * progress :=
  match cs with
  | [] => (Ok tt, st)
  | chunk :: more =>
      if is_empty chunk then receive w cb total more (S n) st
      else
        match write w n chunk with
        | Some e => (Raise e, st)
        | None =>
            let d := (downloaded st + Z.of_nat (String.length chunk))%Z in
            let st1 := Progress d (written st ++ chunk) (calls st) in
            if cb then
              match percent d total with
              | Raise e => (Raise e, st1)
              | Ok pc =>
                  let ev := Event "downloading" d total pc (Some (speed_at w n d)) in
                  receive w cb total more (S n)
                    (Progress d (written st1) (calls st1 ++ [ev])%list)
              end
            else receive w cb total more (S n) st1
        end
  end.

(** Lines 165-193: the [try] block and its [except IOError] clause. *)
Definition save (w : World) (resp : response) (output_path : string)
  (cb : bool) (total : Z) : result unit * effects :=
  let io_error (e : exn) : result unit :=
    if caught_by e OSError then
      raise Exception ("Failed to write audio file: " ++ str_exn e
                         ++ ". Check disk space and permissions.")
    else Raise e in
  match open_wb w output_path with
  | Some e => (io_error e, Effects None [])
  | None =>
      let '(r, st) := receive w cb total (chunks resp) 0 (Progress 0 "" []) in
      match r with
      | Raise e => (io_error e, Effects (Some (written st)) (calls st))
      | Ok _ =>
          match stream_error resp with
          | Some e => (io_error e, Effects (Some (written st)) (calls st))
          | None =>
              let done := Event "finished" (downloaded st) total 100 None in
              (Ok tt, Effects (Some (written st))
                        (if cb then (calls st ++ [done])%list else calls st))
          end
      end
  end.

Definition download_direct (w : World) (url output_path : string) (cb : bool)
  (timeout : Z) : result unit * effects :=
  let fail {A} (r : result A) := (r, Effects None []) in
  match send w (Get url [] DefaultHeaders true timeout) with
  | Raise e =>
      if caught_by e Timeout then
        fail (raise Exception "Download timed out. Please try again.")
      else if caught_by e ConnectionError then
        fail (raise Exception "Connection error. Please check your internet connection.")
      else if caught_by e RequestException then
        fail (raise Exception ("Failed to download audio: " ++ str_exn e))
      else fail (Raise e)
  | Ok resp =>
      if (status_code resp =? 403)%Z then
        fail (raise Exception
                "Access denied. The track may be premium-only or not available in your region.")
      else if (status_code resp =? 404)%Z then
        fail (raise Exception
                "The audio file was not found. The track may have been removed.")
      else if negb (status_code resp =? 200)%Z then
        fail (raise Exception
                ("Failed to download audio (HTTP " ++ str_of_Z (status_code resp) ++ ")"))
      else
        match total_of resp with
        | Raise e => fail (Raise e)
        | Ok total =>
            let dir := dirname output_path in
            match makedirs w (if is_empty dir then "." else dir) with
            | Some e => fail (Raise e)
            | None => save w resp output_path cb total
            end
        end
  end.

End Audiomack.

(* ===================================================================== *)
(** * spotify_utils.py *)
(* ===================================================================== *)

Module Spotify.
Import Py Net Info.
Local Open Scope py_scope.
Local Open Scope net_scope.

Definition SPOTIFY_TOKEN_URL : string := "https://accounts.spotify.com/api/token".
Definition SPOTIFY_API_BASE : string := "https://api.spotify.com/v1".
Definition OEMBED_URL : string := "https://open.spotify.com/oembed".

Definition _get_client_credentials (w : World) : option string * option string :=
  (environ w "SPOTIFY_CLIENT_ID", environ w "SPOTIFY_CLIENT_SECRET").

Definition _get_bearer_token_from_env (w : World) : option string :=
  environ w "SPOTIFY_BEARER_TOKEN".

(** [bool(v)] for a value that is a string or [None] *)
Definition configured (v : option string) : bool :=
  match v with
  | Some s => negb (is_empty s)
  | None => false
  end.

Definition msg_not_configured : string := "SPOTIFY client credentials not configured".

Definition get_access_token (w : World) : M pyval :=
  let '(client_id, client_secret) := _get_client_credentials w in
  match client_id, client_secret with
  | Some id, Some secret =>
      if negb (configured client_id) || negb (configured client_secret) then
        throw Exception msg_not_configured
      else
        resp <- request_ w (Post SPOTIFY_TOKEN_URL
                              [("grant_type", "client_credentials")] (id, secret) 10) ;;
        if negb (status_code resp =? 200)%Z then
          throw Exception ("Failed to obtain Spotify token: "
                             ++ str_of_Z (status_code resp) ++ " " ++ text resp)
        else
          lift (let* body := json resp in get body "access_token")
  | _, _ => throw Exception msg_not_configured
  end.

Definition _parse_spotify_url (w : World) (url : string)
  : option string * option string :=
  match urlparse w url with
  | Raise _ => (None, None)             (* except Exception *)
  | Ok parsed =>
      let host := lower (netloc parsed) in
      if negb (contains "open.spotify.com" host) && negb (contains "spotify" host)
      then (None, None)
      else
        match split "/" (strip_char "/" (path parsed)) with
        | a :: b :: _ => (Some a, Some b)
        | _ => (None, None)
        end
  end.

Definition _get_auth_headers (w : World) : M headers :=
  let bearer := _get_bearer_token_from_env w in
  match bearer with
  | Some b =>
      if configured bearer then ret (Authorization (PStr b))
      else token <- get_access_token w ;; ret (Authorization token)
  | None => token <- get_access_token w ;; ret (Authorization token)
  end.

(** [[a.get('name') for a in l if a.get('name')]] *)
Fixpoint names_of (l : list pyval) : result (list pyval) :=
  match l with
  | [] => Ok []
  | a :: r =>
      let* n := get a "name" in
      let* ns := names_of r in
      Ok (if truthy n then n :: ns else ns)
  end.

(** The items of a list as strings, as [str.join] needs them. *)
Fixpoint strings_of (k : nat) (l : list pyval) : result (list string) :=
  match l with
  | [] => Ok []
  | PStr s :: r => let* ss := strings_of (S k) r in Ok (s :: ss)
  | v :: _ =>
      raise TypeError ("sequence item " ++ str_of_Z (Z.of_nat k)
                         ++ ": expected str instance, " ++ type_name v ++ " found")
  end.

(** [', '.join(artists) if artists else None] *)
Definition joined (artists : list pyval) : result pyval :=
  match artists with
  | [] => Ok PNone
  | _ => let* ss := strings_of 0 artists in Ok (PStr (join ", " ss))
  end.

(** [images = ...; if images: info['thumbnail'] = images[0].get('url')] *)
Definition with_first_image (images : pyval) (i : info) : result info :=
  if truthy images then
    let* first := item0 images in
    let* u := get first "url" in
    Ok (set_thumbnail u i)
  else Ok i.

(** [{'format_id': t.get('id'),
      'ext': 'preview' if t.get('preview_url') else 'none',
      'url': t.get('preview_url')}] *)
Definition track_format (t : pyval) : result format_entry :=
  let* id := get t "id" in
  let* p := get t "preview_url" in
  let* u := get t "preview_url" in
  Ok (Format id (PStr (if truthy p then "preview" else "none")) u).

(** Lines 103-104: the uploader of a track. *)
Definition listed_artists (data : pyval) : result pyval :=
  let* listed := get_default data "artists" (PList []) in
  let* items := iter listed in
  let* artists := names_of items in
  joined artists.

(** Lines 105-108: the thumbnail of a track. *)
Definition album_image (data : pyval) (i : info) : result info :=
  let* album := get_default data "album" (PDict []) in
  let* images := get_default album "images" (PList []) in
  with_first_image images i.

(** Line 109: [int(data.get('duration_ms', 0) / 1000)] *)
Definition seconds (data : pyval) : result Z :=
  let* ms := get_default data "duration_ms" (PInt 0) in
  let* secs := truediv_int ms 1000 in
  int_of_float secs.

(** Lines 101-113 *)
Definition track_info (data : pyval) (i : info) : result info :=
  let* name := get data "name" in
  let i := set_title name i in
  let* u := listed_artists data in
  let i := set_uploader u i in
  let* i := album_image data i in
  let* d := seconds data in
  let i := set_duration (PInt d) i in
  let* preview := get data "preview_url" in
  if truthy preview
  then Ok (append_format (Format (PStr "preview") (PStr "mp3") preview) i)
  else Ok i.

(** The loops of lines 127-128 and 144-146 *)
Fixpoint album_formats (tracks : list pyval) : result (list format_entry) :=
  match tracks with
  | [] => Ok []
  | t :: r =>
      let* f := track_format t in
      let* fs := album_formats r in
      Ok (f :: fs)
  end.

Fixpoint playlist_formats (items : list pyval) : result (list format_entry) :=
  match items with
  | [] => Ok []
  | item :: r =>
      let* t := get item "track" in
      let track := por t (PDict []) in
      let* f := track_format track in
      let* fs := playlist_formats r in
      Ok (f :: fs)
  end.

(** Lines 119-130 *)
Definition album_info (data : pyval) (i : info) : result info :=
  let* name := get data "name" in
  let i := set_title name i in
  let* listed := get_default data "artists" (PList [PDict []]) in
  let* first := item0 listed in
  let* u := get first "name" in
  let i := set_uploader u i in
  let* images := get_default data "images" (PList []) in
  let* i := with_first_image images i in
  let* tr := get_default data "tracks" (PDict []) in
  let* tracks := get_default tr "items" (PList []) in
  let* ts := iter tracks in
  let* fs := album_formats ts in
  Ok (set_formats fs i).

(** Lines 136-148 *)
Definition playlist_info (data : pyval) (i : info) : result info :=
  let* name := get data "name" in
  let i := set_title name i in
  let* owner := get_default data "owner" (PDict []) in
  let* u := get owner "display_name" in
  let i := set_uploader u i in
  let* images := get_default data "images" (PList []) in
  let* i := with_first_image images i in
  let* tr := get_default data "tracks" (PDict []) in
  let* items := get_default tr "items" (PList []) in
  let* its := iter items in
  let* fs := playlist_formats its in
  Ok (set_formats fs i).

Definition msg_api_error (resp : response) : string :=
  "Spotify API error: " ++ str_of_Z (status_code resp) ++ " " ++ text resp.

(** One authenticated resource GET and the mapping of its JSON. *)
Definition resource (w : World) (endpoint obj_id : string) (h : headers)
  (mapping : pyval -> info -> result info) (i : info) : M info :=
  resp <- request_ w (Get (SPOTIFY_API_BASE ++ "/" ++ endpoint ++ "/" ++ obj_id)
                        [] h false 10) ;;
  if negb (status_code resp =? 200)%Z then throw Exception (msg_api_error resp)
  else lift (let* data := json resp in mapping data i).

Definition msg_fallback_failed : string :=
  "Spotify credentials or bearer token are required for full metadata (preview URLs). Fallback oEmbed failed: ".

(** Lines 82-92: the oEmbed request and its mapping. *)
Definition oembed_lookup (w : World) (url : string) (i : info) : M info :=
  oresp <- request_ w (Get OEMBED_URL [("url", url)] NoHeaders false 10) ;;
  if (status_code oresp =? 200)%Z then
    lift (let* od := json oresp in
          let* t := get od "title" in
          let i := set_title t i in
          let* a := get od "author_name" in
          let i := set_uploader a i in
          let* th := get od "thumbnail_url" in
          let i := set_thumbnail th i in
          let i := set_duration PNone i in
          Ok (set_formats [] i))
  else
    throw Exception ("oEmbed failed: " ++ str_of_Z (status_code oresp)
                       ++ " " ++ text oresp).

(** Lines 81-94: the fallback, with the [except Exception as oe] around it. *)
Definition oembed (w : World) (url : string) (i : info) : M info :=
  try_except (oembed_lookup w url i) Exception
    (fun oe => throw Exception (msg_fallback_failed ++ str_exn oe)).

(** [try: m] with the outcome handed on as a value. *)
Definition attempt {A} (m : M A) : M (result A) :=
  fun tr => let '(r, tr') := m tr in (Ok r, tr').

(** Lines 97-151: the resource endpoint for the type named in the URL. *)
Definition dispatch (w : World) (typ obj_id : string) (h : headers) (i : info)
  : M info :=
  if String.eqb typ "track" then resource w "tracks" obj_id h track_info i
  else if String.eqb typ "album" then resource w "albums" obj_id h album_info i
  else if String.eqb typ "playlist" then
    resource w "playlists" obj_id h playlist_info i
  else throw Exception "Unsupported Spotify resource type".

Definition extract_info (w : World) (url : string) : M info :=
  match _parse_spotify_url w url with
  | (Some typ, Some obj_id) =>
      if is_empty typ || is_empty obj_id then throw Exception "Invalid Spotify URL"
      else
        let i := Info.empty in
        auth <- attempt (_get_auth_headers w) ;;
        match auth with
        | Raise e =>
            if caught_by e Exception then oembed w url i else lift (Raise e)
        | Ok h => dispatch w typ obj_id h i
        end
  | _ => throw Exception "Invalid Spotify URL"
  end.

End Spotify.

(* ===================================================================== *)
(** * Vocabulary of the properties *)
(* ===================================================================== *)

Module Spec.
Import Py Re Net Info.

(** A format entry whose url is a string. *)
Definition str_url (f : format_entry) : Prop := is_str (url f) = true.

(** The invariant of the loop of lines 112-117 of audiomack_downloader.py:
    the urls kept so far are pairwise distinct and all in [seen_urls]. *)
Definition kept_distinct (st : list pyval * list format_entry) : Prop :=
  NoDup (map url (snd st)) /\ incl (map url (snd st)) (fst st).

(** No two entries of a format list have the same non-null url. *)
Definition distinct_urls (l : list format_entry) : Prop := NoDup (Info.urls l).

(** The number of bytes of a byte string. *)
Definition size (s : string) : Z := Z.of_nat (String.length s).

(** The bytes of a stream: its chunks put end to end. *)
Definition bytes (cs : list string) : string := fold_right String.append "" cs.

(** The disk takes the download: the directory can be made, the file opened
    and every chunk written. *)
Definition disk_accepts (w : World) (output_path : string) : Prop :=
  (forall d, makedirs w d = None) /\
  open_wb w output_path = None /\
  (forall n chunk, write w n chunk = None).

(** A progress report made while the download runs, with percentage 0. *)
Definition reports_zero (e : Audiomack.event) : Prop :=
  Audiomack.status e = "downloading" /\ Audiomack.percentage e = 0%Z /\
  Audiomack.total_bytes e = 0%Z.

(** A report that, if made while the download runs, has percentage 0. *)
Definition zero_while_downloading (e : Audiomack.event) : Prop :=
  Audiomack.status e = "downloading" -> Audiomack.percentage e = 0%Z.

(** The page fetch of [extract_info] was answered, with status [s]. *)
Definition got_status (w : World) (u : string) (s : Z) : Prop :=
  exists resp,
    send w (Get u [] DefaultHeaders false 15) = Ok resp /\ status_code resp = s.

(** What the libraries raise on their own is never a bare [Exception]:
    [requests.get] raises the classes of [requests] and built-in errors,
    [urlparse] a [ValueError]. *)
Definition library_errors (w : World) (u : string) : Prop :=
  (forall e, send w (Get u [] DefaultHeaders false 15) = Raise e ->
             exn_cls e <> Exception) /\
  (forall e, urlparse w u = Raise e -> exn_cls e <> Exception).

(** A generic error: an instance of [Exception] itself, which names no kind
    of failure and which every [except] clause for errors selects. *)
Definition generic (e : exn) : Prop :=
  exn_cls e = Exception /\ forall e' : exn, caught_by e' (exn_cls e) = true.

Definition nonempty (s : string) : bool := negb (is_empty s).

(** The non-empty segments of a URL path, in order. *)
Definition segments (p : string) : list string := filter nonempty (split "/" p).

(** The final non-empty segment of a URL path, if it has one. *)
Definition final_segment (p : string) : option string :=
  match rev (segments p) with
  | s :: _ => Some s
  | [] => None
  end.

(** The title derived from the URL path: its final non-empty segment, or the
    fixed placeholder when there is none. *)
Definition slug (p : string) : string :=
  match final_segment p with
  | Some s => s
  | None => "Audiomack Track"
  end.

(** A list of segments without its trailing empty ones. *)
Fixpoint trim (l : list string) : list string :=
  match l with
  | [] => []
  | x :: r =>
      match trim r with
      | [] => if is_empty x then [] else [x]
      | r' => x :: r'
      end
  end.

(** The fragment of page text of the duration example: the key duration, a
    colon and the value PT3M27S, key and value in double quotes. *)
Definition duration_fragment : string :=
  Audiomack.q ++ "duration" ++ Audiomack.q ++ ":" ++ Audiomack.q ++ "PT3M27S"
    ++ Audiomack.q.

(** No match of [r] in [pre ++ rest] starts within [pre]. *)
Fixpoint no_match_before (r : regex) (pre rest : string) : bool :=
  match pre with
  | "" => true
  | String c t =>
      match match_at r (pre ++ rest) with
      | Some _ => false
      | None => no_match_before r t rest
      end
  end.

(** The shape the vendor documents for the parts of a track object that the
    mapping walks through: [artists], when present, is a list of objects
    whose [name], when present and not empty, is a string; [album], when
    present, is an object whose [images], when present, is a list that is
    empty or begins with an object. *)
Definition artist_shape (a : pyval) : bool :=
  match a with
  | PDict d =>
      match dict_get d "name" with
      | Some (PStr _) | None => true
      | Some v => negb (truthy v)
      end
  | _ => false
  end.

Definition artists_shape (data : list (string * pyval)) : bool :=
  match dict_get data "artists" with
  | None => true
  | Some (PList l) => forallb artist_shape l
  | Some _ => false
  end.

Definition album_shape (data : list (string * pyval)) : bool :=
  match dict_get data "album" with
  | None => true
  | Some (PDict a) =>
      match dict_get a "images" with
      | None | Some (PList []) | Some (PList (PDict _ :: _)) => true
      | Some _ => false
      end
  | Some _ => false
  end.

Definition track_shape (data : list (string * pyval)) : bool :=
  artists_shape data && album_shape data.

(** A request to the vendor's token endpoint. *)
Definition token_call (rq : request) : bool :=
  match rq with
  | Post url _ _ _ => String.eqb url Spotify.SPOTIFY_TOKEN_URL
  | Get _ _ _ _ _ => false
  end.

(** The client-credential exchange request. *)
Definition exchange (id secret : string) : request :=
  Post Spotify.SPOTIFY_TOKEN_URL [("grant_type", "client_credentials")] (id, secret) 10.

(** The request to the public embed endpoint. *)
Definition embed_call (url : string) : request :=
  Get Spotify.OEMBED_URL [("url", url)] NoHeaders false 10.

(** An error names a cause when its message contains the message of the
    cause. *)
Definition names (surfaced cause : exn) : bool :=
  contains (str_exn cause) (str_exn surfaced).

End Spec.

(* ===================================================================== *)
(** * What the patterns match *)
(* ===================================================================== *)

(** The texts a pattern matches, and what its groups can capture: the
    yardstick for the matcher of [Re]. *)
Module Lang.
Import Py Re.

(** [matches r t]: the text [t], taken whole, is matched by [r]. *)
Fixpoint matches (r : regex) (t : string) : Prop :=
  match r with
  | Eps => t = ""
  | Chr f => exists c, t = String c "" /\ f c = true
  | Cat a b => exists t1 t2, t = t1 ++ t2 /\ matches a t1 /\ matches b t2
  | Alt a b => matches a t \/ matches b t
  | Star _ f => all_chars f t = true
  | Grp _ a => matches a t
  end.

(** The matcher stands at offset [i] of the subject, with [s] still to read. *)
Definition at_offset (subj s : string) (i : nat) : Prop :=
  exists pre, subj = pre ++ s /\ String.length pre = i.

(** A recorded span lies inside the subject and the text it covers has the
    property [P] asks of that group. *)
Definition span_ok (P : nat -> string -> Prop) (subj : string)
  (c : nat * (nat * nat)) : Prop :=
  exists pre t post,
    subj = pre ++ t ++ post /\
    String.length pre = fst (snd c) /\
    (fst (snd c) + String.length t)%nat = snd (snd c) /\
    P (fst c) t.

(** Every group of [r] encloses a pattern whose matches have the property
    [P] asks of that group. *)
Fixpoint groups_within (P : nat -> string -> Prop) (r : regex) : Prop :=
  match r with
  | Grp n a => (forall t, matches a t -> P n t) /\ groups_within P a
  | Cat a b | Alt a b => groups_within P a /\ groups_within P b
  | _ => True
  end.

(** A non-empty string of decimal digits. *)
Definition digits (s : string) : Prop := all_chars is_digit s = true /\ s <> "".

End Lang.

(** * More vocabulary *)

Module Shape.
Import Py Re Net Info.

(** The number of characters of group [n] of a match, 0 when the group took
    no part in it. *)
Definition group_length (m : match_obj) (n : nat) : Z :=
  match group m n with
  | Some s => Z.of_nat (String.length s)
  | None => 0%Z
  end.



(** A format entry of the HTML extractor: three strings, the url not empty. *)
Definition link_entry (f : format_entry) : Prop :=
  is_str (format_id f) = true /\ is_str (ext f) = true /\
  exists s, url f = PStr s /\ s <> "".

(** The value of a key of a JSON object, [None] when the key is missing. *)
Definition field (d : list (string * pyval)) (k : string) : pyval :=
  match dict_get d k with
  | Some v => v
  | None => PNone
  end.

(** No character of [s] is a slash. *)
Definition no_slash (s : string) : bool :=
  all_chars (fun c => negb (Ascii.eqb c "/")) s.

(** [l] rises strictly, from above [lo] up to [hi] at most. *)
Fixpoint rising (lo hi : Z) (l : list Z) : Prop :=
  match l with
  | [] => (lo <= hi)%Z
  | x :: r => (lo < x)%Z /\ rising x hi r
  end.



(** The endpoint of the vendor API for a resource type, if it has one. *)
Definition endpoint_of (typ : string) : option string :=
  if String.eqb typ "track" then Some "tracks"
  else if String.eqb typ "album" then Some "albums"
  else if String.eqb typ "playlist" then Some "playlists"
  else None.

(** The request for a resource of the vendor API. *)
Definition resource_call (endpoint id : string) (h : headers) : request :=
  Get (Spotify.SPOTIFY_API_BASE ++ "/" ++ endpoint ++ "/" ++ id) [] h false 10.

(** A format entry of an album or playlist record: [ext] says whether there
    is a preview url. *)
Definition listing_entry (f : format_entry) : Prop :=
  ext f = PStr (if truthy (url f) then "preview" else "none").

(** The entry of a playlist item that has no track. *)
Definition no_track_entry : format_entry := Format PNone (PStr "none") PNone.

(** A playlist item the mapping can take: an object whose track is missing,
    counts as false (null, say), or is an object. *)
Definition playlist_item_shape (item : pyval) : bool :=
  match item with
  | PDict d =>
      match dict_get d "track" with
      | Some t => negb (truthy t) || is_dict t
      | None => true
      end
  | _ => false
  end.

(** A playlist item without a track: the key is missing or its value counts
    as false. *)
Definition trackless (item : pyval) : bool :=
  match item with
  | PDict d =>
      match dict_get d "track" with
      | Some t => negb (truthy t)
      | None => true
      end
  | _ => false
  end.

(** The names of the listed artists that are non-empty strings, in order. *)
Fixpoint artist_names (l : list pyval) : list string :=
  match l with
  | [] => []
  | PDict d :: r =>
      match dict_get d "name" with
      | Some (PStr s) => if is_empty s then artist_names r else s :: artist_names r
      | _ => artist_names r
      end
  | _ :: r => artist_names r
  end.

(** The items the mapping of an album or a playlist walks through:
    [data.get('tracks', {}).get('items', [])]. *)
Definition listed_items (data : pyval) (items : list pyval) : Prop :=
  exists tr tracks,
    get_default data "tracks" (PDict []) = Ok tr /\
    get_default tr "items" (PList []) = Ok tracks /\
    iter tracks = Ok items.

(** Line 86 of audiomack_downloader.py: the ext of the structured-data audio
    url. *)
Definition audio_ext (c : string) : string :=
  if endswith ".mp3" (lower c) then "mp3"
  else hd "" (split "?" (last_item (split "." c) "")).

End Shape.

(* ===================================================================== *)
(** * Concrete worlds *)
(* ===================================================================== *)

(** Small worlds on which the models are run: a process environment, the
    parse of the one URL in play, what [json.loads] returns and how the peer
    answers.  The disk accepts every write. *)
Module Scenario.
Import Py Re Net Info.

Definition world (env : string -> option string) (parts : url_parts)
  (loads : string -> result pyval) (peer : request -> result response) : World :=
  {| environ := env;
     urlparse := fun _ => Ok parts;
     json_loads := loads;
     send := peer;
     makedirs := fun _ => None;
     open_wb := fun _ => None;
     write := fun _ _ => None;
     speed_at := fun _ _ => 0%Z |}.

Definition no_env : string -> option string := fun _ => None.

Definition bearer_env : string -> option string :=
  fun k => if String.eqb k "SPOTIFY_BEARER_TOKEN" then Some "BQDtoken" else None.

Definition client_env : string -> option string :=
  fun k => if String.eqb k "SPOTIFY_CLIENT_ID" then Some "client-id"
           else if String.eqb k "SPOTIFY_CLIENT_SECRET" then Some "client-secret"
           else None.

Definition not_json : result pyval := raise ValueError "Expecting value".

(** An HTML page. *)
Definition page (status : Z) (html : string) : response :=
  Response status html not_json None [] None.

(** A JSON answer of the vendor API. *)
Definition api (status : Z) (data : pyval) : response :=
  Response status "" (Ok data) None [] None.

(** A streamed body. *)
Definition stream (length_header : option string) (body : list string) : response :=
  Response 200 "" not_json length_header body None.

(** *** An Audiomack page that names one audio file three times *)

Definition song_url : string := "https://audiomack.com/artist/song/night-drive".
Definition song_mp3 : string := "https://cdn.example.com/night-drive.mp3".

Definition song_html : string :=
  "<html><script type='application/ld+json'>{}</script>"
    ++ "<a href='" ++ song_mp3 ++ "'>play</a><a href='" ++ song_mp3 ++ "'>again</a>"
    ++ "</html>".

Definition song_json_ld : pyval :=
  PDict [("name", PStr "Night Drive");
         ("audio", PDict [("contentUrl", PStr song_mp3)])].

Definition song_world : World :=
  world no_env (UrlParts "audiomack.com" "/artist/song/night-drive")
    (fun _ => Ok song_json_ld) (fun _ => Ok (page 200 song_html)).

Definition song_record : info :=
  Info (PStr "Night Drive") PNone PNone PNone
    [Format (PStr "audio") (PStr "mp3") (PStr song_mp3)].

(** *** A playlist that lists the same track twice *)

Definition playlist_url : string := "https://open.spotify.com/playlist/37i9dQZF1DX".
Definition preview_mp3 : string := "https://p.scdn.co/mp3-preview/4uLU6hMC".

Definition playlist_item : pyval :=
  PDict [("track", PDict [("id", PStr "4uLU6hMC"); ("preview_url", PStr preview_mp3)])].

Definition playlist_data : pyval :=
  PDict [("name", PStr "Road Trip");
         ("owner", PDict [("display_name", PStr "dj")]);
         ("tracks", PDict [("items", PList [playlist_item; playlist_item])])].

Definition playlist_world : World :=
  world bearer_env (UrlParts "open.spotify.com" "/playlist/37i9dQZF1DX")
    (fun _ => not_json) (fun _ => Ok (api 200 playlist_data)).

Definition playlist_record : info :=
  Info (PStr "Road Trip") PNone (PStr "dj") PNone
    [Format (PStr "4uLU6hMC") (PStr "preview") (PStr preview_mp3);
     Format (PStr "4uLU6hMC") (PStr "preview") (PStr preview_mp3)].

(** *** A track *)

Definition track_url : string := "https://open.spotify.com/track/4uLU6hMC".

Definition track_data : pyval :=
  PDict [("name", PStr "Mr. Brightside");
         ("artists", PList [PDict [("name", PStr "The Killers")]]);
         ("album",
          PDict [("images", PList [PDict [("url", PStr "https://i.scdn.co/image/ab67")]])]);
         ("duration_ms", PInt 210000);
         ("preview_url", PStr preview_mp3)].

Definition track_world : World :=
  world bearer_env (UrlParts "open.spotify.com" "/track/4uLU6hMC")
    (fun _ => not_json) (fun _ => Ok (api 200 track_data)).

Definition track_record : info :=
  Info (PStr "Mr. Brightside") (PStr "https://i.scdn.co/image/ab67")
    (PStr "The Killers") (PInt 210)
    [Format (PStr "preview") (PStr "mp3") (PStr preview_mp3)].

(** *** A page with nothing to scrape *)

Definition bare_world : World :=
  world no_env (UrlParts "audiomack.com" "/artist/song/night-drive/")
    (fun _ => not_json) (fun _ => Ok (page 200 "<html></html>")).

Definition bare_record : info := Info (PStr "night-drive") PNone PNone PNone [].

(** *** A track the API returns without a duration *)

Definition timeless_data : pyval :=
  PDict [("name", PStr "Mr. Brightside");
         ("artists", PList [PDict [("name", PStr "The Killers")]])].

Definition timeless_world : World :=
  world bearer_env (UrlParts "open.spotify.com" "/track/4uLU6hMC")
    (fun _ => not_json) (fun _ => Ok (api 200 timeless_data)).

Definition timeless_record : info :=
  Info (PStr "Mr. Brightside") PNone (PStr "The Killers") (PInt 0) [].

(** *** A track the API returns without a name *)

Definition untitled_world : World :=
  world bearer_env (UrlParts "open.spotify.com" "/track/4uLU6hMC")
    (fun _ => not_json) (fun _ => Ok (api 200 (PDict [("duration_ms", PInt 1000)]))).

Definition untitled_record : info := Info PNone PNone PNone (PInt 1) [].

(** *** A page with two durations *)

Definition quoted (s : string) : string := Audiomack.q ++ s ++ Audiomack.q.

Definition two_durations_html : string :=
  "{" ++ quoted "duration" ++ ":" ++ quoted "PT1M" ++ "} {"
      ++ quoted "duration" ++ ":" ++ quoted "PT3M27S" ++ "}".

Definition two_durations_world : World :=
  world no_env (UrlParts "audiomack.com" "/artist/song/night-drive")
    (fun _ => not_json) (fun _ => Ok (page 200 two_durations_html)).

Definition two_durations_record : info :=
  Info (PStr "night-drive") PNone PNone (PInt 60) [].

(** *** A page with one duration *)

Definition one_duration_html : string :=
  "<html>{" ++ quoted "duration" ++ ":" ++ quoted "PT3M27S" ++ "}</html>".

Definition one_duration_world : World :=
  world no_env (UrlParts "audiomack.com" "/artist/song/night-drive")
    (fun _ => not_json) (fun _ => Ok (page 200 one_duration_html)).

Definition one_duration_record : info :=
  Info (PStr "night-drive") PNone PNone (PInt 207) [].

(** *** Pages whose JSON-LD block is a JSON array *)

Definition array_html (block : string) : string :=
  "<html><script type='application/ld+json'>" ++ block ++ "</script></html>".

Definition array_loads (s : string) : result pyval :=
  if String.eqb s "[]" then Ok (PList [])
  else if String.eqb s "[1]" then Ok (PList [PInt 1])
  else not_json.

Definition array_world (block : string) : World :=
  world no_env (UrlParts "audiomack.com" "/artist/song/night-drive")
    array_loads (fun _ => Ok (page 200 (array_html block))).

(** *** Credentials the token endpoint rejects, content that is not public *)

Definition rejecting_peer (rq : request) : result response :=
  match rq with
  | Post _ _ _ _ => Ok (Response 500 "server error" not_json None [] None)
  | Get _ _ _ _ _ => Ok (Response 404 "Not Found" not_json None [] None)
  end.

Definition rejected_world : World :=
  world client_env (UrlParts "open.spotify.com" "/track/4uLU6hMC")
    (fun _ => not_json) rejecting_peer.

Definition token_failure : exn :=
  Exn Exception "Failed to obtain Spotify token: 500 server error".

Definition embed_failure : exn := Exn Exception "oEmbed failed: 404 Not Found".

Definition surfaced_failure : exn :=
  Exn Exception (Spotify.msg_fallback_failed ++ "oEmbed failed: 404 Not Found").

(** *** A page that is gone *)

Definition gone_world : World :=
  world no_env (UrlParts "audiomack.com" "/artist/song/night-drive")
    (fun _ => not_json) (fun _ => Ok (page 404 "<html>Not Found</html>")).

(** *** Downloads *)

Definition audio_url : string := "https://cdn.example.com/night-drive.mp3".

(** Three bytes, no Content-Length header. *)
Definition short_world : World :=
  world no_env (UrlParts "cdn.example.com" "/night-drive.mp3")
    (fun _ => not_json) (fun _ => Ok (stream None ["ID3"])).

(** 16384 bytes in two chunks of 8192, Content-Length: 16384. *)
Definition chunk_8k : string := string_of_list_ascii (repeat "x"%char (Z.to_nat 8192)).

Definition two_chunk_world : World :=
  world no_env (UrlParts "cdn.example.com" "/night-drive.mp3")
    (fun _ => not_json) (fun _ => Ok (stream (Some "16384") [chunk_8k; chunk_8k])).

End Scenario.

(** More worlds. *)
Module Scenario2.
Import Py Re Net Info.

(** *** A page with an og:title tag and no structured data *)



Definition og_record : info := Info (PStr "Night Drive (Official)") PNone PNone PNone [].

(** *** Downloads that go wrong *)

Definition forbidden_world : World :=
  Scenario.world Scenario.no_env (UrlParts "cdn.example.com" "/night-drive.mp3")
    (fun _ => Scenario.not_json)
    (fun _ => Ok (Response 403 "Forbidden" Scenario.not_json None [] None)).

Definition reset : exn := Exn ConnectionError "Connection broken: IncompleteRead".

(** Two chunks, then the connection breaks; no Content-Length. *)
Definition broken_world : World :=
  Scenario.world Scenario.no_env (UrlParts "cdn.example.com" "/night-drive.mp3")
    (fun _ => Scenario.not_json)
    (fun _ => Ok (Response 200 "" Scenario.not_json None ["ID3"; "data"] (Some reset))).

(** Content-Length says 10, the stream has 7 bytes. *)
Definition short_stream_world : World :=
  Scenario.world Scenario.no_env (UrlParts "cdn.example.com" "/night-drive.mp3")
    (fun _ => Scenario.not_json)
    (fun _ => Ok (Scenario.stream (Some "10") ["ID3"; ""; "data"])).

(** *** URLs the vendor client turns down or cannot serve *)

Definition other_host_world : World :=
  Scenario.world Scenario.bearer_env (UrlParts "music.example.com" "/track/4uLU6hMC")
    (fun _ => Scenario.not_json) (fun _ => Ok (Scenario.api 200 Scenario.track_data)).

Definition artist_world : World :=
  Scenario.world Scenario.bearer_env (UrlParts "open.spotify.com" "/artist/0C0XlULi")
    (fun _ => Scenario.not_json) (fun _ => Ok (Scenario.api 200 (PDict []))).

Definition throttled_world : World :=
  Scenario.world Scenario.bearer_env (UrlParts "open.spotify.com" "/album/4aawyAB9")
    (fun _ => Scenario.not_json)
    (fun _ => Ok (Response 429 "rate limited" Scenario.not_json None [] None)).

(** *** A playlist with an item whose track is gone *)

Definition gappy_data : pyval :=
  PDict [("name", PStr "Road Trip");
         ("tracks", PDict [("items", PList [Scenario.playlist_item;
                                            PDict [("track", PNone)]])])].

Definition gappy_world : World :=
  Scenario.world Scenario.bearer_env (UrlParts "open.spotify.com" "/playlist/37i9dQZF1DX")
    (fun _ => Scenario.not_json) (fun _ => Ok (Scenario.api 200 gappy_data)).

(** *** A token endpoint that answers 200 without a token *)

Definition tokenless_peer (rq : request) : result response :=
  match rq with
  | Post _ _ _ _ => Ok (Scenario.api 200 (PDict [("error", PStr "unsupported")]))
  | Get _ _ _ _ _ => Ok (Response 401 "No token provided" Scenario.not_json None [] None)
  end.

Definition tokenless_world : World :=
  Scenario.world Scenario.client_env (UrlParts "open.spotify.com" "/track/4uLU6hMC")
    (fun _ => Scenario.not_json) tokenless_peer.

(** *** An album without artists *)

Definition anonymous_album : pyval :=
  PDict [("name", PStr "Untitled"); ("artists", PList [])].

Definition anonymous_world : World :=
  Scenario.world Scenario.bearer_env (UrlParts "open.spotify.com" "/album/4aawyAB9")
    (fun _ => Scenario.not_json) (fun _ => Ok (Scenario.api 200 anonymous_album)).

(** *** An album whose object has no artists key *)

Definition keyless_album : pyval := PDict [("name", PStr "Untitled")].

Definition keyless_world : World :=
  Scenario.world Scenario.bearer_env (UrlParts "open.spotify.com" "/album/4aawyAB9")
    (fun _ => Scenario.not_json) (fun _ => Ok (Scenario.api 200 keyless_album)).

(** *** A page whose structured data has an empty image list *)

Definition imageless_world : World :=
  Scenario.world Scenario.no_env (UrlParts "audiomack.com" "/artist/song/night-drive")
    (fun _ => Ok (PDict [("name", PStr "Night Drive"); ("image", PList [])]))
    (fun _ => Ok (Scenario.page 200 Scenario.song_html)).

(** *** Page fetches that fail *)

Definition denied_world : World :=
  Scenario.world Scenario.no_env (UrlParts "audiomack.com" "/artist/song/night-drive")
    (fun _ => Scenario.not_json) (fun _ => Ok (Scenario.page 403 "<html>Forbidden</html>")).

Definition unavailable_world : World :=
  Scenario.world Scenario.no_env (UrlParts "audiomack.com" "/artist/song/night-drive")
    (fun _ => Scenario.not_json)
    (fun _ => Ok (Scenario.page 503 "<html>Service Unavailable</html>")).

Definition stalled_world : World :=
  Scenario.world Scenario.no_env (UrlParts "audiomack.com" "/artist/song/night-drive")
    (fun _ => Scenario.not_json) (fun _ => Raise (Exn Timeout "Read timed out.")).

(** *** A duration of 4301 digits *)

Definition long_number : string :=
  string_of_list_ascii (repeat "7"%char (Z.to_nat 4301)).



End Scenario2.

(* ===================================================================== *)
(** * Properties *)
(* ===================================================================== *)

Import Py Re Net Info Spec.
Local Open Scope py_scope.

(** ** The models on sample inputs *)

Example findall_audio_urls :
  findall Audiomack.audio_url_re
    "<a href='https://cdn.example.com/a.mp3?x=1&y=2'>x</a> http://h/l.m3u8 https://h/x.mp3.txt"
  = ["https://cdn.example.com/a.mp3?x=1&y=2"; "http://h/l.m3u8"; "https://h/x.mp3"].
Proof. vm_compute. reflexivity. Qed.

Example og_title_ignores_case :
  Audiomack.meta_fallback Audiomack.og_title_re
    ("<META PROPERTY=" ++ Scenario.quoted "OG:TITLE" ++ " CONTENT="
       ++ Scenario.quoted "Night Drive" ++ ">") PNone
  = PStr "Night Drive".
Proof. vm_compute. reflexivity. Qed.

Example json_ld_block_found :
  option_map (fun m => Audiomack.group_strip m 1)
    (search Audiomack.json_ld_re
       "<SCRIPT id='ld' TYPE='application/ld+json' defer> {} </script><script>x</script>")
  = Some (Ok "{}").
Proof. vm_compute. reflexivity. Qed.

(** The percentage is computed in binary64: 29/100 is just under 0.29. *)
Example percent_rounds_as_floats :
  Audiomack.percent 29 100 = Ok 28%Z /\ Audiomack.percent 2 7 = Ok 28%Z /\
  Audiomack.percent 1 3 = Ok 33%Z /\ Audiomack.percent 16384 16384 = Ok 100%Z.
Proof. repeat split; vm_compute; reflexivity. Qed.

Example seconds_truncate_towards_zero :
  Spotify.seconds (PDict [("duration_ms", PInt 210999)]) = Ok 210%Z /\
  Spotify.seconds (PDict [("duration_ms", PInt (-1500))]) = Ok (-1)%Z /\
  Spotify.seconds (PDict [("duration_ms", PBool true)]) = Ok 0%Z.
Proof. repeat split; vm_compute; reflexivity. Qed.

Example int_of_str_examples :
  int_of_str " 16384 " = Ok 16384%Z /\ int_of_str "-1_000" = Ok (-1000)%Z /\
  int_of_str "007" = Ok 7%Z /\
  (exists e, int_of_str "" = Raise e) /\ (exists e, int_of_str "1__0" = Raise e) /\
  (exists e, int_of_str "12a" = Raise e).
Proof. repeat split; try (vm_compute; reflexivity); eexists; vm_compute; reflexivity. Qed.

(** [int()] skips less whitespace than [str.strip] removes, and refuses a
    literal of more than 4300 digits. *)
Example int_of_str_limits :
  (exists e, int_of_str ("16384" ++ String (ascii_of_nat 31) "") = Raise e) /\
  int_of_str Scenario2.long_number = Raise (Exn ValueError (msg_int_limit 4301)) /\
  msg_int_limit 4301 =
    "Exceeds the limit (4300 digits) for integer string conversion: value has 4301 digits; use sys.set_int_max_str_digits() to increase the limit" /\
  (exists v, int_of_str (string_of_list_ascii (repeat "7"%char (Z.to_nat 4300))) = Ok v).
Proof.
  split; [eexists; reflexivity |].
  split; [vm_compute; reflexivity |].
  split; [reflexivity |].
  vm_compute. eexists. reflexivity.
Qed.

Example dirname_examples :
  map Audiomack.dirname ["a/b/c.mp3"; "c.mp3"; "/c.mp3"; "//c"; "a//b"; "a/b/"; ""]
  = ["a/b"; ""; "/"; "//"; "a"; "a/b"; ""].
Proof. vm_compute. reflexivity. Qed.

Example json_ld_extension :
  outcome (Audiomack.extract_info Scenario.song_world Scenario.song_url)
    = Ok Scenario.song_record.
Proof. vm_compute. reflexivity. Qed.

(** ** Running the request monad *)

Lemma outcome_bind {A B} (m : M A) (k : A -> M B) (tr : list request) :
  fst (bind m k tr) =
  match fst (m tr) with
  | Ok a => fst (k a (snd (m tr)))
  | Raise e => Raise e
  end.
Proof.
  unfold bind. destruct (m tr) as [[a | e] tr']; reflexivity.
Qed.

Lemma outcome_lift {A} (r : result A) (tr : list request) : fst (lift r tr) = r.
Proof. reflexivity. Qed.

(** ** The format list of the HTML extractor *)

Lemma str_eqb_iff (s : string) (v : pyval) : str_eqb (PStr s) v = true <-> v = PStr s.
Proof.
  destruct v; simpl; try (split; [discriminate | intros H; discriminate H]).
  rewrite String.eqb_eq. split; intros H.
  - now subst.
  - now inversion H.
Qed.

Lemma not_seen_not_in (u : pyval) (seen : list pyval) :
  is_str u = true -> existsb (str_eqb u) seen = false -> ~ In u seen.
Proof.
  intros Hs Hx Hin. destruct u; try discriminate Hs.
  assert (existsb (str_eqb (PStr s)) seen = true) as E.
  { apply existsb_exists. exists (PStr s). split; [assumption | now apply str_eqb_iff]. }
  congruence.
Qed.

Lemma keep_new_url_invariant (st : list pyval * list format_entry) (f : format_entry) :
  str_url f -> kept_distinct st -> kept_distinct (Audiomack.keep_new_url st f).
Proof.
  intros Hf [Hnd Hin]. destruct st as [seen fs]. unfold Audiomack.keep_new_url.
  destruct (truthy (url f) && negb (existsb (str_eqb (url f)) seen)) eqn:E.
  - apply andb_true_iff in E as [_ E]. apply negb_true_iff in E.
    pose proof (not_seen_not_in _ _ Hf E) as Hnew.
    split; simpl in *.
    + rewrite map_app. simpl. apply NoDup_app.
      * assumption.
      * constructor; [intros [] | constructor].
      * intros a Ha [Hb | []]. subst a. apply Hnew. now apply Hin.
    + rewrite map_app. simpl. intros a Ha. apply in_app_or in Ha as [Ha | [Ha | []]].
      * right. now apply Hin.
      * now left.
  - now split.
Qed.

Lemma fold_keep_new_url (l : list format_entry) :
  Forall str_url l ->
  forall st, kept_distinct st -> kept_distinct (fold_left Audiomack.keep_new_url l st).
Proof.
  induction 1 as [| f l Hf _ IH]; intros st Hst; simpl.
  - assumption.
  - apply IH. now apply keep_new_url_invariant.
Qed.

Lemma dedup_formats_distinct (l : list format_entry) :
  Forall str_url l -> distinct_urls (Audiomack.dedup_formats l).
Proof.
  intros Hl. unfold distinct_urls, Info.urls, Audiomack.dedup_formats.
  apply NoDup_filter.
  apply (fold_keep_new_url l Hl ([], [])).
  split; simpl; [constructor | intros a []].
Qed.

Lemma rbind_ok {A B} (r : result A) (k : A -> result B) (b : B) :
  rbind r k = Ok b -> exists a, r = Ok a /\ k a = Ok b.
Proof.
  destruct r as [a | e]; simpl; intros H; [now exists a | discriminate H].
Qed.

(** Splits a hypothesis [H : (let* x := r in k) = Ok b] into [r = Ok x] and
    [k x = Ok b], as long as it has that shape. *)
Ltac ok_steps H :=
  repeat (let x := fresh "x" in
          let Hx := fresh "Hx" in
          apply rbind_ok in H as (x & Hx & H)).

Lemma lower_of_str (v : pyval) (s : string) : lower_of v = Ok s -> is_str v = true.
Proof. destruct v; simpl; intros H; try discriminate H; reflexivity. Qed.

Lemma from_json_ld_formats (json_ld : pyval) (i i' : info) :
  Audiomack.from_json_ld json_ld i = Ok i' ->
  Forall str_url (formats i) -> Forall str_url (formats i').
Proof.
  unfold Audiomack.from_json_ld. intros H Hi.
  destruct (truthy json_ld); [| now inversion H; subst].
  ok_steps H.
  assert (formats x4 = formats i) as E.
  { destruct (is_dict x3).
    - ok_steps Hx4. inversion Hx4; reflexivity.
    - destruct (is_str x3); inversion Hx4; reflexivity. }
  destruct (is_dict x5).
  - ok_steps H. destruct (truthy x7).
    + ok_steps H. inversion H; subst i'. simpl. rewrite E.
      apply Forall_app. split; [assumption |].
      constructor; [| constructor]. unfold str_url. simpl.
      now apply lower_of_str in Hx8.
    + inversion H; subst i'. now rewrite E.
  - inversion H; subst i'. now rewrite E.
Qed.

Lemma with_duration_formats (text : string) (i i' : info) :
  Audiomack.with_duration text i = Ok i' -> formats i' = formats i.
Proof.
  unfold Audiomack.with_duration. intros H.
  destruct (search Audiomack.duration_re text).
  - ok_steps H. now inversion H.
  - now inversion H.
Qed.

Lemma with_title_formats (w : World) (u : string) (i i' : info) :
  Audiomack.with_title w u i = Ok i' -> formats i' = formats i.
Proof.
  unfold Audiomack.with_title. intros H.
  destruct (truthy (title i)).
  - now inversion H.
  - ok_steps H. now inversion H.
Qed.

Lemma heuristics_formats (json_ld : pyval) (text : string) (i : info) :
  Audiomack.heuristics json_ld text = Ok i -> distinct_urls (formats i).
Proof.
  unfold Audiomack.heuristics. intros H. ok_steps H.
  apply with_duration_formats in H. rewrite H. simpl.
  apply dedup_formats_distinct. apply Forall_app. split.
  - apply (from_json_ld_formats _ _ _ Hx). constructor.
  - apply Forall_forall. intros f Hf. apply in_map_iff in Hf as (u & <- & _).
    reflexivity.
Qed.

Lemma fetch_ok (w : World) (u : string) (resp : response) (tr : list request) :
  send w (Get u [] DefaultHeaders false 15) = Ok resp ->
  Audiomack.fetch w u tr = (Ok resp, (tr ++ [Get u [] DefaultHeaders false 15])%list).
Proof. intros Hs. unfold Audiomack.fetch, request_. now rewrite Hs. Qed.

Lemma fetch_raise (w : World) (u : string) (e : exn) (tr : list request) :
  send w (Get u [] DefaultHeaders false 15) = Raise e ->
  exists e', fst (Audiomack.fetch w u tr) = Raise e'.
Proof.
  intros Hs. unfold Audiomack.fetch, request_. rewrite Hs.
  destruct (caught_by e Timeout); [eexists; reflexivity |].
  destruct (caught_by e RequestException); eexists; reflexivity.
Qed.

(** What [extract_info] comes to once the page has been fetched. *)
Lemma audiomack_extract_info_fetched (w : World) (u : string) (resp : response) :
  send w (Get u [] DefaultHeaders false 15) = Ok resp ->
  outcome (Audiomack.extract_info w u) =
  (let* _ := Audiomack.check_status resp in
   let* i := Audiomack.scrape w (text resp) in
   Audiomack.with_title w u i).
Proof.
  intros Hs. unfold outcome, run, Audiomack.extract_info.
  rewrite outcome_bind, (fetch_ok _ _ _ _ Hs). simpl.
  rewrite outcome_bind. simpl.
  destruct (Audiomack.check_status resp); reflexivity.
Qed.

(** A record is returned only for a fetched page with status 200. *)
Lemma audiomack_extract_info_ok (w : World) (u : string) (r : info) :
  outcome (Audiomack.extract_info w u) = Ok r ->
  exists resp i,
    send w (Get u [] DefaultHeaders false 15) = Ok resp /\
    status_code resp = 200%Z /\
    Audiomack.scrape w (text resp) = Ok i /\
    Audiomack.with_title w u i = Ok r.
Proof.
  intros H.
  destruct (send w (Get u [] DefaultHeaders false 15)) as [resp | e] eqn:Hs.
  - rewrite (audiomack_extract_info_fetched _ _ _ Hs) in H.
    apply rbind_ok in H as ([] & Hc & H). apply rbind_ok in H as (i & Hi & H).
    exists resp, i. repeat split; try assumption.
    unfold Audiomack.check_status in Hc.
    destruct (status_code resp =? 403)%Z; [discriminate Hc |].
    destruct (status_code resp =? 404)%Z; [discriminate Hc |].
    destruct (status_code resp =? 200)%Z eqn:E; [| discriminate Hc].
    now apply Z.eqb_eq.
  - exfalso. revert H. unfold outcome, run, Audiomack.extract_info.
    rewrite outcome_bind. destruct (fetch_raise w u e [] Hs) as [e' ->].
    discriminate.
Qed.

Lemma audiomack_formats_distinct (w : World) (u : string) (r : info) :
  outcome (Audiomack.extract_info w u) = Ok r -> distinct_urls (formats r).
Proof.
  intros H. apply audiomack_extract_info_ok in H as (resp & i & _ & _ & Hi & Hr).
  rewrite (with_title_formats _ _ _ _ Hr).
  exact (heuristics_formats _ _ _ Hi).
Qed.

(** ** The flow of the vendor client *)

Lemma caught_by_Exception (e : exn) : caught_by e Exception = true.
Proof. reflexivity. Qed.

(** The outcome of a resource GET does not depend on the requests sent before. *)
Lemma resource_outcome (w : World) (endpoint id : string) (h : headers)
  (mapping : pyval -> info -> result info) (i : info) (tr : list request) :
  fst (Spotify.resource w endpoint id h mapping i tr) =
  (let* resp := send w (Get (Spotify.SPOTIFY_API_BASE ++ "/" ++ endpoint ++ "/" ++ id)
                          [] h false 10) in
   if negb (status_code resp =? 200)%Z
   then raise Exception (Spotify.msg_api_error resp)
   else let* data := json resp in mapping data i).
Proof.
  unfold Spotify.resource. rewrite outcome_bind. unfold request_ at 1. simpl fst.
  destruct (send w _) as [resp | e]; [| reflexivity]. simpl.
  destruct (negb (status_code resp =? 200)%Z); reflexivity.
Qed.

Lemma oembed_outcome (w : World) (u : string) (i : info) (tr : list request) :
  fst (Spotify.oembed w u i tr) =
  match fst (Spotify.oembed_lookup w u i tr) with
  | Ok r => Ok r
  | Raise oe => raise Exception (Spotify.msg_fallback_failed ++ str_exn oe)
  end.
Proof.
  unfold Spotify.oembed, try_except.
  destruct (Spotify.oembed_lookup w u i tr) as [[r | oe] tr']; reflexivity.
Qed.

(** What [extract_info] comes to for a URL of the vendor's shape. *)
Lemma spotify_extract_info_parsed (w : World) (u typ id : string) :
  Spotify._parse_spotify_url w u = (Some typ, Some id) ->
  is_empty typ = false -> is_empty id = false ->
  outcome (Spotify.extract_info w u) =
  match outcome (Spotify._get_auth_headers w) with
  | Ok h => fst (Spotify.dispatch w typ id h Info.empty (sent (Spotify._get_auth_headers w)))
  | Raise e => fst (Spotify.oembed w u Info.empty (sent (Spotify._get_auth_headers w)))
  end.
Proof.
  intros Hp Ht Hi. unfold outcome, sent, run, Spotify.extract_info.
  rewrite Hp, Ht, Hi. cbn [orb]. cbv iota.
  rewrite outcome_bind. unfold Spotify.attempt.
  destruct (Spotify._get_auth_headers w []) as [[h | e] tr']; reflexivity.
Qed.

Lemma with_first_image_formats (images : pyval) (i i' : info) :
  Spotify.with_first_image images i = Ok i' -> formats i' = formats i.
Proof.
  unfold Spotify.with_first_image. intros H. destruct (truthy images).
  - ok_steps H. now inversion H.
  - now inversion H.
Qed.

Lemma album_image_formats (data : pyval) (i i' : info) :
  Spotify.album_image data i = Ok i' -> formats i' = formats i.
Proof.
  unfold Spotify.album_image. intros H. ok_steps H.
  now apply with_first_image_formats in H.
Qed.

(** A track record has no format entry, or the preview alone. *)
Lemma track_info_formats (data : pyval) (r : info) :
  Spotify.track_info data Info.empty = Ok r ->
  formats r = [] \/
  exists p, truthy p = true /\ formats r = [Format (PStr "preview") (PStr "mp3") p].
Proof.
  unfold Spotify.track_info. intros H. ok_steps H.
  match goal with
  | Hi : Spotify.album_image _ _ = Ok ?i |- _ =>
      apply album_image_formats in Hi; simpl in Hi;
      match type of H with
      | (if truthy ?p then _ else _) = _ =>
          destruct (truthy p) eqn:E; inversion H; subst r; simpl; rewrite Hi;
          [right; now exists p | now left]
      end
  end.
Qed.

Lemma oembed_lookup_formats (w : World) (u : string) (r : info) (tr : list request) :
  fst (Spotify.oembed_lookup w u Info.empty tr) = Ok r ->
  duration r = PNone /\ formats r = [].
Proof.
  unfold Spotify.oembed_lookup. rewrite outcome_bind. unfold request_ at 1. simpl fst.
  destruct (send w _) as [resp | e]; [| discriminate]. simpl snd.
  destruct (status_code resp =? 200)%Z; [| discriminate].
  rewrite outcome_lift. intros H. ok_steps H. inversion H. now split.
Qed.

Lemma at_most_one_distinct (l : list format_entry) :
  (length l <= 1)%nat -> distinct_urls l.
Proof.
  unfold distinct_urls, Info.urls.
  destruct l as [| f [| g l]]; simpl; intros H; try lia.
  - constructor.
  - destruct (url f); repeat constructor; intros [].
Qed.

(** A record is returned only for a URL of the vendor's shape. *)
Lemma spotify_extract_info_ok (w : World) (u : string) (r : info) :
  outcome (Spotify.extract_info w u) = Ok r ->
  exists typ id,
    Spotify._parse_spotify_url w u = (Some typ, Some id) /\
    is_empty typ = false /\ is_empty id = false.
Proof.
  unfold outcome, run, Spotify.extract_info.
  destruct (Spotify._parse_spotify_url w u) as [[typ |] [id |]]; try discriminate.
  destruct (is_empty typ) eqn:Et; [discriminate |].
  destruct (is_empty id) eqn:Ei; [discriminate |].
  intros _. now exists typ, id.
Qed.

Lemma dispatch_track (w : World) (id : string) (h : headers) (tr : list request) (r : info) :
  fst (Spotify.dispatch w "track" id h Info.empty tr) = Ok r ->
  exists data, Spotify.track_info data Info.empty = Ok r.
Proof.
  unfold Spotify.dispatch. rewrite String.eqb_refl.
  rewrite resource_outcome. intros H.
  apply rbind_ok in H as (resp & _ & H).
  destruct (negb (status_code resp =? 200)%Z); [discriminate H |].
  apply rbind_ok in H as (data & _ & H). now exists data.
Qed.

(** ** C1 *)

(** C1, the claim as stated fails: for a playlist that lists one track twice,
    the vendor client returns a record whose [formats] holds the same preview
    url twice. *)
Lemma playlist_repeats_url :
  outcome (Spotify.extract_info Scenario.playlist_world Scenario.playlist_url)
    = Ok Scenario.playlist_record /\
  ~ distinct_urls (formats Scenario.playlist_record).
Proof.
  split.
  - vm_compute. reflexivity.
  - unfold distinct_urls. simpl. intros H. inversion H as [| x l Hin _]; subst.
    apply Hin. now left.
Qed.

(** C1 (amended): every record the HTML extractor returns, and every record
    the vendor client returns for a track or through the public embed
    fallback, has no two format entries with the same non-null url. *)
Theorem formats_distinct_urls (w : World) (u : string) (r : info) :
  (outcome (Audiomack.extract_info w u) = Ok r -> distinct_urls (formats r)) /\
  (outcome (Spotify.extract_info w u) = Ok r ->
   fst (Spotify._parse_spotify_url w u) = Some "track" \/
   (exists e, outcome (Spotify._get_auth_headers w) = Raise e) ->
   distinct_urls (formats r)).
Proof.
  split.
  - apply audiomack_formats_distinct.
  - intros H Hcase. apply at_most_one_distinct.
    destruct (spotify_extract_info_ok _ _ _ H) as (typ & id & Hp & Ht & Hi).
    rewrite (spotify_extract_info_parsed _ _ _ _ Hp Ht Hi) in H.
    destruct (outcome (Spotify._get_auth_headers w)) as [h | e] eqn:Ha.
    + destruct Hcase as [Htrack | [e He]]; [| discriminate He].
      rewrite Hp in Htrack. simpl in Htrack. inversion Htrack; subst typ.
      apply dispatch_track in H as [data H].
      destruct (track_info_formats _ _ H) as [-> | (p & _ & ->)]; simpl; lia.
    + rewrite oembed_outcome in H.
      destruct (fst (Spotify.oembed_lookup w u Info.empty _)) as [r' | oe] eqn:Ho;
        [| discriminate H].
      inversion H; subst r'.
      apply oembed_lookup_formats in Ho as [_ ->]. simpl. lia.
Qed.

Lemma formats_distinct_urls_witness :
  distinct_urls (formats Scenario.song_record) /\
  distinct_urls (formats Scenario.track_record).
Proof.
  split.
  - apply (proj1 (formats_distinct_urls Scenario.song_world Scenario.song_url
                    Scenario.song_record)).
    vm_compute. reflexivity.
  - apply (proj2 (formats_distinct_urls Scenario.track_world Scenario.track_url
                    Scenario.track_record)).
    + vm_compute. reflexivity.
    + left. vm_compute. reflexivity.
Defined.

(** ** The streaming downloader *)

Arguments Audiomack.percent : simpl never.

Lemma length_append (a b : string) :
  String.length (a ++ b) = (String.length a + String.length b)%nat.
Proof. induction a as [| c a IH]; simpl; [reflexivity | now rewrite IH]. Qed.

Lemma append_assoc (a b c : string) : ((a ++ b) ++ c = a ++ (b ++ c))%string.
Proof. induction a as [| x a IH]; simpl; [reflexivity | now rewrite IH]. Qed.

Lemma append_empty_r (a : string) : (a ++ "" = a)%string.
Proof. induction a as [| x a IH]; simpl; [reflexivity | now rewrite IH]. Qed.

Lemma is_empty_length (s : string) : is_empty s = true <-> String.length s = 0%nat.
Proof. destruct s; simpl; split; intros H; try reflexivity; discriminate H. Qed.

Lemma percent_no_total (d : Z) : Audiomack.percent d 0 = Ok 0%Z.
Proof. reflexivity. Qed.

(** One turn of the loop on a chunk that is not empty and gets written. *)
Lemma receive_chunk (w : World) (cb : bool) (total : Z) (chunk : string)
  (more : list string) (n : nat) (st : Audiomack.progress) :
  is_empty chunk = false -> write w n chunk = None ->
  Audiomack.receive w cb total (chunk :: more) n st =
  let d := (Audiomack.downloaded st + Z.of_nat (String.length chunk))%Z in
  let bytes' := (Audiomack.written st ++ chunk)%string in
  if cb then
    match Audiomack.percent d total with
    | Raise e => (Raise e, Audiomack.Progress d bytes' (Audiomack.calls st))
    | Ok pc =>
        Audiomack.receive w cb total more (S n)
          (Audiomack.Progress d bytes'
             (Audiomack.calls st ++
                [Audiomack.Event "downloading" d total pc
                   (Some (speed_at w n d))])%list)
    end
  else Audiomack.receive w cb total more (S n)
         (Audiomack.Progress d bytes' (Audiomack.calls st)).
Proof. intros He Hw. simpl. rewrite He, Hw. reflexivity. Qed.

(** Without a total, a loop that can write runs to the end of the stream:
    it counts and writes every byte and reports percentage 0 each time. *)
Lemma receive_no_total (w : World) (cb : bool) (cs : list string) :
  (forall n chunk, write w n chunk = None) ->
  forall n st, exists evs,
    Audiomack.receive w cb 0 cs n st =
      (Ok tt, Audiomack.Progress
                (Audiomack.downloaded st + Z.of_nat (String.length (bytes cs)))
                (Audiomack.written st ++ bytes cs)
                (Audiomack.calls st ++ evs)%list) /\
    Forall reports_zero evs /\ (cb = false -> evs = []).
Proof.
  intros Hw. induction cs as [| chunk more IH]; intros n st.
  - exists []. simpl. rewrite Z.add_0_r, append_empty_r, app_nil_r.
    destruct st; repeat split; constructor.
  - destruct (is_empty chunk) eqn:He.
    + destruct (IH (S n) st) as (evs & E & Hevs). exists evs. split; [| assumption].
      simpl. rewrite He, E. destruct chunk; [reflexivity | discriminate He].
    + rewrite (receive_chunk _ _ _ _ _ _ _ He (Hw n chunk)). cbv zeta.
      destruct cb.
      * rewrite percent_no_total.
        match goal with
        | |- context [Audiomack.receive w true 0 more (S n) ?st'] =>
            destruct (IH (S n) st') as (evs & E & Hevs); rewrite E
        end.
        simpl. eexists. split; [| split].
        -- rewrite length_append, Nat2Z.inj_add, Z.add_assoc, append_assoc, <- app_assoc.
           reflexivity.
        -- constructor; [now repeat split | apply Hevs].
        -- discriminate.
      * match goal with
        | |- context [Audiomack.receive w false 0 more (S n) ?st'] =>
            destruct (IH (S n) st') as (evs & E & Hevs); rewrite E
        end.
        simpl. exists evs. split; [| assumption].
        now rewrite length_append, Nat2Z.inj_add, Z.add_assoc, append_assoc.
Qed.

(** Whatever happens to the loop, its reports carry percentage 0 when there
    is no total. *)
Lemma receive_reports_zero (w : World) (cb : bool) (cs : list string) :
  forall n st, Forall reports_zero (Audiomack.calls st) ->
  Forall reports_zero (Audiomack.calls (snd (Audiomack.receive w cb 0 cs n st))).
Proof.
  induction cs as [| chunk more IH]; intros n st Hst; simpl.
  - assumption.
  - destruct (is_empty chunk); [now apply IH |].
    destruct (write w n chunk); [assumption |].
    destruct cb; apply IH; simpl; [| assumption].
    apply Forall_app. split; [assumption |]. constructor; [now repeat split | constructor].
Qed.

Lemma reports_zero_while_downloading (evs : list Audiomack.event) :
  Forall reports_zero evs -> Forall zero_while_downloading evs.
Proof.
  apply Forall_impl. intros e (_ & H & _) _. exact H.
Qed.

(** The reports of the [try] block when there is no total. *)
Lemma save_reports_zero (w : World) (resp : response) (p : string) (cb : bool) :
  Forall zero_while_downloading
    (Audiomack.events (snd (Audiomack.save w resp p cb 0))).
Proof.
  unfold Audiomack.save. destruct (open_wb w p); [constructor |].
  pose proof (receive_reports_zero w cb (chunks resp) 0 (Audiomack.Progress 0 "" [])
                (Forall_nil _)) as H.
  destruct (Audiomack.receive w cb 0 (chunks resp) 0 _) as [[[] | e] st];
    simpl in H |- *; apply reports_zero_while_downloading in H; try assumption.
  destruct (stream_error resp); simpl; [assumption |].
  destruct cb; [| assumption].
  apply Forall_app. split; [assumption |].
  constructor; [| constructor]. intros Hs. discriminate Hs.
Qed.

(** The download once the response has arrived with status 200. *)
Lemma download_direct_streaming (w : World) (u p : string) (cb : bool) (timeout : Z)
  (resp : response) :
  send w (Get u [] DefaultHeaders true timeout) = Ok resp ->
  status_code resp = 200%Z ->
  Audiomack.download_direct w u p cb timeout =
  match Audiomack.total_of resp with
  | Raise e => (Raise e, Audiomack.Effects None [])
  | Ok total =>
      let dir := Audiomack.dirname p in
      match makedirs w (if is_empty dir then "." else dir) with
      | Some e => (Raise e, Audiomack.Effects None [])
      | None => Audiomack.save w resp p cb total
      end
  end.
Proof.
  intros Hs H200. unfold Audiomack.download_direct. rewrite Hs, H200. reflexivity.
Qed.

(** ** C8 *)

(** C8, the claim as stated fails: with no Content-Length header the last call
    of the progress callback, the one with status finished, reports
    percentage 100. *)
Lemma finished_report_is_100 :
  Audiomack.download_direct Scenario.short_world Scenario.audio_url
    "downloads/night-drive.mp3" true 15 =
  (Ok tt,
   Audiomack.Effects (Some "ID3")
     [Audiomack.Event "downloading" 3 0 0 (Some 0%Z);
      Audiomack.Event "finished" 3 0 100 None]) /\
  content_length (Scenario.stream None ["ID3"]) = None /\
  ~ Forall (fun e => Audiomack.percentage e = 0%Z)
      [Audiomack.Event "downloading" 3 0 0 (Some 0%Z);
       Audiomack.Event "finished" 3 0 100 None].
Proof.
  repeat split.
  intros H. inversion H as [| ? ? _ H']; subst. inversion H' as [| ? ? E _]; subst.
  discriminate E.
Qed.

(** C8 (amended): when the response has no Content-Length header, every
    report the progress callback gets while the download runs (status
    downloading) carries percentage 0; and when the response has status 200,
    the stream ends without error and the disk accepts the writes, the
    download completes, the file holds exactly the bytes of the stream, and
    the callback, if one was passed, is called a last time with status
    finished, the number of bytes of the stream as downloaded_bytes, and
    percentage 100. *)
Theorem no_content_length_progress (w : World) (u p : string) (cb : bool)
  (timeout : Z) (resp : response) :
  send w (Get u [] DefaultHeaders true timeout) = Ok resp ->
  content_length resp = None ->
  Forall zero_while_downloading
    (Audiomack.events (snd (Audiomack.download_direct w u p cb timeout))) /\
  (status_code resp = 200%Z -> stream_error resp = None -> disk_accepts w p ->
   exists reports,
     Forall reports_zero reports /\
     Audiomack.download_direct w u p cb timeout =
     (Ok tt,
      Audiomack.Effects (Some (bytes (chunks resp)))
        (if cb
         then reports ++
              [Audiomack.Event "finished"
                 (size (bytes (chunks resp))) 0 100 None]
         else [])%list)).
Proof.
  intros Hs Hcl. split.
  - unfold Audiomack.download_direct. rewrite Hs.
    destruct (status_code resp =? 403)%Z; [constructor |].
    destruct (status_code resp =? 404)%Z; [constructor |].
    destruct (negb (status_code resp =? 200)%Z); [constructor |].
    unfold Audiomack.total_of. rewrite Hcl.
    destruct (makedirs w _); [constructor |].
    apply save_reports_zero.
  - intros H200 Hend (Hmk & Hop & Hwr).
    rewrite (download_direct_streaming _ _ _ _ _ _ Hs H200).
    unfold Audiomack.total_of. rewrite Hcl. cbv zeta. rewrite Hmk.
    unfold Audiomack.save. rewrite Hop.
    destruct (receive_no_total w cb (chunks resp) Hwr 0 (Audiomack.Progress 0 "" []))
      as (evs & E & Hevs & Hnone).
    rewrite E, Hend. simpl. exists evs. split; [assumption |].
    destruct cb; [reflexivity |]. now rewrite (Hnone eq_refl).
Qed.

Lemma no_content_length_progress_witness :
  Forall zero_while_downloading
    (Audiomack.events
       (snd (Audiomack.download_direct Scenario.short_world Scenario.audio_url
               "downloads/night-drive.mp3" true 15))) /\
  exists reports,
    Forall reports_zero reports /\
    Audiomack.download_direct Scenario.short_world Scenario.audio_url
      "downloads/night-drive.mp3" true 15 =
    (Ok tt,
     Audiomack.Effects (Some "ID3")
       (reports ++ [Audiomack.Event "finished" 3 0 100 None])%list).
Proof.
  destruct (no_content_length_progress Scenario.short_world Scenario.audio_url
              "downloads/night-drive.mp3" true 15 (Scenario.stream None ["ID3"])
              eq_refl eq_refl) as [Hzero Hdone].
  split; [exact Hzero |].
  apply Hdone; [reflexivity | reflexivity |].
  repeat split.
Defined.

(** ** C2 *)

Lemma bytes_size_chunks (n : Z) (cs : list string) :
  Forall (fun c => size c = n) cs ->
  size (bytes cs) = (n * Z.of_nat (length cs))%Z.
Proof.
  unfold size. induction 1 as [| c cs Hc _ IH]; simpl bytes; simpl length.
  - simpl. lia.
  - rewrite length_append. lia.
Qed.

Lemma percent_8192_of_16384 : Audiomack.percent 8192 16384 = Ok 50%Z.
Proof. vm_compute. reflexivity. Qed.

Lemma percent_16384_of_16384 : Audiomack.percent 16384 16384 = Ok 100%Z.
Proof. vm_compute. reflexivity. Qed.

Lemma total_of_16384 (resp : response) :
  content_length resp = Some "16384" -> Audiomack.total_of resp = Ok 16384%Z.
Proof. intros H. unfold Audiomack.total_of. rewrite H. vm_compute. reflexivity. Qed.

(** C2: a response of 16384 bytes that arrives in chunks of 8192 bytes with
    Content-Length 16384, on a disk that accepts the writes: the progress
    callback is called with percentage 50, then with percentage 100, then a
    last time with status finished; the destination file holds the bytes of
    the stream, 16384 of them. *)
Theorem two_chunk_download (w : World) (u p : string) (timeout : Z) (resp : response) :
  send w (Get u [] DefaultHeaders true timeout) = Ok resp ->
  status_code resp = 200%Z ->
  content_length resp = Some "16384" ->
  Forall (fun c => size c = 8192%Z) (chunks resp) ->
  size (bytes (chunks resp)) = 16384%Z ->
  stream_error resp = None ->
  disk_accepts w p ->
  exists content,
    Audiomack.download_direct w u p true timeout =
    (Ok tt,
     Audiomack.Effects (Some content)
       [Audiomack.Event "downloading" 8192 16384 50 (Some (speed_at w 0 8192));
        Audiomack.Event "downloading" 16384 16384 100 (Some (speed_at w 1 16384));
        Audiomack.Event "finished" 16384 16384 100 None]) /\
    content = bytes (chunks resp) /\
    size content = 16384%Z.
Proof.
  intros Hs H200 Hcl Hchunks Hlen Hend (Hmk & Hop & Hwr).
  exists (bytes (chunks resp)). split; [| now split].
  rewrite (download_direct_streaming _ _ _ _ _ _ Hs H200), (total_of_16384 _ Hcl).
  cbv zeta. rewrite Hmk. unfold Audiomack.save. rewrite Hop, Hend.
  pose proof (bytes_size_chunks _ _ Hchunks) as Hn. rewrite Hlen in Hn.
  destruct (chunks resp) as [| c1 [| c2 [| c3 cs]]]; simpl length in Hn; try lia.
  apply Forall_cons_iff in Hchunks as [H1 Hchunks].
  apply Forall_cons_iff in Hchunks as [H2 _].
  unfold size in H1, H2.
  assert (is_empty c1 = false) as E1 by (destruct c1; [discriminate H1 | reflexivity]).
  assert (is_empty c2 = false) as E2 by (destruct c2; [discriminate H2 | reflexivity]).
  rewrite (receive_chunk _ _ _ _ _ _ _ E1 (Hwr _ _)). cbv zeta.
  cbn [Audiomack.downloaded Audiomack.written Audiomack.calls].
  rewrite H1. change (0 + 8192)%Z with 8192%Z.
  rewrite percent_8192_of_16384.
  rewrite (receive_chunk _ _ _ _ _ _ _ E2 (Hwr _ _)). cbv zeta.
  cbn [Audiomack.downloaded Audiomack.written Audiomack.calls].
  rewrite H2. change (8192 + 8192)%Z with 16384%Z.
  rewrite percent_16384_of_16384.
  cbn [Audiomack.receive Audiomack.downloaded Audiomack.written Audiomack.calls
       bytes fold_right app String.append].
  now rewrite append_empty_r.
Qed.

Lemma two_chunk_download_witness :
  exists content,
    Audiomack.download_direct Scenario.two_chunk_world Scenario.audio_url
      "downloads/night-drive.mp3" true 15 =
    (Ok tt,
     Audiomack.Effects (Some content)
       [Audiomack.Event "downloading" 8192 16384 50 (Some 0%Z);
        Audiomack.Event "downloading" 16384 16384 100 (Some 0%Z);
        Audiomack.Event "finished" 16384 16384 100 None]) /\
    content = bytes [Scenario.chunk_8k; Scenario.chunk_8k] /\
    size content = 16384%Z.
Proof.
  apply (two_chunk_download Scenario.two_chunk_world Scenario.audio_url
           "downloads/night-drive.mp3" 15
           (Scenario.stream (Some "16384") [Scenario.chunk_8k; Scenario.chunk_8k])).
  - reflexivity.
  - reflexivity.
  - reflexivity.
  - repeat constructor; vm_compute; reflexivity.
  - vm_compute. reflexivity.
  - reflexivity.
  - repeat split.
Defined.

(** ** C6 *)

Lemma rbind_raise {A B} (r : result A) (k : A -> result B) (e : exn) :
  rbind r k = Raise e -> r = Raise e \/ exists a, r = Ok a /\ k a = Raise e.
Proof.
  destruct r as [a | e']; simpl; intros H; [right; exists a; now split | left; now inversion H].
Qed.

(** *** The classes of the errors the built-ins raise *)

Lemma get_default_raises (v : pyval) (k : string) (d : pyval) (e : exn) :
  get_default v k d = Raise e -> exn_cls e <> Exception.
Proof. destruct v; simpl; intros H; inversion H; discriminate. Qed.

Lemma get_raises (v : pyval) (k : string) (e : exn) :
  get v k = Raise e -> exn_cls e <> Exception.
Proof. apply get_default_raises. Qed.

Lemma item0_raises (v : pyval) (e : exn) : item0 v = Raise e -> exn_cls e <> Exception.
Proof.
  destruct v as [| | | | [| c s] | [| x l] |]; simpl; intros H; inversion H; discriminate.
Qed.

Lemma lower_of_raises (v : pyval) (e : exn) :
  lower_of v = Raise e -> exn_cls e <> Exception.
Proof. destruct v; simpl; intros H; inversion H; discriminate. Qed.

Lemma split_of_raises (v : pyval) (c : ascii) (e : exn) :
  split_of v c = Raise e -> exn_cls e <> Exception.
Proof. destruct v; simpl; intros H; inversion H; discriminate. Qed.

Lemma int_of_str_raises (s : string) (e : exn) :
  int_of_str s = Raise e -> exn_cls e = ValueError.
Proof.
  unfold int_of_str.
  destruct (match strip_by is_int_space s with
            | String "-" t => (true, t)
            | String "+" t => (false, t)
            | _ => (false, strip_by is_int_space s)
            end) as [neg ds].
  destruct (digit_groups false ds); [| intros H; now inversion H].
  destruct (MAX_STR_DIGITS <? _)%Z; intros H; now inversion H.
Qed.

Lemma int_group_raises (m : match_obj) (n : nat) (e : exn) :
  Audiomack.int_group m n = Raise e -> exn_cls e = ValueError.
Proof.
  unfold Audiomack.int_group.
  destruct (group m n) as [s |]; [| discriminate].
  destruct (is_empty s); [discriminate | apply int_of_str_raises].
Qed.

Lemma with_duration_raises (text : string) (i : info) (e : exn) :
  Audiomack.with_duration text i = Raise e -> exn_cls e <> Exception.
Proof.
  unfold Audiomack.with_duration.
  destruct (search Audiomack.duration_re text) as [m |]; [| discriminate].
  intros H.
  apply rbind_raise in H as [H | (mins & _ & H)];
    [apply int_group_raises in H; rewrite H; discriminate |].
  apply rbind_raise in H as [H | (secs & _ & H)];
    [apply int_group_raises in H; rewrite H; discriminate | discriminate H].
Qed.

(** Follows a hypothesis [H : r = Raise e] down to the built-in that
    raised. *)
Ltac raise_steps H :=
  repeat first
    [ discriminate H
    | apply rbind_raise in H as [H | (? & _ & H)]
    | match type of H with
      | (if ?b then _ else _) = Raise _ => destruct b
      end ];
  try first
    [ exact (get_raises _ _ _ H)
    | exact (get_default_raises _ _ _ _ H)
    | exact (item0_raises _ _ H)
    | exact (lower_of_raises _ _ H)
    | exact (split_of_raises _ _ _ H) ].

Lemma from_json_ld_raises (json_ld : pyval) (i : info) (e : exn) :
  Audiomack.from_json_ld json_ld i = Raise e -> exn_cls e <> Exception.
Proof.
  unfold Audiomack.from_json_ld. intros H. raise_steps H.
Qed.

(** With status 200, what stops the extraction is an error of the
    interpreter or of [urlparse], never a bare [Exception]. *)
Lemma html_steps_raise (w : World) (u text : string) (e : exn) :
  (forall e, urlparse w u = Raise e -> exn_cls e <> Exception) ->
  (let* i := Audiomack.scrape w text in Audiomack.with_title w u i) = Raise e ->
  exn_cls e <> Exception.
Proof.
  intros Hparse H.
  apply rbind_raise in H as [H | (i & _ & H)].
  - unfold Audiomack.scrape, Audiomack.heuristics in H.
    apply rbind_raise in H as [H | (j & _ & H)].
    + exact (from_json_ld_raises _ _ _ H).
    + exact (with_duration_raises _ _ _ H).
  - unfold Audiomack.with_title in H.
    destruct (truthy (title i)); [discriminate H |].
    apply rbind_raise in H as [H | (parsed & _ & H)]; [| discriminate H].
    exact (Hparse _ H).
Qed.

(** What [extract_info] comes to when the page fetch raises. *)
Lemma audiomack_extract_info_unfetched (w : World) (u : string) (e : exn) :
  send w (Get u [] DefaultHeaders false 15) = Raise e ->
  outcome (Audiomack.extract_info w u) =
  if caught_by e Timeout
  then Raise (Exn Exception "Request timed out while accessing Audiomack track.")
  else if caught_by e RequestException
       then Raise (Exn Exception ("Failed to access Audiomack track: " ++ str_exn e))
       else Raise e.
Proof.
  intros Hs. unfold outcome, run, Audiomack.extract_info.
  rewrite outcome_bind. unfold Audiomack.fetch, request_. rewrite Hs.
  destruct (caught_by e Timeout); [reflexivity |].
  destruct (caught_by e RequestException); reflexivity.
Qed.

(** *** The messages *)

Lemma append_cancel_l (p a b : string) : p ++ a = p ++ b -> a = b.
Proof.
  induction p as [| c p IH]; simpl; intros H; [exact H |].
  inversion H. now apply IH.
Qed.

Lemma append_cancel_char (c : ascii) (a b : string) :
  a ++ String c "" = b ++ String c "" -> a = b.
Proof.
  revert b. induction a as [| x a IH]; intros [| y b]; simpl; intros H.
  - reflexivity.
  - inversion H. destruct b; discriminate.
  - inversion H. destruct a; discriminate.
  - inversion H. f_equal. now apply IH.
Qed.

Lemma str_of_Z_inj (a b : Z) : str_of_Z a = str_of_Z b -> a = b.
Proof.
  unfold str_of_Z. intros H.
  assert (Some (Z.to_int a) = Some (Z.to_int b)) as E
    by (rewrite <- (NilEmpty.isi (Z.to_int a)), <- (NilEmpty.isi (Z.to_int b));
        now rewrite H).
  inversion E as [E'].
  rewrite <- (DecimalZ.of_to a), <- (DecimalZ.of_to b). now rewrite E'.
Qed.

Lemma status_message_inj (a b : Z) :
  Audiomack.msg_status a = Audiomack.msg_status b -> a = b.
Proof.
  unfold Audiomack.msg_status. intros H.
  apply append_cancel_l, append_cancel_char in H. now apply str_of_Z_inj.
Qed.

(** C6: provided the libraries raise no bare [Exception] of their own,
    [extract_info] fails with the not-found message exactly when the page
    fetch is answered with status 404, with the access message exactly when
    it is answered with 403, and with the message that names the status [s]
    exactly when it is answered with a status [s] other than 200, 403 and
    404.  Each of the three is raised as an [Exception]; their messages
    are pairwise different. *)
Theorem page_fetch_errors (w : World) (u : string) :
  library_errors w u ->
  let out := outcome (Audiomack.extract_info w u) in
  let not_found := "Track not found. It may have been deleted or made private." in
  let denied :=
    "This track is not publicly accessible. It may be premium-only or region-restricted." in
  let unexpected s := "Failed to access Audiomack track (HTTP " ++ str_of_Z s ++ ")" in
  (out = Raise (Exn Exception not_found) <-> got_status w u 404) /\
  (out = Raise (Exn Exception denied) <-> got_status w u 403) /\
  (forall s, out = Raise (Exn Exception (unexpected s)) <->
             got_status w u s /\ s <> 200%Z /\ s <> 403%Z /\ s <> 404%Z) /\
  not_found <> denied /\
  (forall s, unexpected s <> not_found /\ unexpected s <> denied).
Proof.
  intros [Hsend Hparse] out not_found denied unexpected.
  assert (not_found <> denied) as Hnd by discriminate.
  assert (forall s, unexpected s <> not_found /\ unexpected s <> denied) as Hun
    by (intros s; split; discriminate).
  assert (forall a b, unexpected a = unexpected b -> a = b) as Hinj
    by (exact status_message_inj).
  assert (forall a b : string, @Raise info (Exn Exception a) = Raise (Exn Exception b) -> a = b)
    as Hmsg by (intros a b H; now inversion H).
  split; [| split; [| split; [| split; [exact Hnd | exact Hun]]]].
  all: destruct (send w (Get u [] DefaultHeaders false 15)) as [resp | e] eqn:Hs.
  all: try (
    assert (forall s, got_status w u s <-> status_code resp = s) as Hgot
      by (intros s; unfold got_status; rewrite Hs; split;
          [intros (r & Hr & <-); now inversion Hr | intros <-; now exists resp]);
    assert (out = (let* _ := Audiomack.check_status resp in
                   let* i := Audiomack.scrape w (text resp) in
                   Audiomack.with_title w u i)) as Hout
      by (apply audiomack_extract_info_fetched; exact Hs);
    assert (status_code resp = 200%Z ->
            forall m, out <> Raise (Exn Exception m)) as H200
      by (intros E m Hm; rewrite Hout in Hm; unfold Audiomack.check_status in Hm;
          rewrite E in Hm; simpl in Hm;
          apply (html_steps_raise _ _ _ _ Hparse) in Hm; now apply Hm);
    unfold Audiomack.check_status in Hout;
    fold not_found denied in Hout;
    change Audiomack.msg_not_found with not_found in Hout;
    change Audiomack.msg_forbidden with denied in Hout;
    change (Audiomack.msg_status (status_code resp))
      with (unexpected (status_code resp)) in Hout;
    destruct (Z.eqb_spec (status_code resp) 403) as [E403 | N403];
      [| destruct (Z.eqb_spec (status_code resp) 404) as [E404 | N404];
         [| destruct (Z.eqb_spec (status_code resp) 200) as [E200 | N200]]];
    try (specialize (H200 E200)); clear Hsend Hparse;
    simpl in Hout).
  all: try (
    assert (forall s, ~ got_status w u s) as Hnone
      by (intros s (r & Hr & _); rewrite Hs in Hr; discriminate Hr);
    assert (forall m, m = not_found \/ m = denied \/ (exists s, m = unexpected s) ->
                      out <> Raise (Exn Exception m)) as Hother
      by (intros m Hm Ho; unfold out in Ho;
          rewrite (audiomack_extract_info_unfetched _ _ _ Hs) in Ho;
          destruct (caught_by e Timeout);
          [apply Hmsg in Ho; destruct Hm as [-> | [-> | [s ->]]]; discriminate Ho |];
          destruct (caught_by e RequestException);
          [apply Hmsg in Ho; destruct Hm as [-> | [-> | [s ->]]]; discriminate Ho |];
          inversion Ho as [He]; apply (Hsend e eq_refl); now rewrite He)).
  (* the not-found message *)
  - rewrite Hgot, Hout. split; [intros H; apply Hmsg in H; congruence | lia].
  - rewrite Hgot, Hout. split; [intros _; exact E404 | reflexivity].
  - rewrite Hgot. split; [intros H; now apply H200 in H | lia].
  - rewrite Hgot, Hout. split; [intros H; apply Hmsg in H; now apply Hun in H | lia].
  - split; [intros H; apply Hother in H; [contradiction | now left]
           | intros H; now apply Hnone in H].
  (* the access message *)
  - rewrite Hgot, Hout. split; [intros _; exact E403 | reflexivity].
  - rewrite Hgot, Hout. split; [intros H; apply Hmsg in H; congruence | lia].
  - rewrite Hgot. split; [intros H; now apply H200 in H | lia].
  - rewrite Hgot, Hout. split; [intros H; apply Hmsg in H; now apply Hun in H | lia].
  - split; [intros H; apply Hother in H; [contradiction | right; now left]
           | intros H; now apply Hnone in H].
  (* the message that names the status *)
  - intros s. rewrite Hgot, Hout.
    split; [intros H; apply Hmsg in H; symmetry in H; now apply Hun in H | lia].
  - intros s. rewrite Hgot, Hout.
    split; [intros H; apply Hmsg in H; symmetry in H; now apply Hun in H | lia].
  - intros s. rewrite Hgot. split; [intros H; now apply H200 in H | lia].
  - intros s. rewrite Hgot, Hout. split.
    + intros H. apply Hmsg, Hinj in H. subst s. repeat split; assumption.
    + intros (<- & _). reflexivity.
  - intros s. split; [intros H; apply Hother in H; [contradiction | right; right; now exists s]
                     | intros (H & _); now apply Hnone in H].
Qed.

Lemma page_fetch_errors_witness :
  outcome (Audiomack.extract_info Scenario.gone_world Scenario.song_url)
    = Raise (Exn Exception "Track not found. It may have been deleted or made private.").
Proof.
  assert (library_errors Scenario.gone_world Scenario.song_url) as Hlib
    by (split; intros e H; discriminate H).
  destruct (page_fetch_errors Scenario.gone_world Scenario.song_url Hlib) as [H404 _].
  apply H404. exists (Scenario.page 404 "<html>Not Found</html>").
  split; reflexivity.
Defined.

(** C6, the claim as stated fails: the failure on a 404 answer is no error
    kind of its own but an instance of the generic [Exception], as are the
    failures on a 403 answer, on a 503 answer and on a timeout; only the
    message tells them apart. *)
Lemma not_found_error_is_generic :
  outcome (Audiomack.extract_info Scenario.gone_world Scenario.song_url)
    = Raise (Exn Exception "Track not found. It may have been deleted or made private.") /\
  outcome (Audiomack.extract_info Scenario2.denied_world Scenario.song_url)
    = Raise (Exn Exception
               "This track is not publicly accessible. It may be premium-only or region-restricted.") /\
  outcome (Audiomack.extract_info Scenario2.unavailable_world Scenario.song_url)
    = Raise (Exn Exception "Failed to access Audiomack track (HTTP 503)") /\
  outcome (Audiomack.extract_info Scenario2.stalled_world Scenario.song_url)
    = Raise (Exn Exception "Request timed out while accessing Audiomack track.") /\
  generic (Exn Exception "Track not found. It may have been deleted or made private.").
Proof.
  split; [reflexivity |]. split; [reflexivity |]. split; [reflexivity |].
  split; [reflexivity |].
  split; [reflexivity | intros e'; reflexivity].
Qed.

(** ** The title derived from the URL path *)

Lemma split_not_nil (c : ascii) (s : string) : split c s <> [].
Proof.
  destruct s as [| a s]; simpl; [discriminate |].
  destruct (Ascii.eqb a c); [discriminate |].
  destruct (split c s); discriminate.
Qed.

Lemma split_only_empty (c : ascii) (s : string) : split c s = [""] -> s = "".
Proof.
  destruct s as [| a s]; simpl; [reflexivity |].
  destruct (Ascii.eqb a c).
  - intros H. inversion H as [H']. now apply split_not_nil in H'.
  - destruct (split c s); discriminate.
Qed.

Lemma trim_nil_iff (l : list string) : trim l = [] <-> filter nonempty l = [].
Proof.
  induction l as [| x r IH]; simpl; [tauto |].
  unfold nonempty at 1.
  destruct (trim r) as [| y r'] eqn:E; destruct (is_empty x); simpl; split;
    try discriminate; try tauto.
  intros H. apply IH in H. discriminate H.
Qed.

(** Trimming keeps the last non-empty segment last. *)
Lemma last_trim (l : list string) (d : string) :
  last (trim l) d = last (filter nonempty l) d.
Proof.
  induction l as [| x r IH]; [reflexivity |].
  simpl trim. simpl filter. unfold nonempty at 1.
  destruct (trim r) as [| y r'] eqn:E.
  - pose proof (proj1 (trim_nil_iff r) E) as F. rewrite F.
    destruct (is_empty x); reflexivity.
  - assert (filter nonempty r <> []) as F.
    { intros F. apply trim_nil_iff in F. congruence. }
    change (last (x :: y :: r') d) with (last (y :: r') d). rewrite IH.
    destruct (is_empty x); simpl; [reflexivity |].
    destruct (filter nonempty r); [contradiction | reflexivity].
Qed.

Lemma split_cons (sep c : ascii) (t : string) :
  split sep (String c t) =
  if Ascii.eqb c sep then "" :: split sep t
  else match split sep t with
       | [] => [String c ""]
       | h :: r => String c h :: r
       end.
Proof. reflexivity. Qed.

Lemma rstrip_by_cons (f : ascii -> bool) (c : ascii) (t : string) :
  rstrip_by f (String c t) =
  if is_empty (rstrip_by f t) && f c then "" else String c (rstrip_by f t).
Proof. reflexivity. Qed.

Lemma trim_cons (x : string) (r : list string) :
  trim (x :: r) =
  match trim r with
  | [] => if is_empty x then [] else [x]
  | y :: r' => x :: y :: r'
  end.
Proof. reflexivity. Qed.

Lemma trim_not_only_empty (l : list string) : trim l <> [""].
Proof.
  destruct l as [| x r]; [discriminate |]. rewrite trim_cons.
  destruct (trim r); [| discriminate].
  destruct x; discriminate.
Qed.

(** Stripping the trailing slashes of a path trims its list of segments. *)
Lemma split_rstrip (s : string) :
  split "/" (rstrip_by (Ascii.eqb "/") s) =
  match trim (split "/" s) with
  | [] => [""]
  | l => l
  end.
Proof.
  induction s as [| c t IH]; [reflexivity |].
  rewrite rstrip_by_cons, (split_cons "/" c t), (Ascii.eqb_sym "/"%char c).
  destruct (Ascii.eqb c "/") eqn:Ec.
  - rewrite andb_true_r, trim_cons.
    destruct (trim (split "/" t)) as [| y r'] eqn:E.
    + apply split_only_empty in IH. rewrite IH. reflexivity.
    + destruct (rstrip_by (Ascii.eqb "/") t) as [| a t'] eqn:R.
      * exfalso. apply (trim_not_only_empty (split "/" t)).
        rewrite E. simpl in IH. now inversion IH.
      * cbn [is_empty]. rewrite split_cons, Ec, IH. reflexivity.
  - rewrite andb_false_r, split_cons, Ec, IH.
    destruct (split "/" t) as [| h r] eqn:Es; [now apply split_not_nil in Es |].
    rewrite !trim_cons.
    destruct (trim r) as [| y r'] eqn:E; [| reflexivity].
    destruct h; reflexivity.
Qed.

Lemma segments_lstrip (p : string) :
  segments (lstrip_by (Ascii.eqb "/") p) = segments p.
Proof.
  unfold segments. induction p as [| c t IH]; [reflexivity |].
  cbn [lstrip_by]. rewrite (Ascii.eqb_sym "/"%char c).
  destruct (Ascii.eqb c "/") eqn:Ec; [| reflexivity].
  rewrite IH, (split_cons "/" c t), Ec. reflexivity.
Qed.

Lemma last_rev_head (l : list string) (d : string) :
  last l d = match rev l with x :: _ => x | [] => d end.
Proof.
  induction l as [| x r IH] using rev_ind; [reflexivity |].
  rewrite last_last, rev_unit. reflexivity.
Qed.

(** The title the final check derives is the final non-empty segment of the
    path, or the placeholder when the path has none. *)
Lemma title_from_path_slug (p : string) : Audiomack.title_from_path p = slug p.
Proof.
  unfold Audiomack.title_from_path, slug, final_segment, strip_char, strip_by, last_item.
  rewrite split_rstrip.
  assert (forall l : list string,
             last (match trim l with [] => [""] | x :: r => x :: r end) "" = last (trim l) "")
    as Hdef by (intros l; destruct (trim l); reflexivity).
  rewrite Hdef, last_trim. fold (segments (lstrip_by (Ascii.eqb "/") p)).
  rewrite segments_lstrip, last_rev_head.
  destruct (rev (segments p)) as [| x r] eqn:E; [reflexivity |].
  assert (In x (segments p)) as Hin.
  { apply in_rev. rewrite E. now left. }
  apply filter_In in Hin as [_ Hin]. unfold nonempty in Hin.
  destruct (is_empty x); [discriminate Hin | reflexivity].
Qed.

Lemma title_from_path_not_empty (p : string) :
  is_empty (Audiomack.title_from_path p) = false.
Proof.
  unfold Audiomack.title_from_path.
  destruct (is_empty (last_item _ _)) eqn:E; [reflexivity | exact E].
Qed.

(** The final check of lines 129-131, case by case. *)
Lemma with_title_cases (w : World) (u : string) (i r : info) :
  Audiomack.with_title w u i = Ok r ->
  (truthy (title i) = true /\ r = i) \/
  (truthy (title i) = false /\
   exists parsed, urlparse w u = Ok parsed /\
                  r = set_title (PStr (Audiomack.title_from_path (path parsed))) i).
Proof.
  unfold Audiomack.with_title. intros H.
  destruct (truthy (title i)) eqn:E.
  - left. now inversion H.
  - right. split; [reflexivity |]. apply rbind_ok in H as (parsed & Hp & H).
    exists parsed. now inversion H.
Qed.

(** ** C3 *)

(** C3, the claim as stated fails: the vendor client returns the record of a
    track whose resource carries no name with the title unset. *)
Lemma vendor_title_unset :
  outcome (Spotify.extract_info Scenario.untitled_world Scenario.track_url)
    = Ok Scenario.untitled_record /\
  truthy (title Scenario.untitled_record) = false.
Proof. split; vm_compute; reflexivity. Qed.

(** C3 (amended): every record the HTML extractor returns has a title that is
    not empty; when the heuristics (structured data, then the og:title meta
    tag) left the title unset or empty, the title is the final non-empty
    segment of the URL's path, or the fixed placeholder when the path has no
    non-empty segment; otherwise it is the title the heuristics found. *)
Theorem html_title_never_empty (w : World) (u : string) (r : info) :
  outcome (Audiomack.extract_info w u) = Ok r ->
  truthy (title r) = true /\
  exists resp i,
    send w (Get u [] DefaultHeaders false 15) = Ok resp /\
    Audiomack.scrape w (text resp) = Ok i /\
    (truthy (title i) = true -> title r = title i) /\
    (truthy (title i) = false ->
     exists parsed, urlparse w u = Ok parsed /\ title r = PStr (slug (path parsed))).
Proof.
  intros H. apply audiomack_extract_info_ok in H as (resp & i & Hs & _ & Hi & Hr).
  destruct (with_title_cases _ _ _ _ Hr) as [[Ht ->] | (Ht & parsed & Hp & ->)].
  - split; [exact Ht |]. exists resp, i. repeat split; try assumption.
    intros Hf. congruence.
  - split.
    + simpl. now rewrite title_from_path_not_empty.
    + exists resp, i. repeat split; try assumption.
      * intros Hf. congruence.
      * intros _. exists parsed. split; [assumption |].
        simpl. now rewrite title_from_path_slug.
Qed.

Lemma html_title_never_empty_witness :
  truthy (title Scenario.bare_record) = true /\
  exists resp i,
    send Scenario.bare_world (Get Scenario.song_url [] DefaultHeaders false 15) = Ok resp /\
    Audiomack.scrape Scenario.bare_world (text resp) = Ok i /\
    (truthy (title i) = true -> title Scenario.bare_record = title i) /\
    (truthy (title i) = false ->
     exists parsed, urlparse Scenario.bare_world Scenario.song_url = Ok parsed /\
                    title Scenario.bare_record = PStr (slug (path parsed))).
Proof.
  apply (html_title_never_empty Scenario.bare_world Scenario.song_url Scenario.bare_record).
  vm_compute. reflexivity.
Defined.

Example slug_examples :
  slug "/artist/song/night-drive/" = "night-drive" /\
  slug "/a//b//" = "b" /\
  slug "///" = "Audiomack Track" /\
  slug "" = "Audiomack Track".
Proof. repeat split. Qed.

(** ** Searching *)

Lemma search_unfold (r : regex) (s : string) :
  search r s =
  match match_at r s with
  | Some m => Some m
  | None => match s with "" => None | String _ t => search r t end
  end.
Proof. destruct s; reflexivity. Qed.

(** [search] steps over a prefix in which no match starts. *)
Lemma search_skip (r : regex) (pre rest : string) :
  no_match_before r pre rest = true -> search r (pre ++ rest) = search r rest.
Proof.
  induction pre as [| c t IH]; [reflexivity |].
  cbn [no_match_before]. intros H. rewrite search_unfold.
  destruct (match_at r (String c t ++ rest)); [discriminate H |].
  simpl. now apply IH.
Qed.

(** The match of the duration pattern on the fragment: the minutes are the
    characters 14 to 15 of the match and the seconds the characters 16 to 18. *)
Lemma duration_fragment_match (post : string) :
  match_at Audiomack.duration_re (duration_fragment ++ post) =
  Some (Match (duration_fragment ++ post) 20 [(2, (16, 18)); (1, (14, 15))])%nat.
Proof. reflexivity. Qed.

Lemma with_duration_fragment (pre post : string) (i : info) :
  no_match_before Audiomack.duration_re pre (duration_fragment ++ post) = true ->
  Audiomack.with_duration (pre ++ duration_fragment ++ post) i =
  Ok (set_duration (PInt 207) i).
Proof.
  intros H. unfold Audiomack.with_duration.
  rewrite (search_skip _ _ _ H), search_unfold, duration_fragment_match.
  reflexivity.
Qed.

Lemma from_json_ld_duration (json_ld : pyval) (i i' : info) :
  Audiomack.from_json_ld json_ld i = Ok i' -> duration i' = duration i.
Proof.
  unfold Audiomack.from_json_ld. intros H.
  destruct (truthy json_ld); [| now inversion H; subst].
  ok_steps H.
  match goal with
  | Hu : (if is_dict ?a then _ else _) = Ok ?j |- _ =>
      assert (duration j = duration i) as E
        by (destruct (is_dict a);
            [ok_steps Hu; inversion Hu; reflexivity
            | destruct (is_str a); inversion Hu; reflexivity])
  end.
  repeat match type of H with
         | (if ?b then _ else _) = Ok _ => destruct b
         | _ => progress ok_steps H
         end; inversion H; subst i'; simpl; exact E.
Qed.

(** The heuristics set the duration in [with_duration] only. *)
Lemma heuristics_duration (json_ld : pyval) (text : string) (i : info) :
  Audiomack.heuristics json_ld text = Ok i ->
  exists i0, duration i0 = PNone /\ Audiomack.with_duration text i0 = Ok i.
Proof.
  unfold Audiomack.heuristics. intros H. apply rbind_ok in H as (j & Hj & H).
  apply from_json_ld_duration in Hj.
  eexists. split; [| exact H]. exact Hj.
Qed.

Lemma with_title_duration (w : World) (u : string) (i r : info) :
  Audiomack.with_title w u i = Ok r -> duration r = duration i.
Proof.
  intros H. destruct (with_title_cases _ _ _ _ H) as [[_ ->] | (_ & p & _ & ->)];
    reflexivity.
Qed.

(** ** C5 *)

(** C5, the claim as stated fails: on a page whose text has the fragment
    after another duration, the extractor takes the duration from the first
    of the two. *)
Lemma duration_of_first_match_only :
  contains duration_fragment Scenario.two_durations_html = true /\
  outcome (Audiomack.extract_info Scenario.two_durations_world Scenario.song_url)
    = Ok Scenario.two_durations_record /\
  duration Scenario.two_durations_record = PInt 60.
Proof. repeat split; vm_compute; reflexivity. Qed.

(** C5 (amended): when the first match of the duration pattern in the page
    text is the fragment with value PT3M27S (no match of the pattern starts
    before it), the record the HTML extractor returns has duration 207; when
    the pattern matches nowhere, the duration step raises nothing and the
    record returned has its duration unset. *)
Theorem duration_from_first_match (w : World) (u : string) (resp : response) (r : info) :
  send w (Get u [] DefaultHeaders false 15) = Ok resp ->
  outcome (Audiomack.extract_info w u) = Ok r ->
  (forall pre post,
      text resp = pre ++ duration_fragment ++ post ->
      no_match_before Audiomack.duration_re pre (duration_fragment ++ post) = true ->
      duration r = PInt 207) /\
  (search Audiomack.duration_re (text resp) = None ->
   (forall i, Audiomack.with_duration (text resp) i = Ok i) /\
   duration r = PNone).
Proof.
  intros Hs H.
  apply audiomack_extract_info_ok in H as (resp' & i & Hs' & _ & Hi & Hr).
  rewrite Hs in Hs'. inversion Hs'; subst resp'. clear Hs'.
  apply heuristics_duration in Hi as (i0 & H0 & Hi).
  apply with_title_duration in Hr. rewrite Hr. split.
  - intros pre post Ht Hpre. rewrite Ht, (with_duration_fragment _ _ _ Hpre) in Hi.
    now inversion Hi.
  - intros Hnone. unfold Audiomack.with_duration in Hi |- *. rewrite Hnone in Hi |- *.
    split; [reflexivity |]. inversion Hi; subst i. exact H0.
Qed.

Lemma duration_from_first_match_witness :
  duration Scenario.one_duration_record = PInt 207.
Proof.
  destruct (duration_from_first_match Scenario.one_duration_world Scenario.song_url
              (Scenario.page 200 Scenario.one_duration_html)
              Scenario.one_duration_record eq_refl) as [Hfirst _].
  - vm_compute. reflexivity.
  - apply (Hfirst "<html>{" "}</html>").
    + reflexivity.
    + vm_compute. reflexivity.
Defined.

(** ** C9 *)

Lemma find_json_ld_loaded (w : World) (text : string) (m : match_obj) (s : string)
  (v : pyval) :
  search Audiomack.json_ld_re text = Some m ->
  Audiomack.group_strip m 1 = Ok s ->
  json_loads w s = Ok v ->
  Audiomack._find_json_ld w text = v.
Proof.
  intros Hm Hg Hl. unfold Audiomack._find_json_ld. rewrite Hm, Hg. simpl.
  now rewrite Hl.
Qed.

(** A value without [get] that counts as true stops the extraction. *)
Lemma from_json_ld_no_get (v : pyval) (i : info) :
  is_dict v = false -> truthy v = true ->
  Audiomack.from_json_ld v i = no_attribute v "get".
Proof.
  intros Hd Ht. unfold Audiomack.from_json_ld. rewrite Ht.
  destruct v; try discriminate Hd; reflexivity.
Qed.

Lemma heuristics_falsy (v : pyval) (text : string) :
  truthy v = false -> Audiomack.heuristics v text = Audiomack.heuristics PNone text.
Proof.
  intros Hf. unfold Audiomack.heuristics, Audiomack.from_json_ld.
  rewrite Hf. reflexivity.
Qed.

(** C9, the claim as stated fails: a block that parses as the empty JSON
    array is not an object, and the extractor treats it as absent and returns
    a record. *)
Lemma empty_array_block_is_skipped :
  Audiomack._find_json_ld (Scenario.array_world "[]") (Scenario.array_html "[]")
    = PList [] /\
  is_dict (PList []) = false /\
  outcome (Audiomack.extract_info (Scenario.array_world "[]") Scenario.song_url)
    = Ok Scenario.bare_record.
Proof. repeat split; vm_compute; reflexivity. Qed.

(** C9 (amended): when the structured-data block parses as JSON to a value
    that is not an object, [extract_info] raises an AttributeError that
    nothing handles if the value counts as true in Python (a non-empty array
    or string, a non-zero number, true); if it counts as false (null, false,
    0, the empty string, the empty array) the block is treated as absent and
    the remaining heuristics run. *)
Theorem non_object_json_ld (w : World) (u : string) (resp : response)
  (m : match_obj) (s : string) (v : pyval) :
  send w (Get u [] DefaultHeaders false 15) = Ok resp ->
  status_code resp = 200%Z ->
  search Audiomack.json_ld_re (text resp) = Some m ->
  Audiomack.group_strip m 1 = Ok s ->
  json_loads w s = Ok v ->
  is_dict v = false ->
  (truthy v = true ->
   outcome (Audiomack.extract_info w u) = no_attribute v "get" /\
   exists msg, outcome (Audiomack.extract_info w u) = Raise (Exn AttributeError msg)) /\
  (truthy v = false ->
   outcome (Audiomack.extract_info w u) =
   (let* i := Audiomack.heuristics PNone (text resp) in Audiomack.with_title w u i)).
Proof.
  intros Hs H200 Hm Hg Hl Hd.
  rewrite (audiomack_extract_info_fetched _ _ _ Hs).
  unfold Audiomack.check_status, Audiomack.scrape.
  rewrite H200, (find_json_ld_loaded _ _ _ _ _ Hm Hg Hl). simpl rbind.
  split; intros Ht.
  - assert (Audiomack.heuristics v (text resp) = no_attribute v "get") as E.
    { unfold Audiomack.heuristics. now rewrite (from_json_ld_no_get _ _ Hd Ht). }
    rewrite E. split; [reflexivity | eexists; reflexivity].
  - now rewrite (heuristics_falsy _ _ Ht).
Qed.

Lemma non_object_json_ld_witness :
  outcome (Audiomack.extract_info (Scenario.array_world "[1]") Scenario.song_url)
    = Raise (Exn AttributeError "'list' object has no attribute 'get'").
Proof.
  assert (search Audiomack.json_ld_re (Scenario.array_html "[1]") =
          Some (Match "<script type='application/ld+json'>[1]</script></html>" 47
                  [(1%nat, (35, 38)%nat)])) as Hm
    by (vm_compute; reflexivity).
  pose proof (non_object_json_ld (Scenario.array_world "[1]") Scenario.song_url
                (Scenario.page 200 (Scenario.array_html "[1]")) _ "[1]"
                (PList [PInt 1]) eq_refl eq_refl Hm eq_refl eq_refl eq_refl)
    as [Htrue _].
  destruct (Htrue eq_refl) as [H _]. exact H.
Defined.

(** ** The track mapping of the vendor client *)

Lemma names_of_shape (l : list pyval) :
  forallb artist_shape l = true ->
  exists ns, Spotify.names_of l = Ok ns /\ Forall (fun v => is_str v = true) ns.
Proof.
  induction l as [| a r IH]; simpl; intros H.
  - exists []. split; [reflexivity | constructor].
  - apply andb_true_iff in H as [Ha Hr]. destruct (IH Hr) as (ns & E & Hns).
    destruct a as [| | | | | | d]; try discriminate Ha. simpl in Ha |- *.
    rewrite E. simpl.
    destruct (dict_get d "name") as [v |].
    + destruct (truthy v) eqn:Ev.
      * exists (v :: ns). split; [reflexivity |]. constructor; [| assumption].
        destruct v; simpl in Ha, Ev |- *; congruence.
      * now exists ns.
    + now exists ns.
Qed.

Lemma strings_of_str (ns : list pyval) :
  Forall (fun v => is_str v = true) ns ->
  forall k, exists ss, Spotify.strings_of k ns = Ok ss.
Proof.
  induction 1 as [| v r Hv _ IH]; intros k; simpl.
  - now exists [].
  - destruct v; try discriminate Hv. destruct (IH (S k)) as [ss ->].
    simpl. now eexists.
Qed.

Lemma listed_artists_shape (data : list (string * pyval)) :
  artists_shape data = true -> exists u, Spotify.listed_artists (PDict data) = Ok u.
Proof.
  unfold artists_shape, Spotify.listed_artists. simpl.
  destruct (dict_get data "artists") as [[| | | | | l |] |]; try discriminate.
  - intros H. simpl. destruct (names_of_shape l H) as (ns & -> & Hns). simpl.
    destruct ns as [| n ns]; [now eexists |].
    unfold Spotify.joined. destruct (strings_of_str _ Hns 0%nat) as [ss ->].
    simpl. now eexists.
  - intros _. simpl. now eexists.
Qed.

(** The thumbnail step changes the thumbnail only. *)
Lemma album_image_shape (data : list (string * pyval)) (i : info) :
  album_shape data = true ->
  exists th, Spotify.album_image (PDict data) i = Ok (set_thumbnail th i).
Proof.
  unfold album_shape, Spotify.album_image. simpl.
  destruct (dict_get data "album") as [[| | | | | | a] |]; try discriminate; simpl.
  - destruct (dict_get a "images") as [[| | | | | [| [| | | | | | d] l] |] |];
      try discriminate; intros _; simpl;
      try (exists (thumbnail i); destruct i; reflexivity).
    eexists. reflexivity.
  - intros _. exists (thumbnail i). destruct i; reflexivity.
Qed.

Lemma seconds_210000 (data : list (string * pyval)) :
  dict_get data "duration_ms" = Some (PInt 210000) ->
  Spotify.seconds (PDict data) = Ok 210%Z.
Proof. intros H. unfold Spotify.seconds. simpl. rewrite H. vm_compute. reflexivity. Qed.

Lemma seconds_absent (data : list (string * pyval)) :
  dict_get data "duration_ms" = None -> Spotify.seconds (PDict data) = Ok 0%Z.
Proof. intros H. unfold Spotify.seconds. simpl. rewrite H. vm_compute. reflexivity. Qed.

(** A well-shaped track object whose [duration_ms] converts is mapped to a
    record: the duration is the converted value, and the formats are the
    preview alone or nothing. *)
Lemma track_info_returns (data : list (string * pyval)) (d : Z) :
  track_shape data = true ->
  Spotify.seconds (PDict data) = Ok d ->
  exists r,
    Spotify.track_info (PDict data) Info.empty = Ok r /\
    duration r = PInt d /\
    formats r =
      match dict_get data "preview_url" with
      | Some p => if truthy p then [Format (PStr "preview") (PStr "mp3") p] else []
      | None => []
      end.
Proof.
  intros Hshape Hd. apply andb_true_iff in Hshape as [Har Hal].
  unfold Spotify.track_info.
  destruct (listed_artists_shape data Har) as [u Hu].
  simpl get at 1. cbn [rbind]. rewrite Hu. cbn [rbind].
  match goal with
  | |- context [Spotify.album_image (PDict data) ?i] =>
      destruct (album_image_shape data i Hal) as [th ->]
  end.
  cbn [rbind]. rewrite Hd. cbn [rbind]. simpl get.
  destruct (dict_get data "preview_url") as [p |]; cbn [rbind].
  - destruct (truthy p); eexists; repeat split.
  - eexists; repeat split.
Qed.

Lemma auth_headers_bearer (w : World) (tok : string) (tr : list request) :
  environ w "SPOTIFY_BEARER_TOKEN" = Some tok -> is_empty tok = false ->
  Spotify._get_auth_headers w tr = (Ok (Authorization (PStr tok)), tr).
Proof.
  intros He Ht. unfold Spotify._get_auth_headers, Spotify._get_bearer_token_from_env.
  rewrite He. simpl. now rewrite Ht.
Qed.

(** An authenticated extraction for a track comes to the mapping of the
    track resource. *)
Lemma spotify_track_flow (w : World) (u id : string) (h : headers) (resp : response) :
  Spotify._parse_spotify_url w u = (Some "track", Some id) ->
  is_empty id = false ->
  outcome (Spotify._get_auth_headers w) = Ok h ->
  send w (Get (Spotify.SPOTIFY_API_BASE ++ "/tracks/" ++ id) [] h false 10) = Ok resp ->
  status_code resp = 200%Z ->
  outcome (Spotify.extract_info w u) =
  (let* data := json resp in Spotify.track_info data Info.empty).
Proof.
  intros Hp Hi Ha Hs H200.
  rewrite (spotify_extract_info_parsed _ _ _ _ Hp eq_refl Hi), Ha.
  unfold Spotify.dispatch. rewrite String.eqb_refl, resource_outcome.
  change (Spotify.SPOTIFY_API_BASE ++ "/" ++ "tracks" ++ "/" ++ id)
    with (Spotify.SPOTIFY_API_BASE ++ "/tracks/" ++ id).
  rewrite Hs. cbn [rbind]. now rewrite H200.
Qed.

(** ** C4 *)

(** C4: for a URL of a track, with a bearer token in the environment, when
    the track resource answers 200 with a well-shaped object whose
    [duration_ms] is 210000 and whose [preview_url] is present (a value that
    counts as true), [extract_info] returns a record whose duration is 210
    and whose formats are exactly one entry, with ext mp3, format_id preview
    and the preview url. *)
Theorem track_duration_and_preview (w : World) (u id tok : string) (resp : response)
  (data : list (string * pyval)) (p : pyval) :
  Spotify._parse_spotify_url w u = (Some "track", Some id) ->
  is_empty id = false ->
  environ w "SPOTIFY_BEARER_TOKEN" = Some tok ->
  is_empty tok = false ->
  send w (Get (Spotify.SPOTIFY_API_BASE ++ "/tracks/" ++ id) []
            (Authorization (PStr tok)) false 10) = Ok resp ->
  status_code resp = 200%Z ->
  json resp = Ok (PDict data) ->
  track_shape data = true ->
  dict_get data "duration_ms" = Some (PInt 210000) ->
  dict_get data "preview_url" = Some p ->
  truthy p = true ->
  exists r,
    outcome (Spotify.extract_info w u) = Ok r /\
    duration r = PInt 210 /\
    formats r = [Format (PStr "preview") (PStr "mp3") p].
Proof.
  intros Hp Hi He Ht Hs H200 Hj Hshape Hms Hpre Hp1.
  assert (outcome (Spotify._get_auth_headers w) = Ok (Authorization (PStr tok))) as Ha.
  { unfold outcome, run. now rewrite (auth_headers_bearer _ _ _ He Ht). }
  rewrite (spotify_track_flow _ _ _ _ _ Hp Hi Ha Hs H200), Hj. cbn [rbind].
  destruct (track_info_returns data 210 Hshape (seconds_210000 _ Hms))
    as (r & Hr & Hd & Hf).
  exists r. rewrite Hpre, Hp1 in Hf. now repeat split.
Qed.

Lemma track_duration_and_preview_witness :
  exists r,
    outcome (Spotify.extract_info Scenario.track_world Scenario.track_url) = Ok r /\
    duration r = PInt 210 /\
    formats r = [Format (PStr "preview") (PStr "mp3") (PStr Scenario.preview_mp3)].
Proof.
  apply (track_duration_and_preview Scenario.track_world Scenario.track_url
           "4uLU6hMC" "BQDtoken" (Scenario.api 200 Scenario.track_data)
           [("name", PStr "Mr. Brightside");
            ("artists", PList [PDict [("name", PStr "The Killers")]]);
            ("album",
             PDict [("images", PList [PDict [("url", PStr "https://i.scdn.co/image/ab67")]])]);
            ("duration_ms", PInt 210000);
            ("preview_url", PStr Scenario.preview_mp3)]);
    reflexivity.
Defined.

(** ** C10 *)

(** C10: in an authenticated extraction for a track whose resource object
    has no [duration_ms] field, every record returned has duration 0, not an
    unset duration; and a record is returned when the object is well
    shaped. *)
Theorem missing_duration_is_zero (w : World) (u id : string) (h : headers)
  (resp : response) (data : list (string * pyval)) :
  Spotify._parse_spotify_url w u = (Some "track", Some id) ->
  is_empty id = false ->
  outcome (Spotify._get_auth_headers w) = Ok h ->
  send w (Get (Spotify.SPOTIFY_API_BASE ++ "/tracks/" ++ id) [] h false 10) = Ok resp ->
  status_code resp = 200%Z ->
  json resp = Ok (PDict data) ->
  dict_get data "duration_ms" = None ->
  (forall r, outcome (Spotify.extract_info w u) = Ok r ->
             duration r = PInt 0 /\ duration r <> PNone) /\
  (track_shape data = true -> exists r, outcome (Spotify.extract_info w u) = Ok r).
Proof.
  intros Hp Hi Ha Hs H200 Hj Hms.
  rewrite (spotify_track_flow _ _ _ _ _ Hp Hi Ha Hs H200), Hj. cbn [rbind].
  pose proof (seconds_absent _ Hms) as Hsec. split.
  - intros r Hr. unfold Spotify.track_info in Hr. ok_steps Hr.
    match goal with
    | Hd : Spotify.seconds _ = Ok ?d |- _ =>
        rewrite Hsec in Hd; inversion Hd; subst d
    end.
    assert (duration r = PInt 0) as E
      by (match type of Hr with
          | (if ?b then _ else _) = _ => destruct b; inversion Hr; reflexivity
          end).
    rewrite E. split; [reflexivity | discriminate].
  - intros Hshape. destruct (track_info_returns data 0 Hshape Hsec) as (r & Hr & _).
    now exists r.
Qed.

Lemma missing_duration_is_zero_witness :
  duration Scenario.timeless_record = PInt 0 /\
  duration Scenario.timeless_record <> PNone.
Proof.
  destruct (missing_duration_is_zero Scenario.timeless_world Scenario.track_url
              "4uLU6hMC" (Authorization (PStr "BQDtoken"))
              (Scenario.api 200 Scenario.timeless_data)
              [("name", PStr "Mr. Brightside");
               ("artists", PList [PDict [("name", PStr "The Killers")]])]
              eq_refl eq_refl eq_refl eq_refl eq_refl eq_refl eq_refl) as [Hzero _].
  apply Hzero. vm_compute. reflexivity.
Defined.

(** ** The authentication chain of the vendor client *)

Lemma resource_sent (w : World) (endpoint id : string) (h : headers)
  (mapping : pyval -> info -> result info) (i : info) (tr : list request) :
  snd (Spotify.resource w endpoint id h mapping i tr) =
  (tr ++ [Get (Spotify.SPOTIFY_API_BASE ++ "/" ++ endpoint ++ "/" ++ id) [] h false 10])%list.
Proof.
  unfold Spotify.resource, bind, request_.
  destruct (send w _) as [resp | e]; [| reflexivity].
  destruct (negb (status_code resp =? 200)%Z); reflexivity.
Qed.

Lemma dispatch_sent (w : World) (typ id : string) (h : headers) (i : info)
  (tr : list request) :
  exists rest, snd (Spotify.dispatch w typ id h i tr) = (tr ++ rest)%list /\
               existsb token_call rest = false.
Proof.
  unfold Spotify.dispatch.
  destruct (String.eqb typ "track"); [| destruct (String.eqb typ "album");
    [| destruct (String.eqb typ "playlist")]];
    try (rewrite resource_sent; eexists; split; reflexivity).
  exists []. split; [now rewrite app_nil_r | reflexivity].
Qed.

Lemma token_not_configured (w : World) (tr : list request) :
  Spotify.configured (environ w "SPOTIFY_CLIENT_ID") = false \/
  Spotify.configured (environ w "SPOTIFY_CLIENT_SECRET") = false ->
  Spotify.get_access_token w tr = (Raise (Exn Exception Spotify.msg_not_configured), tr).
Proof.
  unfold Spotify.get_access_token, Spotify._get_client_credentials.
  destruct (environ w "SPOTIFY_CLIENT_ID") as [id |];
    destruct (environ w "SPOTIFY_CLIENT_SECRET") as [secret |]; try reflexivity.
  intros [H | H]; rewrite H; [reflexivity | now rewrite orb_true_r].
Qed.

Lemma token_exchange_sent (w : World) (id secret : string) (tr : list request) :
  environ w "SPOTIFY_CLIENT_ID" = Some id ->
  environ w "SPOTIFY_CLIENT_SECRET" = Some secret ->
  is_empty id = false -> is_empty secret = false ->
  snd (Spotify.get_access_token w tr) = (tr ++ [exchange id secret])%list.
Proof.
  intros Hi Hs Ei Es.
  unfold Spotify.get_access_token, Spotify._get_client_credentials.
  rewrite Hi, Hs. simpl. rewrite Ei, Es. simpl.
  unfold bind, request_. destruct (send w _) as [resp | e]; [| reflexivity].
  destruct (negb (status_code resp =? 200)%Z); reflexivity.
Qed.

Lemma auth_headers_unconfigured (w : World) (tr : list request) :
  Spotify.configured (environ w "SPOTIFY_BEARER_TOKEN") = false ->
  Spotify._get_auth_headers w tr =
  bind (Spotify.get_access_token w) (fun token => ret (Authorization token)) tr.
Proof.
  unfold Spotify._get_auth_headers, Spotify._get_bearer_token_from_env.
  destruct (environ w "SPOTIFY_BEARER_TOKEN") as [b |]; [| reflexivity].
  intros H. now rewrite H.
Qed.

Lemma bind_ret_sent {A B} (m : M A) (f : A -> B) (tr : list request) :
  snd (bind m (fun a => ret (f a)) tr) = snd (m tr).
Proof. unfold bind, ret. destruct (m tr) as [[a | e] tr']; reflexivity. Qed.

Lemma oembed_lookup_sent (w : World) (u : string) (i : info) (tr : list request) :
  snd (Spotify.oembed_lookup w u i tr) = (tr ++ [embed_call u])%list.
Proof.
  unfold Spotify.oembed_lookup, bind, request_, embed_call.
  destruct (send w _) as [resp | e]; [| reflexivity].
  destruct (status_code resp =? 200)%Z; reflexivity.
Qed.

Lemma oembed_sent (w : World) (u : string) (i : info) (tr : list request) :
  snd (Spotify.oembed w u i tr) = (tr ++ [embed_call u])%list.
Proof.
  unfold Spotify.oembed, try_except.
  pose proof (oembed_lookup_sent w u i tr) as H.
  destruct (Spotify.oembed_lookup w u i tr) as [[r | oe] tr']; simpl in H |- *;
    exact H.
Qed.

(** The outcome of the embed lookup does not depend on the requests sent
    before it. *)
Lemma oembed_lookup_outcome (w : World) (u : string) (i : info) (tr : list request) :
  fst (Spotify.oembed_lookup w u i tr) = outcome (Spotify.oembed_lookup w u i).
Proof.
  unfold outcome, run, Spotify.oembed_lookup. rewrite !outcome_bind.
  unfold request_. simpl fst. destruct (send w _) as [resp | e]; [| reflexivity].
  simpl snd. destruct (status_code resp =? 200)%Z; reflexivity.
Qed.

Lemma extract_info_sent (w : World) (u typ id : string) :
  Spotify._parse_spotify_url w u = (Some typ, Some id) ->
  is_empty typ = false -> is_empty id = false ->
  sent (Spotify.extract_info w u) =
  match outcome (Spotify._get_auth_headers w) with
  | Ok h => snd (Spotify.dispatch w typ id h Info.empty (sent (Spotify._get_auth_headers w)))
  | Raise e => (sent (Spotify._get_auth_headers w) ++ [embed_call u])%list
  end.
Proof.
  intros Hp Ht Hi. unfold outcome, sent, run, Spotify.extract_info.
  rewrite Hp, Ht, Hi. cbn [orb]. cbv iota.
  unfold bind at 1, Spotify.attempt.
  destruct (Spotify._get_auth_headers w []) as [[h | e] tr']; simpl fst; simpl snd.
  - reflexivity.
  - apply oembed_sent.
Qed.

Lemma startswith_refl_app (p x : string) : startswith p (p ++ x) = true.
Proof.
  induction p as [| c p IH]; simpl; [reflexivity |].
  now rewrite Ascii.eqb_refl, IH.
Qed.

Lemma contains_suffix (a p : string) : contains p (a ++ p) = true.
Proof.
  induction a as [| c a IH]; simpl.
  - destruct p as [| c p]; [reflexivity |]. simpl.
    rewrite <- (append_empty_r p) at 2.
    now rewrite Ascii.eqb_refl, startswith_refl_app.
  - rewrite IH. apply orb_true_r.
Qed.

(** ** C7 *)

(** C7, the claim as stated fails: when the token endpoint rejects the
    configured credentials and the embed endpoint fails too, the error
    [extract_info] raises carries the embed failure but not the failure of the
    credential exchange: it says that credentials are required. *)
Lemma credential_failure_not_named :
  outcome (Spotify._get_auth_headers Scenario.rejected_world)
    = Raise Scenario.token_failure /\
  outcome (Spotify.oembed_lookup Scenario.rejected_world Scenario.track_url Info.empty)
    = Raise Scenario.embed_failure /\
  outcome (Spotify.extract_info Scenario.rejected_world Scenario.track_url)
    = Raise Scenario.surfaced_failure /\
  names Scenario.surfaced_failure Scenario.embed_failure = true /\
  names Scenario.surfaced_failure Scenario.token_failure = false.
Proof. repeat split; vm_compute; reflexivity. Qed.

(** C7 (amended): for a URL of the vendor's shape, (1) a bearer token
    configured in the environment is used as it is, and no request goes to
    the token endpoint during the extraction; (2) without one, the
    client-credential exchange is attempted: it fails with the configuration
    error, before any request, when the id or the secret is absent, and
    otherwise its request to the token endpoint is the one request made for
    the headers; (3) when that raises, the next request goes to the public
    embed endpoint: if the embed lookup returns, its record is returned, with
    no duration and no formats; if it fails, the error raised is a fixed
    notice that credentials or a bearer token are required followed by the
    message of the embed failure (the failure of the credential exchange is
    not part of it). *)
Theorem auth_chain (w : World) (u typ id : string) :
  Spotify._parse_spotify_url w u = (Some typ, Some id) ->
  is_empty typ = false -> is_empty id = false ->
  (forall b,
      environ w "SPOTIFY_BEARER_TOKEN" = Some b -> is_empty b = false ->
      run (Spotify._get_auth_headers w) = (Ok (Authorization (PStr b)), []) /\
      existsb token_call (sent (Spotify.extract_info w u)) = false) /\
  (Spotify.configured (environ w "SPOTIFY_BEARER_TOKEN") = false ->
   (Spotify.configured (environ w "SPOTIFY_CLIENT_ID") = false \/
    Spotify.configured (environ w "SPOTIFY_CLIENT_SECRET") = false ->
    run (Spotify._get_auth_headers w)
      = (Raise (Exn Exception Spotify.msg_not_configured), [])) /\
   (forall i s,
       environ w "SPOTIFY_CLIENT_ID" = Some i ->
       environ w "SPOTIFY_CLIENT_SECRET" = Some s ->
       is_empty i = false -> is_empty s = false ->
       sent (Spotify._get_auth_headers w) = [exchange i s])) /\
  (forall e,
      outcome (Spotify._get_auth_headers w) = Raise e ->
      sent (Spotify.extract_info w u)
        = (sent (Spotify._get_auth_headers w) ++ [embed_call u])%list /\
      match outcome (Spotify.oembed_lookup w u Info.empty) with
      | Ok r =>
          outcome (Spotify.extract_info w u) = Ok r /\
          duration r = PNone /\ formats r = []
      | Raise oe =>
          exists surfaced,
            outcome (Spotify.extract_info w u) = Raise surfaced /\
            surfaced = Exn Exception (Spotify.msg_fallback_failed ++ str_exn oe) /\
            names surfaced oe = true
      end).
Proof.
  intros Hp Ht Hi. split; [| split].
  - intros b Hb Eb.
    pose proof (auth_headers_bearer w b [] Hb Eb) as Ha. split; [exact Ha |].
    rewrite (extract_info_sent _ _ _ _ Hp Ht Hi).
    unfold outcome, sent, run. rewrite Ha. simpl fst. simpl snd.
    destruct (dispatch_sent w typ id (Authorization (PStr b)) Info.empty [])
      as (rest & -> & Hrest).
    exact Hrest.
  - intros Hb. split.
    + intros Hc. unfold run. rewrite (auth_headers_unconfigured _ _ Hb).
      unfold bind. now rewrite (token_not_configured _ _ Hc).
    + intros i s Hci Hcs Ei Es. unfold sent, run.
      rewrite (auth_headers_unconfigured _ _ Hb), bind_ret_sent.
      now rewrite (token_exchange_sent _ _ _ _ Hci Hcs Ei Es).
  - intros e Ha. split.
    + now rewrite (extract_info_sent _ _ _ _ Hp Ht Hi), Ha.
    + rewrite (spotify_extract_info_parsed _ _ _ _ Hp Ht Hi), Ha, oembed_outcome,
        oembed_lookup_outcome.
      destruct (outcome (Spotify.oembed_lookup w u Info.empty)) as [r | oe] eqn:Ho.
      * split; [reflexivity |]. unfold outcome, run in Ho.
        now apply oembed_lookup_formats in Ho.
      * eexists. split; [reflexivity |]. split; [reflexivity |].
        exact (contains_suffix Spotify.msg_fallback_failed (str_exn oe)).
Qed.

Lemma auth_chain_witness :
  sent (Spotify._get_auth_headers Scenario.rejected_world)
    = [exchange "client-id" "client-secret"] /\
  sent (Spotify.extract_info Scenario.rejected_world Scenario.track_url)
    = [exchange "client-id" "client-secret"; embed_call Scenario.track_url] /\
  run (Spotify._get_auth_headers Scenario.track_world)
    = (Ok (Authorization (PStr "BQDtoken")), []) /\
  existsb token_call (sent (Spotify.extract_info Scenario.track_world Scenario.track_url))
    = false.
Proof.
  destruct (auth_chain Scenario.rejected_world Scenario.track_url "track" "4uLU6hMC"
              eq_refl eq_refl eq_refl) as (_ & Hcred & Hfall).
  destruct (Hcred eq_refl) as [_ Hexchange].
  destruct (Hfall Scenario.token_failure eq_refl) as [Hsent _].
  destruct (auth_chain Scenario.track_world Scenario.track_url "track" "4uLU6hMC"
              eq_refl eq_refl eq_refl) as (Hbearer & _).
  destruct (Hbearer "BQDtoken" eq_refl eq_refl) as [Hrun Hnone].
  pose proof (Hexchange "client-id" "client-secret" eq_refl eq_refl eq_refl eq_refl)
    as Hex.
  split; [exact Hex |].
  split; [rewrite Hsent, Hex; reflexivity |].
  split; [exact Hrun | exact Hnone].
Defined.

(* ===================================================================== *)
(** * Further properties *)
(* ===================================================================== *)

Import Lang Shape.

(** ** The matcher against the language of the patterns *)

Lemma append_length_r (a b : string) :
  String.length (a ++ b) = (String.length a + String.length b)%nat.
Proof. apply length_append. Qed.

Lemma at_offset_step (subj : string) (c : ascii) (s : string) (i : nat) :
  at_offset subj (String c s) i -> at_offset subj s (S i).
Proof.
  intros (pre & -> & <-). exists (pre ++ String c ""). split.
  - now rewrite append_assoc.
  - rewrite length_append. simpl. lia.
Qed.

Lemma at_offset_app (subj t s : string) (i : nat) :
  at_offset subj (t ++ s) i -> at_offset subj s (i + String.length t).
Proof.
  intros (pre & -> & <-). exists (pre ++ t). split.
  - now rewrite append_assoc.
  - apply length_append.
Qed.

Section Soundness.
Context {A : Type}.

(** A repetition takes a run of characters of its class and hands the rest
    to its continuation. *)
Lemma star_greedy_sound (f : ascii -> bool) (s : string) :
  forall (i : nat) (k : string -> nat -> option A) (x : A),
    star_greedy f s i k = Some x ->
    exists t s', s = t ++ s' /\ all_chars f t = true /\
                 k s' (i + String.length t)%nat = Some x.
Proof.
  induction s as [| c s IH]; intros i k x H; simpl in H.
  - exists "", "". rewrite Nat.add_0_r. now repeat split.
  - destruct (f c) eqn:Ef.
    + destruct (star_greedy f s (S i) k) as [y |] eqn:E.
      * inversion H; subst y. apply IH in E as (t & s' & -> & Ht & Hk).
        exists (String c t), s'. simpl. rewrite Ef, Ht.
        repeat split. now rewrite <- Nat.add_succ_comm.
      * exists "", (String c s). rewrite Nat.add_0_r. now repeat split.
    + exists "", (String c s). rewrite Nat.add_0_r. now repeat split.
Qed.

Lemma star_lazy_sound (f : ascii -> bool) (s : string) :
  forall (i : nat) (k : string -> nat -> option A) (x : A),
    star_lazy f s i k = Some x ->
    exists t s', s = t ++ s' /\ all_chars f t = true /\
                 k s' (i + String.length t)%nat = Some x.
Proof.
  induction s as [| c s IH]; intros i k x H; simpl in H.
  - destruct (k "" i) as [y |] eqn:E; [| discriminate H].
    exists "", "". rewrite Nat.add_0_r. repeat split. congruence.
  - destruct (k (String c s) i) as [y |] eqn:E.
    + exists "", (String c s). rewrite Nat.add_0_r. repeat split. congruence.
    + destruct (f c) eqn:Ef; [| discriminate H].
      apply IH in H as (t & s' & -> & Ht & Hk).
      exists (String c t), s'. simpl. rewrite Ef, Ht.
      repeat split. now rewrite <- Nat.add_succ_comm.
Qed.

(** Soundness of the matcher: when [exec] succeeds, the pattern has matched
    a prefix [t] of what was left to read, the continuation has succeeded
    on the rest, and every span recorded on the way is as the groups
    promise. *)
Lemma exec_sound (P : nat -> string -> Prop) (subj : string) (r : regex) :
  groups_within P r ->
  forall (s : string) (i : nat) (g : captures)
         (k : string -> nat -> captures -> option A) (x : A),
    at_offset subj s i ->
    Forall (span_ok P subj) g ->
    exec r s i g k = Some x ->
    exists t s' g',
      s = t ++ s' /\ matches r t /\ Forall (span_ok P subj) g' /\
      k s' (i + String.length t)%nat g' = Some x.
Proof.
  induction r as [| f | a IHa b IHb | a IHa b IHb | greedy f | n a IHa];
    intros Hw s i g k x Hpos Hg H; simpl in H.
  - exists "", s, g. rewrite Nat.add_0_r. now repeat split.
  - destruct s as [| c s]; [discriminate H |].
    destruct (f c) eqn:Ef; [| discriminate H].
    exists (String c ""), s, g. simpl. rewrite Nat.add_1_r.
    repeat split; try assumption. now exists c.
  - destruct Hw as [Hwa Hwb].
    apply (IHa Hwa _ _ _ _ _ Hpos Hg) in H as (t1 & s1 & g1 & -> & Ht1 & Hg1 & H).
    apply at_offset_app in Hpos.
    apply (IHb Hwb _ _ _ _ _ Hpos Hg1) in H as (t2 & s2 & g2 & -> & Ht2 & Hg2 & H).
    exists (t1 ++ t2), s2, g2. rewrite append_assoc, length_append, Nat.add_assoc.
    repeat split; try assumption. now exists t1, t2.
  - destruct Hw as [Hwa Hwb].
    destruct (exec a s i g k) as [y |] eqn:E.
    + inversion H; subst y.
      apply (IHa Hwa _ _ _ _ _ Hpos Hg) in E as (t & s' & g' & -> & Ht & Hg' & E).
      exists t, s', g'. repeat split; try assumption. now left.
    + apply (IHb Hwb _ _ _ _ _ Hpos Hg) in H as (t & s' & g' & -> & Ht & Hg' & H).
      exists t, s', g'. repeat split; try assumption. now right.
  - assert (exists t s', s = t ++ s' /\ all_chars f t = true /\
                         k s' (i + String.length t)%nat g = Some x)
      as (t & s' & -> & Ht & Hk)
      by (destruct greedy; [apply star_greedy_sound in H | apply star_lazy_sound in H];
          exact H).
    now exists t, s', g.
  - destruct Hw as [Hn Hwa].
    apply (IHa Hwa _ _ _ _ _ Hpos Hg) in H as (t & s' & g' & -> & Ht & Hg' & H).
    exists t, s', ((n, (i, (i + String.length t)%nat)) :: g').
    repeat split; try assumption.
    constructor; [| assumption].
    destruct Hpos as (pre & -> & <-). exists pre, t, s'. simpl.
    repeat split. now apply Hn.
Qed.

End Soundness.

(** A match object of [match_at]: its subject is the text searched from
    there, its text is matched by the pattern, and its spans are as the
    groups promise. *)
Lemma match_at_sound (P : nat -> string -> Prop) (r : regex) (s : string)
  (m : match_obj) :
  groups_within P r ->
  match_at r s = Some m ->
  subject m = s /\
  (exists t s', s = t ++ s' /\ stop m = String.length t /\ matches r t) /\
  Forall (span_ok P s) (spans m).
Proof.
  intros Hw H. unfold match_at in H.
  apply (exec_sound P s r Hw s 0 [] _ m) in H as (t & s' & g' & -> & Ht & Hg & H).
  - inversion H; subst m. simpl. split; [reflexivity |]. split; [| assumption].
    now exists t, s'.
  - now exists "".
  - constructor.
Qed.

Lemma search_sound (P : nat -> string -> Prop) (r : regex) (s : string)
  (m : match_obj) :
  groups_within P r ->
  search r s = Some m ->
  (exists pre, s = pre ++ subject m) /\
  (exists t s', subject m = t ++ s' /\ stop m = String.length t /\ matches r t) /\
  Forall (span_ok P (subject m)) (spans m).
Proof.
  intros Hw. induction s as [| c s IH]; rewrite search_unfold.
  - destruct (match_at r "") as [m' |] eqn:E; [| discriminate].
    intros H; inversion H; subst m'.
    destruct (match_at_sound P _ _ _ Hw E) as (Hs & Ht & Hg). rewrite Hs.
    split; [now exists "" | split; assumption].
  - destruct (match_at r (String c s)) as [m' |] eqn:E.
    + intros H; inversion H; subst m'.
      destruct (match_at_sound P _ _ _ Hw E) as (Hs & Ht & Hg). rewrite Hs.
      split; [now exists "" | split; assumption].
    + intros H. destruct (IH H) as ([pre Hpre] & Hrest).
      split; [| exact Hrest]. exists (String c pre). simpl. now rewrite <- Hpre.
Qed.

Lemma substring_middle (pre t post : string) :
  substring (String.length pre) (String.length t) (pre ++ t ++ post) = t.
Proof.
  induction pre as [| c pre IH]; simpl.
  - induction t as [| c t IHt]; simpl.
    + destruct post; reflexivity.
    + now rewrite IHt.
  - exact IH.
Qed.

(** The text of a group that took part in a match has the property its
    pattern gives. *)
Lemma group_sound (P : nat -> string -> Prop) (m : match_obj) (n : nat) (t : string) :
  Forall (span_ok P (subject m)) (spans m) ->
  group m n = Some t -> P n t.
Proof.
  unfold group. intros Hg H.
  destruct (lookup n (spans m)) as [[a b] |] eqn:E; [| discriminate H].
  inversion H; subst t. clear H.
  induction (spans m) as [| [j [a' b']] g IH]; [discriminate E |].
  simpl in E. apply Forall_cons_iff in Hg as [Hj Hg].
  destruct (Nat.eqb j n) eqn:Ej.
  - inversion E; subst a' b'. apply Nat.eqb_eq in Ej. subst j.
    destruct Hj as (pre & t & post & Hs & Ha & Hb & HP). simpl in Ha, Hb, HP.
    rewrite Hs. subst a b.
    replace (String.length pre + String.length t - String.length pre)%nat
      with (String.length t) by lia.
    now rewrite substring_middle.
  - now apply IH.
Qed.

(** ** Decimal strings *)

Lemma digit_not_space (c : ascii) : is_digit c = true -> is_space c = false.
Proof.
  unfold is_digit, is_space, between. intros H.
  apply andb_true_iff in H as [H1 H2].
  apply Nat.leb_le in H1, H2.
  apply orb_false_iff. split; apply andb_false_iff; right; apply Nat.leb_gt; lia.
Qed.

Lemma digit_not_underscore (c : ascii) : is_digit c = true -> Ascii.eqb c "_" = false.
Proof.
  intros H. destruct (Ascii.eqb c "_") eqn:E; [| reflexivity].
  apply Ascii.eqb_eq in E. subst c. discriminate H.
Qed.

Lemma rstrip_by_none (f : ascii -> bool) (s : string) :
  all_chars (fun c => negb (f c)) s = true -> rstrip_by f s = s.
Proof.
  induction s as [| c s IH]; [reflexivity |]. simpl. intros H.
  apply andb_true_iff in H as [Hc Hs]. apply negb_true_iff in Hc.
  now rewrite Hc, andb_false_r, (IH Hs).
Qed.

Lemma all_chars_impl (f g : ascii -> bool) (s : string) :
  (forall c, f c = true -> g c = true) -> all_chars f s = true -> all_chars g s = true.
Proof.
  intros Hfg. induction s as [| c s IH]; [reflexivity |]. simpl. intros H.
  apply andb_true_iff in H as [Hc Hs]. now rewrite (Hfg _ Hc), (IH Hs).
Qed.

Lemma digit_not_int_space (c : ascii) : is_digit c = true -> is_int_space c = false.
Proof.
  unfold is_int_space. intros H. apply orb_false_iff. split.
  - revert H. unfold is_digit, between. intros H.
    apply andb_true_iff in H as [H1 H2]. apply Nat.leb_le in H1, H2.
    apply andb_false_iff. right. apply Nat.leb_gt. lia.
  - destruct (Ascii.eqb c " ") eqn:E; [| reflexivity].
    apply Ascii.eqb_eq in E. subst c. discriminate H.
Qed.

Lemma strip_digits (s : string) :
  all_chars is_digit s = true -> strip_by is_int_space s = s.
Proof.
  intros H. unfold strip_by.
  assert (lstrip_by is_int_space s = s) as ->.
  { destruct s as [| c s]; [reflexivity |]. simpl in H |- *.
    apply andb_true_iff in H as [Hc _]. now rewrite (digit_not_int_space _ Hc). }
  apply rstrip_by_none. revert H. apply all_chars_impl.
  intros c Hc. now rewrite (digit_not_int_space _ Hc).
Qed.

Lemma digit_groups_digits (s : string) (b : bool) :
  all_chars is_digit s = true -> digit_groups b s = if is_empty s then b else true.
Proof.
  revert b. induction s as [| c s IH]; intros b H; [reflexivity |].
  simpl in H |- *. apply andb_true_iff in H as [Hc Hs].
  rewrite Hc, (IH true Hs). now destruct (is_empty s).
Qed.

Lemma drop_underscores_digits (s : string) :
  all_chars is_digit s = true -> drop_underscores s = s.
Proof.
  induction s as [| c s IH]; [reflexivity |]. simpl. intros H.
  apply andb_true_iff in H as [Hc Hs].
  now rewrite (digit_not_underscore _ Hc), (IH Hs).
Qed.

Lemma digits_value_nonneg (s : string) (acc : Z) :
  (0 <= acc)%Z -> (0 <= digits_value acc s)%Z.
Proof.
  revert acc. induction s as [| c s IH]; intros acc H; cbn [digits_value];
    [assumption |].
  apply IH. lia.
Qed.

Lemma unsigned_body (c : ascii) (s : string) :
  is_digit c = true ->
  match String c s with
  | String "-" t => (true, t)
  | String "+" t => (false, t)
  | _ => (false, String c s)
  end = (false, String c s).
Proof.
  destruct c as [[] [] [] [] [] [] [] []]; intros H; try reflexivity;
    discriminate H.
Qed.

(** [int()] of a non-empty string of digits is its value, which is not
    negative, unless the string has more digits than the limit. *)
Lemma int_of_str_digits (s : string) :
  digits s ->
  int_of_str s =
    (if (4300 <? Z.of_nat (String.length s))%Z
     then Raise (Exn ValueError (msg_int_limit (Z.of_nat (String.length s))))
     else Ok (digits_value 0 s)) /\
  (0 <= digits_value 0 s)%Z.
Proof.
  intros [Hd Hne]. split; [| now apply digits_value_nonneg].
  unfold int_of_str. rewrite (strip_digits _ Hd).
  destruct s as [| c s]; [contradiction |].
  pose proof Hd as Hd'. simpl in Hd'. apply andb_true_iff in Hd' as [Hc _].
  rewrite (unsigned_body c s Hc), (digit_groups_digits _ false Hd),
    (drop_underscores_digits _ Hd).
  reflexivity.
Qed.

(** ** The groups of the duration pattern *)

Lemma plus_matches (f : ascii -> bool) (t : string) :
  matches (plus f) t -> all_chars f t = true /\ t <> "".
Proof.
  intros (t1 & t2 & -> & (c & -> & Hc) & H2). simpl. rewrite Hc, H2.
  split; [reflexivity | discriminate].
Qed.

Lemma duration_re_groups : groups_within (fun _ => digits) Audiomack.duration_re.
Proof.
  unfold Audiomack.duration_re. simpl.
  repeat match goal with
         | |- _ /\ _ => split
         | |- True => exact I
         | |- forall t, _ -> digits t => exact (plus_matches is_digit)
         end.
Qed.

Lemma int_group_digits (m : match_obj) (n : nat) :
  Forall (span_ok (fun _ => digits) (subject m)) (spans m) ->
  ((group_length m n <= 4300)%Z /\
   exists v, Audiomack.int_group m n = Ok v /\ (0 <= v)%Z) \/
  ((4300 < group_length m n)%Z /\
   Audiomack.int_group m n = Raise (Exn ValueError (msg_int_limit (group_length m n)))).
Proof.
  intros Hg. unfold Audiomack.int_group, group_length.
  destruct (group m n) as [s |] eqn:E;
    [| left; split; [lia | exists 0%Z; split; [reflexivity | lia]]].
  pose proof (group_sound _ m n s Hg E) as Hd.
  destruct (int_of_str_digits s Hd) as [-> Hv].
  assert (is_empty s = false) as -> by (destruct Hd as [_ Hne]; now destruct s).
  destruct (Z.ltb_spec 4300 (Z.of_nat (String.length s))) as [Hl | Hl].
  - right. now split.
  - left. split; [exact Hl | now eexists].
Qed.

(** The duration step leaves the record as it is, sets a duration that is not
    negative, or stops at a number of more digits than [int()] converts. *)
Lemma with_duration_cases (text : string) (i : info) :
  Audiomack.with_duration text i = Ok i \/
  (exists d, (0 <= d)%Z /\ Audiomack.with_duration text i = Ok (set_duration (PInt d) i)) \/
  (exists n, (4300 < n)%Z /\
             Audiomack.with_duration text i = Raise (Exn ValueError (msg_int_limit n))).
Proof.
  unfold Audiomack.with_duration.
  destruct (search Audiomack.duration_re text) as [m |] eqn:E; [| now left].
  right. destruct (search_sound _ _ _ _ duration_re_groups E) as (_ & _ & Hg).
  destruct (int_group_digits m 1 Hg) as [(_ & mins & -> & Hm) | (Hl & ->)];
    [| right; eexists; split; [exact Hl | reflexivity]].
  destruct (int_group_digits m 2 Hg) as [(_ & secs & -> & Hs) | (Hl & ->)];
    [| right; eexists; split; [exact Hl | reflexivity]].
  left. exists (mins * 60 + secs)%Z. split; [lia | reflexivity].
Qed.


(** X1: the duration of a record the HTML extractor returns is unset or an
    integer that is not negative. *)
Theorem duration_never_negative (w : World) (u : string) (r : info) :
  outcome (Audiomack.extract_info w u) = Ok r ->
  duration r = PNone \/ exists d, (0 <= d)%Z /\ duration r = PInt d.
Proof.
  intros H. apply audiomack_extract_info_ok in H as (resp & i & _ & _ & Hi & Hr).
  apply heuristics_duration in Hi as (i0 & H0 & Hi).
  apply with_title_duration in Hr. rewrite Hr.
  destruct (with_duration_cases (text resp) i0) as [E | [(d & Hd & E) | (n & _ & E)]];
    rewrite E in Hi; inversion Hi; subst i.
  - now left.
  - right. now exists d.
Qed.

Lemma duration_never_negative_witness :
  duration Scenario.one_duration_record = PNone \/
  exists d, (0 <= d)%Z /\ duration Scenario.one_duration_record = PInt d.
Proof.
  apply (duration_never_negative Scenario.one_duration_world Scenario.song_url).
  vm_compute. reflexivity.
Defined.

(** The block is absent when the page has no script of that type, and when
    what the script holds does not parse. *)
Lemma find_json_ld_absent (w : World) (text : string) :
  (search Audiomack.json_ld_re text = None -> Audiomack._find_json_ld w text = PNone) /\
  (forall m s e,
      search Audiomack.json_ld_re text = Some m ->
      Audiomack.group_strip m 1 = Ok s ->
      json_loads w s = Raise e ->
      Audiomack._find_json_ld w text = PNone).
Proof.
  unfold Audiomack._find_json_ld. split.
  - now intros ->.
  - intros m s e -> -> H. simpl. now rewrite H.
Qed.




(** ** Substrings *)

Lemma startswith_iff (p s : string) :
  startswith p s = true <-> exists post, s = p ++ post.
Proof.
  revert s. induction p as [| a p IH]; intros s; simpl.
  - split; [intros _; now exists s | reflexivity].
  - destruct s as [| b s].
    + split; [discriminate | intros [post H]; discriminate H].
    + rewrite andb_true_iff, Ascii.eqb_eq, IH. split.
      * intros [-> [post ->]]. now exists post.
      * intros [post H]. inversion H. split; [reflexivity | now exists post].
Qed.

Lemma contains_iff (p s : string) :
  contains p s = true <-> exists pre post, s = pre ++ p ++ post.
Proof.
  induction s as [| c s IH].
  - cbn [contains]. rewrite orb_false_r, startswith_iff. split.
    + intros [post H]. now exists "", post.
    + intros (pre & post & H). destruct pre; [now exists post | discriminate H].
  - cbn [contains]. rewrite orb_true_iff, startswith_iff, IH. split.
    + intros [[post H] | (pre & post & ->)].
      * now exists "", post.
      * now exists (String c pre), post.
    + intros ([| a pre] & post & H).
      * left. now exists post.
      * right. inversion H. now exists pre, post.
Qed.

Lemma contains_part (a p b s : string) :
  contains (a ++ p ++ b) s = true -> contains p s = true.
Proof.
  rewrite !contains_iff. intros (pre & post & ->).
  exists (pre ++ a), (b ++ post). now rewrite !append_assoc.
Qed.

(** ** The links [_find_direct_audio_urls] reports *)

Lemma matches_lit (p t : string) : matches (lit p) t -> t = p.
Proof.
  revert t. induction p as [| c p IH]; intros t; simpl.
  - auto.
  - intros (t1 & t2 & -> & (x & -> & Hx) & H2).
    apply Ascii.eqb_eq in Hx. subst x. simpl. now rewrite (IH _ H2).
Qed.

(** A text the link pattern matches begins with the scheme and names one of
    the two extensions. *)
Lemma audio_url_shape (t : string) :
  matches Audiomack.audio_url_re t ->
  (startswith "http://" t = true \/ startswith "https://" t = true) /\
  (contains ".mp3" t = true \/ contains ".m3u8" t = true).
Proof.
  unfold Audiomack.audio_url_re, seq.
  intros (t1 & r1 & -> & H1 & t2 & r2 & -> & H2 & t3 & r3 & -> & H3 &
          t4 & r4 & -> & H4 & t5 & r5 & -> & H5 & t6 & r6 & -> & H6 &
          t7 & r7 & -> & H7 & ->).
  apply matches_lit in H1, H3. subst t1 t3.
  destruct H5 as (x & -> & Hx). apply Ascii.eqb_eq in Hx. subst x.
  split.
  - destruct H2 as [(x & -> & Hx) | ->].
    + apply Ascii.eqb_eq in Hx. subst x. right. apply startswith_iff. now eexists.
    + left. apply startswith_iff. now eexists.
  - destruct H6 as [H6 | H6]; apply matches_lit in H6; subst t6; [left | right];
      apply contains_iff;
      exists ("http" ++ t2 ++ "://" ++ t4), (t7 ++ "");
      now rewrite !append_assoc.
Qed.

Lemma groups_within_any (r : regex) : groups_within (fun _ _ => True) r.
Proof. induction r; simpl; auto. Qed.

Lemma substring_prefix (t s : string) : substring 0 (String.length t) (t ++ s) = t.
Proof. exact (substring_middle "" t s). Qed.

(** Every text [findall] returns is the text of a match that starts
    somewhere in the subject. *)
Lemma findall_from_in (r : regex) (s : string) :
  forall (skip : nat) (u : string),
    In u (findall_from r s skip) ->
    exists pre m, s = pre ++ subject m /\ match_at r (subject m) = Some m /\
                  u = matched m.
Proof.
  assert (forall m x, match_at r x = Some m -> subject m = x) as Hsubj
    by (intros m x H;
        exact (proj1 (match_at_sound _ _ _ _ (groups_within_any r) H))).
  induction s as [| c s IH]; intros skip u Hin.
  - destruct skip; simpl in Hin; [| contradiction].
    destruct (match_at r "") as [m |] eqn:E; [| contradiction].
    destruct Hin as [<- | []].
    pose proof (Hsubj _ _ E) as Hs.
    exists "", m. rewrite Hs. now repeat split.
  - destruct skip as [| n]; simpl in Hin.
    + destruct (match_at r (String c s)) as [m |] eqn:E.
      * destruct Hin as [<- | Hin].
        -- pose proof (Hsubj _ _ E) as Hs.
           exists "", m. rewrite Hs. now repeat split.
        -- apply IH in Hin as (pre & m' & -> & Hm & ->).
           now exists (String c pre), m'.
      * apply IH in Hin as (pre & m' & -> & Hm & ->).
        now exists (String c pre), m'.
    + apply IH in Hin as (pre & m' & -> & Hm & ->).
      now exists (String c pre), m'.
Qed.

(** The loop of [_find_direct_audio_urls] keeps one copy of each url. *)
Lemma fold_keep_first (urls : list string) :
  forall seen out,
    NoDup out -> (forall u, In u seen <-> In u out) ->
    let st := fold_left Audiomack.keep_first urls (seen, out) in
    NoDup (snd st) /\ (forall u, In u (snd st) <-> In u out \/ In u urls).
Proof.
  induction urls as [| x urls IH]; intros seen out Hnd Hseen; simpl.
  - split; [assumption | intros u; tauto].
  - destruct (existsb (String.eqb x) seen) eqn:E.
    + destruct (IH seen out Hnd Hseen) as [H1 H2]. split; [exact H1 |].
      intros u. rewrite H2. split; [tauto |].
      intros [H | [<- | H]]; auto.
      left. apply Hseen. apply existsb_exists in E as (y & Hy & Exy).
      apply String.eqb_eq in Exy. now subst y.
    + assert (~ In x out) as Hx.
      { intros H. apply Hseen in H.
        assert (existsb (String.eqb x) seen = true) as E'
          by (apply existsb_exists; exists x; split; [assumption | apply String.eqb_refl]).
        congruence. }
      destruct (IH (x :: seen) (out ++ [x])%list) as [H1 H2].
      * apply NoDup_app; [assumption | repeat constructor; intros [] |].
        intros a Ha [<- | []]. contradiction.
      * intros u. simpl. rewrite in_app_iff, Hseen. simpl. tauto.
      * split; [exact H1 |]. intros u. rewrite H2, in_app_iff. simpl. tauto.
Qed.

Lemma direct_urls_members (text : string) :
  NoDup (Audiomack._find_direct_audio_urls text) /\
  (forall u, In u (Audiomack._find_direct_audio_urls text) <->
             In u (findall Audiomack.audio_url_re text)).
Proof.
  unfold Audiomack._find_direct_audio_urls.
  destruct (fold_keep_first (findall Audiomack.audio_url_re text) [] [])
    as [Hnd Hin]; [constructor | tauto |].
  cbv zeta in Hnd, Hin.
  split; [exact Hnd |]. intros u. rewrite Hin. simpl. tauto.
Qed.

Lemma audio_link_shape (text u : string) :
  In u (findall Audiomack.audio_url_re text) ->
  (startswith "http://" u = true \/ startswith "https://" u = true) /\
  (contains ".mp3" u = true \/ contains ".m3u8" u = true) /\
  contains u text = true.
Proof.
  intros Hu. unfold findall in Hu.
  apply findall_from_in in Hu as (pre & m & Htext & Hm & ->).
  destruct (match_at_sound _ _ _ _ (groups_within_any _) Hm)
    as (_ & (t & s' & Hs & Hstop & Ht) & _).
  unfold matched. rewrite Hstop, Hs, substring_prefix.
  destruct (audio_url_shape t Ht) as [Hscheme Hext].
  repeat split; try assumption.
  apply contains_iff. exists pre, s'. now rewrite Htext, Hs.
Qed.

(** X3: [_find_direct_audio_urls] returns each link once, and returns
    exactly the texts the link pattern matches in the page: each begins
    with http:// or https://, names the extension .mp3 or .m3u8, and occurs
    in the page text. *)
Theorem direct_audio_urls (text : string) :
  NoDup (Audiomack._find_direct_audio_urls text) /\
  (forall u, In u (Audiomack._find_direct_audio_urls text) <->
             In u (findall Audiomack.audio_url_re text)) /\
  (forall u, In u (Audiomack._find_direct_audio_urls text) ->
             (startswith "http://" u = true \/ startswith "https://" u = true) /\
             (contains ".mp3" u = true \/ contains ".m3u8" u = true) /\
             contains u text = true).
Proof.
  destruct (direct_urls_members text) as [Hnd Hmem].
  split; [exact Hnd |]. split; [exact Hmem |].
  intros u Hu. apply Hmem in Hu. now apply audio_link_shape in Hu.
Qed.

Lemma direct_audio_urls_witness :
  (startswith "http://" Scenario.song_mp3 = true \/
   startswith "https://" Scenario.song_mp3 = true) /\
  (contains ".mp3" Scenario.song_mp3 = true \/
   contains ".m3u8" Scenario.song_mp3 = true) /\
  contains Scenario.song_mp3 Scenario.song_html = true.
Proof.
  destruct (direct_audio_urls Scenario.song_html) as (_ & _ & H).
  apply H. vm_compute. left. reflexivity.
Defined.

(** ** The format entries of the HTML extractor *)

(** What the JSON-LD step does to the format list: nothing, or one entry for
    the audio url, which is a non-empty string. *)
Lemma from_json_ld_entry (json_ld : pyval) (i i' : info) :
  Audiomack.from_json_ld json_ld i = Ok i' ->
  formats i' = formats i \/
  exists e s, s <> "" /\
              formats i' = (formats i ++ [Format (PStr "audio") (PStr e) (PStr s)])%list.
Proof.
  unfold Audiomack.from_json_ld. intros H.
  destruct (truthy json_ld); [| left; now inversion H].
  ok_steps H.
  match goal with
  | Hu : (if is_dict ?a then _ else _) = Ok ?j |- _ =>
      assert (formats j = formats i) as E
        by (destruct (is_dict a);
            [ok_steps Hu; inversion Hu; reflexivity
            | destruct (is_str a); inversion Hu; reflexivity])
  end.
  match type of H with
  | (if is_dict ?a then _ else _) = _ => destruct (is_dict a)
  end; [| left; inversion H; subst i'; exact E].
  ok_steps H.
  match type of H with
  | (if truthy ?c then _ else _) = _ => destruct (truthy c) eqn:Ec
  end; [| left; inversion H; subst i'; exact E].
  ok_steps H. inversion H; subst i'. right. simpl. rewrite E.
  match goal with
  | Hl : lower_of ?c = Ok _ |- _ => destruct c; try discriminate Hl
  end.
  eexists _, _. split; [| reflexivity].
  intros ->. discriminate Ec.
Qed.

Lemma direct_format_entry (u : string) :
  u <> "" -> link_entry (Audiomack.direct_format u).
Proof. intros H. repeat split. now exists u. Qed.

(** The loop of lines 112-117 keeps entries of the list whose url counts as
    true, and keeps the url of every such entry. *)
Lemma fold_keep_new_url_members (l : list format_entry) :
  forall seen fs,
    (forall u, In u seen -> In u (map url fs)) ->
    let st := fold_left Audiomack.keep_new_url l (seen, fs) in
    (forall f, In f (snd st) -> In f fs \/ (In f l /\ truthy (url f) = true)) /\
    (forall f, In f fs -> In f (snd st)) /\
    (forall f, In f l -> str_url f -> truthy (url f) = true ->
               In (url f) (map url (snd st))).
Proof.
  induction l as [| x l IH]; intros seen fs Hseen; simpl.
  - repeat split; auto. intros f [].
  - destruct (truthy (url x) && negb (existsb (str_eqb (url x)) seen)) eqn:E.
    + destruct (IH (url x :: seen) (fs ++ [x])%list) as (H1 & H2 & H3).
      { intros u [<- | Hu]; rewrite map_app, in_app_iff; simpl; auto. }
      apply andb_true_iff in E as [Et _].
      split; [| split].
      * intros f Hf. apply H1 in Hf as [Hf | [Hf Ht]]; [| now auto].
        apply in_app_iff in Hf as [Hf | [<- | []]]; auto.
      * intros f Hf. apply H2. apply in_app_iff. now left.
      * intros f [<- | Hf] Hs Ht; [| now apply H3].
        apply in_map. apply H2. apply in_app_iff. right. now left.
    + destruct (IH seen fs Hseen) as (H1 & H2 & H3).
      split; [| split].
      * intros f Hf. apply H1 in Hf as [Hf | [Hf Ht]]; auto.
      * exact H2.
      * intros f [<- | Hf] Hs Ht; [| now apply H3].
        rewrite Ht in E. simpl in E. apply negb_false_iff in E.
        apply existsb_exists in E as (v & Hv & Ev).
        unfold str_url in Hs. destruct (url x) as [| | | | s | |] eqn:Ex;
          try discriminate Hs.
        apply str_eqb_iff in Ev. subst v.
        apply Hseen in Hv. apply in_map_iff in Hv as (f' & Hf' & Hin).
        rewrite <- Hf'. apply in_map. now apply H2.
Qed.

Lemma direct_url_not_empty (text u : string) :
  In u (Audiomack._find_direct_audio_urls text) -> u <> "".
Proof.
  intros H. apply direct_urls_members in H.
  apply audio_link_shape in H as ([H | H] & _); intros ->; discriminate H.
Qed.

(** X4: every format entry of a record the HTML extractor returns has a
    non-empty string as url and strings as format_id and ext, and every
    direct link found in the page is the url of one of the entries. *)
Theorem html_formats_offer_links (w : World) (u : string) (resp : response) (r : info) :
  send w (Get u [] DefaultHeaders false 15) = Ok resp ->
  outcome (Audiomack.extract_info w u) = Ok r ->
  Forall link_entry (formats r) /\
  (forall link, In link (Audiomack._find_direct_audio_urls (text resp)) ->
                In (PStr link) (map url (formats r))).
Proof.
  intros Hs H.
  apply audiomack_extract_info_ok in H as (resp' & i & Hs' & _ & Hi & Hr).
  rewrite Hs in Hs'. inversion Hs'; subst resp'. clear Hs'.
  rewrite (with_title_formats _ _ _ _ Hr).
  unfold Audiomack.scrape, Audiomack.heuristics in Hi.
  apply rbind_ok in Hi as (j & Hj & Hi).
  apply with_duration_formats in Hi. rewrite Hi. simpl.
  set (l := (formats j ++ map Audiomack.direct_format
                              (Audiomack._find_direct_audio_urls (text resp)))%list).
  assert (Forall link_entry l) as Hl.
  { apply Forall_app. split.
    - destruct (from_json_ld_entry _ _ _ Hj) as [-> | (e & s & Hne & ->)]; simpl.
      + constructor.
      + constructor; [| constructor]. repeat split. now exists s.
    - apply Forall_forall. intros f Hf. apply in_map_iff in Hf as (x & <- & Hx).
      apply direct_format_entry. exact (direct_url_not_empty _ _ Hx). }
  destruct (fold_keep_new_url_members l [] []) as (H1 & _ & H3); [intros ? [] |].
  split.
  - apply Forall_forall. intros f Hf. apply H1 in Hf as [[] | [Hf _]].
    revert f Hf. now apply Forall_forall.
  - intros link Hlink.
    apply (H3 (Audiomack.direct_format link)).
    + apply in_app_iff. right. now apply in_map.
    + reflexivity.
    + simpl. destruct link; [| reflexivity].
      now apply direct_url_not_empty in Hlink.
Qed.

Lemma html_formats_offer_links_witness :
  Forall link_entry (formats Scenario.song_record) /\
  (forall link, In link (Audiomack._find_direct_audio_urls Scenario.song_html) ->
                In (PStr link) (map url (formats Scenario.song_record))).
Proof.
  apply (html_formats_offer_links Scenario.song_world Scenario.song_url
           (Scenario.page 200 Scenario.song_html) Scenario.song_record eq_refl).
  vm_compute. reflexivity.
Defined.

(** ** Where the title comes from *)

Lemma from_json_ld_title (d : list (string * pyval)) (i i' : info) :
  Audiomack.from_json_ld (PDict d) i = Ok i' ->
  d <> [] ->
  title i' = por (por (field d "name") (field d "headline")) (title i).
Proof.
  unfold Audiomack.from_json_ld. intros H Hd.
  assert (truthy (PDict d) = true) as Etrue
    by (destruct d; [contradiction | reflexivity]).
  rewrite Etrue in H.
  apply rbind_ok in H as (name & Hn & H). apply rbind_ok in H as (t & Ht & H).
  simpl in Hn. inversion Hn; subst name. fold (field d "name") in Ht |- *.
  assert (t = por (por (field d "name") (field d "headline")) (title i)) as Et.
  { unfold por at 2. destruct (truthy (field d "name")) eqn:E.
    - inversion Ht. unfold por. now rewrite E.
    - simpl in Ht. now inversion Ht. }
  ok_steps H.
  match goal with
  | Hu : (if is_dict ?a then _ else _) = Ok ?j |- _ =>
      assert (title j = t) as E
        by (destruct (is_dict a);
            [ok_steps Hu; inversion Hu; reflexivity
            | destruct (is_str a); inversion Hu; reflexivity])
  end.
  rewrite <- Et, <- E.
  repeat match type of H with
         | (if ?b then _ else _) = Ok _ => destruct b
         | _ => progress ok_steps H
         end; inversion H; subst i'; reflexivity.
Qed.

Lemma meta_fallback_truthy (r : regex) (text : string) (v : pyval) :
  truthy v = true -> Audiomack.meta_fallback r text v = v.
Proof. intros H. unfold Audiomack.meta_fallback. now rewrite H. Qed.

Lemma with_duration_title (text : string) (i i' : info) :
  Audiomack.with_duration text i = Ok i' -> title i' = title i.
Proof.
  intros H. destruct (with_duration_cases text i) as [E | [(d & _ & E) | (n & _ & E)]];
    rewrite E in H; inversion H; reflexivity.
Qed.

(** The title of the record the heuristics leave, from the title of the
    JSON-LD step. *)
Lemma heuristics_title (json_ld : pyval) (text : string) (i : info) :
  Audiomack.heuristics json_ld text = Ok i ->
  exists j, Audiomack.from_json_ld json_ld Info.empty = Ok j /\
            title i = Audiomack.meta_fallback Audiomack.og_title_re text (title j).
Proof.
  unfold Audiomack.heuristics. intros H. apply rbind_ok in H as (j & Hj & H).
  exists j. split; [assumption |]. now apply with_duration_title in H.
Qed.

(** X5: when the structured-data block is an object whose name counts as
    true, the title of the record returned is that name; when the name is
    missing or counts as false and the headline counts as true, it is the
    headline, whatever the meta tags and the URL say. *)
Theorem title_from_structured_data (w : World) (u : string) (resp : response)
  (d : list (string * pyval)) (r : info) :
  send w (Get u [] DefaultHeaders false 15) = Ok resp ->
  Audiomack._find_json_ld w (text resp) = PDict d ->
  truthy (por (field d "name") (field d "headline")) = true ->
  outcome (Audiomack.extract_info w u) = Ok r ->
  title r = por (field d "name") (field d "headline").
Proof.
  intros Hs Hld Ht H.
  apply audiomack_extract_info_ok in H as (resp' & i & Hs' & _ & Hi & Hr).
  rewrite Hs in Hs'. inversion Hs'; subst resp'. clear Hs'.
  unfold Audiomack.scrape in Hi. rewrite Hld in Hi.
  apply heuristics_title in Hi as (j & Hj & Hi).
  assert (d <> []) as Hd.
  { intros ->. discriminate Ht. }
  apply from_json_ld_title in Hj; [| exact Hd].
  assert (title j = por (field d "name") (field d "headline")) as Ej
    by (rewrite Hj; unfold por at 1; now rewrite Ht).
  rewrite Ej, (meta_fallback_truthy _ _ _ Ht) in Hi.
  destruct (with_title_cases _ _ _ _ Hr) as [[_ ->] | (Hf & _)]; [exact Hi |].
  rewrite Hi in Hf. congruence.
Qed.

Lemma title_from_structured_data_witness :
  title Scenario.song_record = PStr "Night Drive".
Proof.
  apply (title_from_structured_data Scenario.song_world Scenario.song_url
           (Scenario.page 200 Scenario.song_html)
           [("name", PStr "Night Drive");
            ("audio", PDict [("contentUrl", PStr Scenario.song_mp3)])]
           Scenario.song_record eq_refl).
  - vm_compute. reflexivity.
  - reflexivity.
  - vm_compute. reflexivity.
Defined.









(** ** The title derived from the path *)

Lemma split_no_sep (c : ascii) (s x : string) :
  In x (split c s) -> all_chars (fun a => negb (Ascii.eqb a c)) x = true.
Proof.
  revert x. induction s as [| a s IH]; intros x; rewrite ?split_cons.
  - intros [<- | []]. reflexivity.
  - destruct (Ascii.eqb a c) eqn:E.
    + intros [<- | H]; [reflexivity | now apply IH].
    + destruct (split c s) as [| h r] eqn:Es.
      * intros [<- | []]. simpl. now rewrite E.
      * intros [<- | H].
        -- simpl. rewrite E. apply IH. now left.
        -- apply IH. now right.
Qed.

Lemma last_in (l : list string) (d : string) : l <> [] -> In (last l d) l.
Proof.
  induction l as [| x [| y l] IH]; intros H; [contradiction | now left |].
  right. apply IH. discriminate.
Qed.

(** X7: the title derived from a URL path is never empty and holds no
    slash. *)
Theorem path_title_is_one_segment (p : string) :
  is_empty (Audiomack.title_from_path p) = false /\
  no_slash (Audiomack.title_from_path p) = true.
Proof.
  split; [apply title_from_path_not_empty |].
  unfold Audiomack.title_from_path, last_item.
  destruct (is_empty (last _ _)); [reflexivity |].
  apply (split_no_sep "/" (strip_char "/" p)).
  apply last_in. apply split_not_nil.
Qed.

(** ** The downloader, whatever the stream and the disk do *)

Lemma rising_weaken (lo lo' hi : Z) (l : list Z) :
  (lo <= lo')%Z -> rising lo' hi l -> rising lo hi l.
Proof. destruct l; simpl; intros H; [lia | intros [H1 H2]; split; [lia | assumption]]. Qed.

Lemma rising_extend (lo hi hi' : Z) (l : list Z) :
  (hi <= hi')%Z -> rising lo hi l -> rising lo hi' l.
Proof.
  revert lo. induction l as [| x l IH]; simpl; intros lo H.
  - lia.
  - intros [H1 H2]. split; [assumption | now apply IH].
Qed.

Lemma bytes_cons (c : string) (cs : list string) : bytes (c :: cs) = c ++ bytes cs.
Proof. reflexivity. Qed.

Lemma size_append (a b : string) : size (a ++ b) = (size a + size b)%Z.
Proof. unfold size. rewrite length_append. lia. Qed.

Lemma size_nonneg (a : string) : (0 <= size a)%Z.
Proof. unfold size. lia. Qed.

Lemma size_pos (a : string) : is_empty a = false -> (0 < size a)%Z.
Proof. destruct a; [discriminate |]. unfold size. simpl. lia. Qed.

(** The state in which the loop of lines 167-182 stops: it has written and
    counted the first [k] chunks, all of them when it ends normally, and
    each report it made carries the count reached at that point. *)
Lemma receive_trace (w : World) (cb : bool) (total : Z) (cs : list string) :
  forall (n : nat) (st : Audiomack.progress),
  exists k evs,
    snd (Audiomack.receive w cb total cs n st) =
      Audiomack.Progress
        (Audiomack.downloaded st + size (bytes (firstn k cs)))
        (Audiomack.written st ++ bytes (firstn k cs))
        (Audiomack.calls st ++ evs)%list /\
    (fst (Audiomack.receive w cb total cs n st) = Ok tt -> firstn k cs = cs) /\
    Forall (fun e => Audiomack.status e = "downloading" /\
                     Audiomack.total_bytes e = total) evs /\
    rising (Audiomack.downloaded st)
           (Audiomack.downloaded st + size (bytes (firstn k cs)))
           (map Audiomack.downloaded_bytes evs) /\
    (cb = false -> evs = []).
Proof.
  induction cs as [| chunk more IH]; intros n st.
  - exists 0%nat, []. simpl. rewrite append_empty_r, app_nil_r.
    unfold size. simpl. rewrite Z.add_0_r.
    destruct st. split; [reflexivity |]. split; [reflexivity |].
    split; [constructor |]. split; [simpl; lia | reflexivity].
  - cbn [Audiomack.receive].
    destruct (is_empty chunk) eqn:He.
    + destruct (IH (S n) st) as (k & evs & E & Hall & Hev & Hr & Hcb).
      exists (S k), evs. destruct chunk; [| discriminate He].
      cbn [firstn]. rewrite bytes_cons. cbn [String.append].
      split; [assumption |]. split; [| split; [| split]]; try assumption.
      intros H. now rewrite (Hall H).
    + destruct (write w n chunk) as [e |].
      * exists 0%nat, []. simpl. rewrite append_empty_r, app_nil_r.
        unfold size. simpl. rewrite Z.add_0_r.
        destruct st. split; [reflexivity |]. split; [discriminate |].
        split; [constructor |]. split; [simpl; lia | reflexivity].
      * pose proof (size_pos _ He) as Hpos. fold (size chunk). cbv zeta.
        cbn [Audiomack.downloaded Audiomack.written Audiomack.calls].
        destruct cb.
        -- destruct (Audiomack.percent _ total) as [pc | e].
           ++ match goal with
              | |- context [Audiomack.receive w true total more (S n) ?st'] =>
                  destruct (IH (S n) st') as (k & evs & E & Hall & Hev & Hr & Hcb)
              end.
              cbn [Audiomack.downloaded Audiomack.written Audiomack.calls] in E, Hr.
              eexists (S k), (_ :: evs). cbn [firstn]. rewrite bytes_cons, size_append.
              rewrite E.
              split; [now rewrite Z.add_assoc, append_assoc, <- app_assoc |].
              split; [intros H; now rewrite (Hall H) |].
              split; [constructor; [now split | assumption] |].
              split; [| discriminate].
              cbn [map Audiomack.downloaded_bytes rising]. split; [lia |].
              now rewrite Z.add_assoc.
           ++ exists 1%nat, []. cbn [firstn]. rewrite bytes_cons. simpl.
              rewrite !append_empty_r, app_nil_r.
              split; [reflexivity |]. split; [discriminate |].
              split; [constructor |]. split; [| reflexivity].
              simpl. pose proof (size_nonneg chunk). lia.
        -- match goal with
           | |- context [Audiomack.receive w false total more (S n) ?st'] =>
               destruct (IH (S n) st') as (k & evs & E & Hall & Hev & Hr & Hcb)
           end.
           cbn [Audiomack.downloaded Audiomack.written Audiomack.calls] in E, Hr.
           exists (S k), evs. cbn [firstn]. rewrite bytes_cons, size_append.
           rewrite E.
           split; [now rewrite Z.add_assoc, append_assoc |].
           split; [intros H; now rewrite (Hall H) |].
           split; [assumption |]. split; [| assumption].
           rewrite Z.add_assoc. apply (rising_weaken _ (Audiomack.downloaded st + size chunk));
             [lia | exact Hr].
Qed.

(** What the [try] block of lines 165-193 leaves behind. *)
Lemma save_shape (w : World) (resp : response) (p : string) (cb : bool) (total : Z) :
  snd (Audiomack.save w resp p cb total) = Audiomack.Effects None [] /\
  (exists e, fst (Audiomack.save w resp p cb total) = Raise e) \/
  exists k evs,
    Forall (fun e => Audiomack.status e = "downloading" /\
                     Audiomack.total_bytes e = total) evs /\
    rising 0 (size (bytes (firstn k (chunks resp))))
           (map Audiomack.downloaded_bytes evs) /\
    (cb = false -> evs = []) /\
    ((exists e, fst (Audiomack.save w resp p cb total) = Raise e) /\
     snd (Audiomack.save w resp p cb total) =
       Audiomack.Effects (Some (bytes (firstn k (chunks resp)))) evs
     \/
     firstn k (chunks resp) = chunks resp /\
     Audiomack.save w resp p cb total =
       (Ok tt,
        Audiomack.Effects (Some (bytes (chunks resp)))
          (if cb
           then evs ++ [Audiomack.Event "finished" (size (bytes (chunks resp)))
                          total 100 None]
           else evs)%list)).
Proof.
  unfold Audiomack.save.
  destruct (open_wb w p) as [e |].
  - left. split; [reflexivity |].
    destruct (caught_by e OSError); eexists; reflexivity.
  - right.
    destruct (receive_trace w cb total (chunks resp) 0 (Audiomack.Progress 0 "" []))
      as (k & evs & E & Hall & Hev & Hr & Hcb).
    cbn [Audiomack.downloaded Audiomack.written Audiomack.calls] in E, Hr.
    rewrite Z.add_0_l in E, Hr. cbn [String.append app] in E.
    exists k, evs. split; [assumption |]. split; [assumption |]. split; [assumption |].
    destruct (Audiomack.receive w cb total (chunks resp) 0 _) as [[[] | e] st].
    + simpl in E. subst st. cbn [Audiomack.downloaded Audiomack.written Audiomack.calls].
      rewrite (Hall eq_refl).
      destruct (stream_error resp) as [e |].
      * left. split; [| reflexivity].
        destruct (caught_by e OSError); eexists; reflexivity.
      * right. split; [reflexivity |]. destruct cb; reflexivity.
    + simpl in E. subst st. left. split; [| reflexivity].
      destruct (caught_by e OSError); eexists; reflexivity.
Qed.

(** The download stops before the [try] block, or is the [try] block. *)
Lemma download_direct_cases (w : World) (u p : string) (cb : bool) (timeout : Z) :
  (exists e, Audiomack.download_direct w u p cb timeout
             = (Raise e, Audiomack.Effects None [])) \/
  exists resp total,
    send w (Get u [] DefaultHeaders true timeout) = Ok resp /\
    status_code resp = 200%Z /\
    Audiomack.total_of resp = Ok total /\
    Audiomack.download_direct w u p cb timeout = Audiomack.save w resp p cb total.
Proof.
  unfold Audiomack.download_direct.
  destruct (send w _) as [resp | e] eqn:Hs.
  - destruct (status_code resp =? 403)%Z; [left; eexists; reflexivity |].
    destruct (status_code resp =? 404)%Z; [left; eexists; reflexivity |].
    destruct (Z.eqb_spec (status_code resp) 200) as [E | E];
      [| left; eexists; reflexivity].
    cbn [negb].
    destruct (Audiomack.total_of resp) as [total | e] eqn:Et;
      [| left; eexists; reflexivity].
    destruct (makedirs w _); [left; eexists; reflexivity |].
    right. now exists resp, total.
  - left. destruct (caught_by e Timeout); [eexists; reflexivity |].
    destruct (caught_by e ConnectionError); [eexists; reflexivity |].
    destruct (caught_by e RequestException); eexists; reflexivity.
Qed.

(** X8: a download that cannot start leaves nothing behind: when the request
    raises, or the answer has a status other than 200, [download_direct]
    raises, the destination file is not created and the progress callback is
    never called. *)
Theorem refused_download_leaves_nothing (w : World) (u p : string) (cb : bool)
  (timeout : Z) :
  (forall resp, send w (Get u [] DefaultHeaders true timeout) = Ok resp ->
                status_code resp <> 200%Z) ->
  exists e, Audiomack.download_direct w u p cb timeout
            = (Raise e, Audiomack.Effects None []).
Proof.
  intros H.
  destruct (download_direct_cases w u p cb timeout)
    as [He | (resp & total & Hs & H200 & _)]; [exact He |].
  now apply H in Hs.
Qed.

Lemma refused_download_leaves_nothing_witness :
  exists e, Audiomack.download_direct Scenario2.forbidden_world Scenario.audio_url
              "downloads/night-drive.mp3" true 15
            = (Raise e, Audiomack.Effects None []).
Proof.
  apply refused_download_leaves_nothing.
  intros resp H. vm_compute in H. inversion H. discriminate.
Defined.

(** X9: a download that returns normally has written the whole stream:
    the file holds the bytes of all the chunks, and the callback, if one was
    passed, was called a last time with status finished, the number of
    bytes written and percentage 100, whatever the Content-Length header
    announced. *)
Theorem completed_download (w : World) (u p : string) (cb : bool) (timeout : Z)
  (eff : Audiomack.effects) :
  Audiomack.download_direct w u p cb timeout = (Ok tt, eff) ->
  exists resp total reports,
    send w (Get u [] DefaultHeaders true timeout) = Ok resp /\
    Audiomack.total_of resp = Ok total /\
    Audiomack.file eff = Some (bytes (chunks resp)) /\
    Forall (fun e => Audiomack.status e = "downloading") reports /\
    Audiomack.events eff =
      (if cb
       then reports ++ [Audiomack.Event "finished" (size (bytes (chunks resp)))
                          total 100 None]
       else [])%list.
Proof.
  intros H.
  destruct (download_direct_cases w u p cb timeout)
    as [[e He] | (resp & total & Hs & H200 & Ht & Hd)]; [congruence |].
  rewrite Hd in H.
  destruct (save_shape w resp p cb total)
    as [[_ [e He]] | (k & evs & Hev & _ & Hcb & [[[e He] _] | [_ Hok]])];
    try (rewrite H in He; discriminate He).
  rewrite H in Hok. inversion Hok; subst eff.
  exists resp, total, evs. repeat split; try assumption.
  - revert Hev. apply Forall_impl. now intros e [He _].
  - simpl. destruct cb; [reflexivity |]. now rewrite (Hcb eq_refl).
Qed.

Lemma completed_download_witness :
  exists resp total reports,
    send Scenario2.short_stream_world (Get Scenario.audio_url [] DefaultHeaders true 15)
      = Ok resp /\
    Audiomack.total_of resp = Ok total /\
    Some "ID3data" = Some (bytes (chunks resp)) /\
    Forall (fun e => Audiomack.status e = "downloading") reports /\
    [Audiomack.Event "downloading" 3 10 30 (Some 0%Z);
     Audiomack.Event "downloading" 7 10 70 (Some 0%Z);
     Audiomack.Event "finished" 7 10 100 None] =
      (reports ++ [Audiomack.Event "finished" (size (bytes (chunks resp)))
                     total 100 None])%list.
Proof.
  apply (completed_download Scenario2.short_stream_world Scenario.audio_url
           "downloads/night-drive.mp3" true 15
           (Audiomack.Effects (Some "ID3data")
              [Audiomack.Event "downloading" 3 10 30 (Some 0%Z);
               Audiomack.Event "downloading" 7 10 70 (Some 0%Z);
               Audiomack.Event "finished" 7 10 100 None])).
  vm_compute. reflexivity.
Defined.



(** X11: when the stream breaks after some chunks (a failure of the
    requests library, which is an IOError) on a response without
    Content-Length and a disk that accepts the writes, [download_direct]
    raises the error worded as a failure to write the audio file, the
    chunks received stay in the destination file, and no report with status
    finished is made. *)
Theorem broken_stream_keeps_partial_file (w : World) (u p : string) (cb : bool)
  (timeout : Z) (resp : response) (e : exn) :
  send w (Get u [] DefaultHeaders true timeout) = Ok resp ->
  status_code resp = 200%Z ->
  content_length resp = None ->
  stream_error resp = Some e ->
  caught_by e OSError = true ->
  disk_accepts w p ->
  exists reports,
    Forall reports_zero reports /\
    Audiomack.download_direct w u p cb timeout =
    (Raise (Exn Exception ("Failed to write audio file: " ++ str_exn e
                             ++ ". Check disk space and permissions.")),
     Audiomack.Effects (Some (bytes (chunks resp))) reports).
Proof.
  intros Hs H200 Hcl Herr Hio (Hmk & Hop & Hwr).
  rewrite (download_direct_streaming _ _ _ _ _ _ Hs H200).
  unfold Audiomack.total_of. rewrite Hcl. cbv zeta. rewrite Hmk.
  unfold Audiomack.save. rewrite Hop.
  destruct (receive_no_total w cb (chunks resp) Hwr 0 (Audiomack.Progress 0 "" []))
    as (evs & E & Hevs & _).
  rewrite E, Herr, Hio. simpl. now exists evs.
Qed.

Lemma broken_stream_keeps_partial_file_witness :
  exists reports,
    Forall reports_zero reports /\
    Audiomack.download_direct Scenario2.broken_world Scenario.audio_url
      "downloads/night-drive.mp3" true 15 =
    (Raise (Exn Exception
              "Failed to write audio file: Connection broken: IncompleteRead. Check disk space and permissions."),
     Audiomack.Effects (Some "ID3data") reports).
Proof.
  apply (broken_stream_keeps_partial_file Scenario2.broken_world Scenario.audio_url
           "downloads/night-drive.mp3" true 15
           (Response 200 "" Scenario.not_json None ["ID3"; "data"] (Some Scenario2.reset))
           Scenario2.reset eq_refl eq_refl eq_refl eq_refl eq_refl).
  split; [reflexivity | split; reflexivity].
Defined.

(** ** The vendor client: URLs *)

Lemma parse_spotify_url_cases (w : World) (u : string) :
  Spotify._parse_spotify_url w u =
  match urlparse w u with
  | Raise _ => (None, None)
  | Ok parsed =>
      if contains "spotify" (lower (netloc parsed))
      then match split "/" (strip_char "/" (path parsed)) with
           | a :: b :: _ => (Some a, Some b)
           | _ => (None, None)
           end
      else (None, None)
  end.
Proof.
  unfold Spotify._parse_spotify_url.
  destruct (urlparse w u) as [parsed | e]; [| reflexivity].
  destruct (contains "spotify" (lower (netloc parsed))) eqn:E.
  - now rewrite andb_false_r.
  - assert (contains "open.spotify.com" (lower (netloc parsed)) = false) as ->;
      [| reflexivity].
    destruct (contains "open.spotify.com" (lower (netloc parsed))) eqn:E';
      [| reflexivity].
    apply (contains_part "open." "spotify" ".com") in E'. congruence.
Qed.

(** X12: [_parse_spotify_url] accepts a URL exactly when it parses, its
    host, in lower case, contains the word spotify anywhere (the test for
    open.spotify.com adds nothing), and its path, without the slashes at
    its ends, has two segments or more; it then returns the first two. *)
Theorem parse_spotify_url_accepts (w : World) (u a b : string) :
  Spotify._parse_spotify_url w u = (Some a, Some b) <->
  exists parsed rest,
    urlparse w u = Ok parsed /\
    contains "spotify" (lower (netloc parsed)) = true /\
    split "/" (strip_char "/" (path parsed)) = a :: b :: rest.
Proof.
  rewrite parse_spotify_url_cases. split.
  - destruct (urlparse w u) as [parsed | e]; [| discriminate].
    destruct (contains "spotify" (lower (netloc parsed))) eqn:Eh; [| discriminate].
    destruct (split "/" (strip_char "/" (path parsed))) as [| x [| y rest]] eqn:Es;
      try discriminate.
    intros H. inversion H; subst x y. now exists parsed, rest.
  - intros (parsed & rest & -> & -> & ->). reflexivity.
Qed.

(** X13: for a URL that [_parse_spotify_url] does not accept, or whose type
    or id segment is empty, [extract_info] raises the invalid-URL error and
    sends no request at all, whatever credentials are configured. *)
Theorem invalid_url_sends_nothing (w : World) (u : string) :
  (forall a b, Spotify._parse_spotify_url w u = (Some a, Some b) ->
               is_empty a = true \/ is_empty b = true) ->
  run (Spotify.extract_info w u) = (Raise (Exn Exception "Invalid Spotify URL"), []).
Proof.
  intros H. unfold run, Spotify.extract_info.
  destruct (Spotify._parse_spotify_url w u) as [[a |] [b |]]; try reflexivity.
  destruct (H a b eq_refl) as [-> | ->]; [reflexivity |].
  now rewrite orb_true_r.
Qed.

Lemma invalid_url_sends_nothing_witness :
  run (Spotify.extract_info Scenario2.other_host_world
         "https://music.example.com/track/4uLU6hMC")
  = (Raise (Exn Exception "Invalid Spotify URL"), []).
Proof.
  apply invalid_url_sends_nothing.
  intros a b H. vm_compute in H. discriminate H.
Defined.

(** ** The vendor client: the resource request *)

Lemma dispatch_endpoint (w : World) (typ id : string) (h : headers) (i : info) :
  Spotify.dispatch w typ id h i =
  match endpoint_of typ with
  | Some endpoint =>
      Spotify.resource w endpoint id h
        (if String.eqb typ "track" then Spotify.track_info
         else if String.eqb typ "album" then Spotify.album_info
         else Spotify.playlist_info) i
  | None => throw Exception "Unsupported Spotify resource type"
  end.
Proof.
  unfold Spotify.dispatch, endpoint_of.
  destruct (String.eqb typ "track"); [reflexivity |].
  destruct (String.eqb typ "album"); [reflexivity |].
  destruct (String.eqb typ "playlist"); reflexivity.
Qed.

Lemma resource_request_sent (w : World) (u typ id endpoint : string) (h : headers) :
  Spotify._parse_spotify_url w u = (Some typ, Some id) ->
  is_empty typ = false -> is_empty id = false ->
  outcome (Spotify._get_auth_headers w) = Ok h ->
  endpoint_of typ = Some endpoint ->
  sent (Spotify.extract_info w u) =
    (sent (Spotify._get_auth_headers w) ++ [resource_call endpoint id h])%list.
Proof.
  intros Hp Ht Hi Ha He.
  pose proof (extract_info_sent _ _ _ _ Hp Ht Hi) as Hsent.
  rewrite Ha in Hsent. rewrite dispatch_endpoint, He in Hsent.
  now rewrite resource_sent in Hsent.
Qed.

(** X14: with headers at hand, a resource type other than track, album and
    playlist makes [extract_info] raise the unsupported-type error after
    the requests made for the headers and no other; for each of the three
    types exactly one more request is sent, to the endpoint of that type
    with those headers, and an answer with a status other than 200 makes
    [extract_info] raise an error that carries the status and the body. *)
Theorem one_resource_request (w : World) (u typ id : string) (h : headers) :
  Spotify._parse_spotify_url w u = (Some typ, Some id) ->
  is_empty typ = false -> is_empty id = false ->
  outcome (Spotify._get_auth_headers w) = Ok h ->
  match endpoint_of typ with
  | None =>
      run (Spotify.extract_info w u) =
      (Raise (Exn Exception "Unsupported Spotify resource type"),
       sent (Spotify._get_auth_headers w))
  | Some endpoint =>
      sent (Spotify.extract_info w u) =
        (sent (Spotify._get_auth_headers w) ++ [resource_call endpoint id h])%list /\
      (forall resp,
          send w (resource_call endpoint id h) = Ok resp ->
          status_code resp <> 200%Z ->
          outcome (Spotify.extract_info w u) =
          Raise (Exn Exception ("Spotify API error: " ++ str_of_Z (status_code resp)
                                  ++ " " ++ text resp)))
  end.
Proof.
  intros Hp Ht Hi Ha.
  pose proof (spotify_extract_info_parsed _ _ _ _ Hp Ht Hi) as Hout.
  pose proof (extract_info_sent _ _ _ _ Hp Ht Hi) as Hsent.
  rewrite Ha in Hout, Hsent. rewrite dispatch_endpoint in Hout, Hsent.
  destruct (endpoint_of typ) as [endpoint |] eqn:He.
  - split; [exact (resource_request_sent _ _ _ _ _ _ Hp Ht Hi Ha He) |].
    intros resp Hs Hst. rewrite Hout, resource_outcome.
    unfold resource_call in Hs. rewrite Hs. cbn [rbind].
    destruct (Z.eqb_spec (status_code resp) 200) as [E | E]; [contradiction |].
    reflexivity.
  - unfold run. unfold outcome, sent, run in Hout, Hsent.
    destruct (Spotify.extract_info w u []) as [o s]. simpl in Hout, Hsent.
    now rewrite Hout, Hsent.
Qed.

Lemma one_resource_request_witness :
  run (Spotify.extract_info Scenario2.artist_world "https://open.spotify.com/artist/0C0XlULi")
    = (Raise (Exn Exception "Unsupported Spotify resource type"), []) /\
  outcome (Spotify.extract_info Scenario2.throttled_world
             "https://open.spotify.com/album/4aawyAB9")
    = Raise (Exn Exception "Spotify API error: 429 rate limited").
Proof.
  split.
  - exact (one_resource_request Scenario2.artist_world
             "https://open.spotify.com/artist/0C0XlULi" "artist" "0C0XlULi"
             (Authorization (PStr "BQDtoken")) eq_refl eq_refl eq_refl eq_refl).
  - destruct (one_resource_request Scenario2.throttled_world
                "https://open.spotify.com/album/4aawyAB9" "album" "4aawyAB9"
                (Authorization (PStr "BQDtoken")) eq_refl eq_refl eq_refl eq_refl)
      as [_ H].
    apply (H (Response 429 "rate limited" Scenario.not_json None [] None)).
    + reflexivity.
    + discriminate.
Defined.

(** ** The vendor client: albums and playlists *)

Lemma track_format_listing (t : pyval) (f : format_entry) :
  Spotify.track_format t = Ok f -> listing_entry f.
Proof.
  unfold Spotify.track_format. intros H. ok_steps H.
  inversion H; subst f. unfold listing_entry. simpl.
  match goal with
  | H1 : get t "preview_url" = Ok ?a, H2 : get t "preview_url" = Ok ?b |- _ =>
      rewrite H1 in H2; inversion H2; subst; reflexivity
  end.
Qed.

Lemma album_formats_listing (ts : list pyval) :
  forall fs, Spotify.album_formats ts = Ok fs ->
             length fs = length ts /\ Forall listing_entry fs.
Proof.
  induction ts as [| t ts IH]; intros fs H; simpl in H.
  - inversion H. split; [reflexivity | constructor].
  - ok_steps H. inversion H; subst fs.
    match goal with
    | Hf : Spotify.track_format t = Ok ?f, Hr : Spotify.album_formats ts = Ok ?r |- _ =>
        destruct (IH _ Hr) as [Hlen Hall]; apply track_format_listing in Hf
    end.
    split; [simpl; now rewrite Hlen | now constructor].
Qed.

Lemma playlist_formats_listing (items : list pyval) :
  forall fs, Spotify.playlist_formats items = Ok fs ->
             length fs = length items /\ Forall listing_entry fs.
Proof.
  induction items as [| t ts IH]; intros fs H; simpl in H.
  - inversion H. split; [reflexivity | constructor].
  - ok_steps H. inversion H; subst fs.
    match goal with
    | Hf : Spotify.track_format _ = Ok ?f, Hr : Spotify.playlist_formats ts = Ok ?r |- _ =>
        destruct (IH _ Hr) as [Hlen Hall]; apply track_format_listing in Hf
    end.
    split; [simpl; now rewrite Hlen | now constructor].
Qed.

Lemma with_first_image_duration (images : pyval) (i i' : info) :
  Spotify.with_first_image images i = Ok i' -> duration i' = duration i.
Proof.
  unfold Spotify.with_first_image. intros H. destruct (truthy images).
  - ok_steps H. now inversion H.
  - now inversion H.
Qed.

(** X15: the record of an album or of a playlist has one format entry for
    each listed item, none dropped; the ext of an entry is preview when its
    url counts as true and none otherwise; and the duration of the record
    is unset. *)
Theorem listing_records (data : pyval) (r : info) :
  Spotify.album_info data Info.empty = Ok r \/
  Spotify.playlist_info data Info.empty = Ok r ->
  duration r = PNone /\
  Forall listing_entry (formats r) /\
  exists items, listed_items data items /\ length (formats r) = length items.
Proof.
  intros [H | H].
  - unfold Spotify.album_info in H. ok_steps H. inversion H; subst r. simpl.
    match goal with
    | Hi : Spotify.with_first_image _ _ = Ok _,
      Hf : Spotify.album_formats ?ts = Ok ?fs |- _ =>
        apply with_first_image_duration in Hi;
        destruct (album_formats_listing _ _ Hf) as [Hlen Hall];
        split; [exact Hi | split; [exact Hall |]];
        exists ts; split; [| exact Hlen]
    end.
    eexists _, _. repeat split; eassumption.
  - unfold Spotify.playlist_info in H. ok_steps H. inversion H; subst r. simpl.
    match goal with
    | Hi : Spotify.with_first_image _ _ = Ok _,
      Hf : Spotify.playlist_formats ?ts = Ok ?fs |- _ =>
        apply with_first_image_duration in Hi;
        destruct (playlist_formats_listing _ _ Hf) as [Hlen Hall];
        split; [exact Hi | split; [exact Hall |]];
        exists ts; split; [| exact Hlen]
    end.
    eexists _, _. repeat split; eassumption.
Qed.

Lemma listing_records_witness :
  Forall listing_entry (formats Scenario.playlist_record) /\
  exists items, listed_items Scenario.playlist_data items /\
                length (formats Scenario.playlist_record) = length items.
Proof.
  destruct (listing_records Scenario.playlist_data Scenario.playlist_record) as (_ & H).
  - right. reflexivity.
  - exact H.
Defined.

Lemma track_format_dict (d : list (string * pyval)) :
  exists f, Spotify.track_format (PDict d) = Ok f.
Proof. unfold Spotify.track_format. simpl. now eexists. Qed.

(** X16: a playlist item whose track is missing or null does not stop the
    mapping: for a list of items that are objects, each with a track that
    is missing, counts as false or is an object, the mapping returns one
    entry for each item, and the entry of an item without a track has no
    id and no url, and ext none. *)
Theorem playlist_item_without_track (items : list pyval) :
  forallb playlist_item_shape items = true ->
  exists fs,
    Spotify.playlist_formats items = Ok fs /\
    Forall2 (fun item f => trackless item = true -> f = no_track_entry) items fs.
Proof.
  induction items as [| item items IH]; intros H.
  - exists []. split; [reflexivity | constructor].
  - simpl in H. apply andb_true_iff in H as [Hi Hl].
    destruct (IH Hl) as (fs & Hfs & Hall).
    destruct item as [| | | | | | d]; try discriminate Hi.
    cbn [Spotify.playlist_formats]. unfold get at 1. unfold get_default at 1.
    cbn [rbind]. simpl in Hi.
    destruct (dict_get d "track") as [t |] eqn:Et.
    + destruct (truthy t) eqn:Ett.
      * simpl in Hi. destruct t as [| | | | | | td]; try discriminate Hi.
        unfold por. rewrite Ett.
        destruct (track_format_dict td) as [f Hf]. rewrite Hf, Hfs. cbn [rbind].
        exists (f :: fs). split; [reflexivity |].
        constructor; [| exact Hall]. simpl. rewrite Et, Ett. discriminate.
      * unfold por. rewrite Ett.
        exists (no_track_entry :: fs). split; [now rewrite Hfs |].
        constructor; [reflexivity | exact Hall].
    + exists (no_track_entry :: fs). split; [now rewrite Hfs |].
      constructor; [reflexivity | exact Hall].
Qed.

Lemma playlist_item_without_track_witness :
  exists fs,
    Spotify.playlist_formats
      [Scenario.playlist_item; PDict [("track", PNone)]; PDict []] = Ok fs /\
    Forall2 (fun item f => trackless item = true -> f = no_track_entry)
            [Scenario.playlist_item; PDict [("track", PNone)]; PDict []] fs.
Proof.
  apply (playlist_item_without_track
           [Scenario.playlist_item; PDict [("track", PNone)]; PDict []]).
  reflexivity.
Defined.

(** ** The vendor client: the uploader of a track *)

Lemma names_of_artist_names (l : list pyval) :
  forallb artist_shape l = true ->
  Spotify.names_of l = Ok (map PStr (artist_names l)).
Proof.
  induction l as [| a l IH]; [reflexivity |]. simpl. intros H.
  apply andb_true_iff in H as [Ha Hl].
  destruct a as [| | | | | | d]; try discriminate Ha. simpl in Ha |- *.
  rewrite (IH Hl). simpl.
  destruct (dict_get d "name") as [v |]; [| reflexivity].
  destruct v as [| | | | s | |]; simpl in Ha |- *;
    try (apply negb_true_iff in Ha; simpl in Ha; rewrite Ha; reflexivity);
    try reflexivity.
  now destruct (is_empty s).
Qed.

Lemma strings_of_strings (ns : list string) (k : nat) :
  Spotify.strings_of k (map PStr ns) = Ok ns.
Proof.
  revert k. induction ns as [| n ns IH]; intros k; [reflexivity |].
  simpl. now rewrite IH.
Qed.

(** X17: the uploader of a track record is the names of the listed artists
    joined by a comma and a space, in the order listed, artists without a
    name left out; it is unset when no artist has a name. *)
Theorem track_uploader (data : list (string * pyval)) (l : list pyval) (i r : info) :
  dict_get data "artists" = Some (PList l) ->
  forallb artist_shape l = true ->
  Spotify.track_info (PDict data) i = Ok r ->
  uploader r = match artist_names l with
               | [] => PNone
               | ns => PStr (join ", " ns)
               end.
Proof.
  intros Hl Hshape H.
  assert (Spotify.listed_artists (PDict data) =
          Ok (match artist_names l with [] => PNone | ns => PStr (join ", " ns) end))
    as Hu.
  { unfold Spotify.listed_artists. simpl. rewrite Hl. simpl.
    rewrite (names_of_artist_names _ Hshape). simpl. unfold Spotify.joined.
    destruct (artist_names l) as [| n ns]; [reflexivity |].
    change (PStr n :: map PStr ns) with (map PStr (n :: ns)).
    now rewrite strings_of_strings. }
  unfold Spotify.track_info in H. apply rbind_ok in H as (name & _ & H).
  rewrite Hu in H. cbn [rbind] in H.
  apply rbind_ok in H as (j & Hj & H).
  assert (uploader j = match artist_names l with [] => PNone | ns => PStr (join ", " ns) end)
    as Ej.
  { unfold Spotify.album_image in Hj. ok_steps Hj.
    unfold Spotify.with_first_image in Hj.
    match type of Hj with
    | (if ?b then _ else _) = _ => destruct b
    end; [ok_steps Hj |]; now inversion Hj. }
  ok_steps H.
  match type of H with
  | (if ?b then _ else _) = _ => destruct b
  end; inversion H; subst r; exact Ej.
Qed.

Lemma track_uploader_witness :
  uploader Scenario.track_record = PStr "The Killers".
Proof.
  apply (track_uploader
           [("name", PStr "Mr. Brightside");
            ("artists", PList [PDict [("name", PStr "The Killers")]]);
            ("album",
             PDict [("images", PList [PDict [("url", PStr "https://i.scdn.co/image/ab67")]])]);
            ("duration_ms", PInt 210000);
            ("preview_url", PStr Scenario.preview_mp3)]
           [PDict [("name", PStr "The Killers")]] Info.empty Scenario.track_record);
    reflexivity.
Defined.

Example uploader_of_two_artists :
  Spotify.listed_artists
    (PDict [("artists", PList [PDict [("name", PStr "Queen")]; PDict [];
                               PDict [("name", PStr "David Bowie")]])])
  = Ok (PStr "Queen, David Bowie").
Proof. reflexivity. Qed.

(** ** The vendor client: a token answer without a token *)

(** X18: when the token endpoint answers 200 with an object that has no
    access_token, [_get_auth_headers] raises nothing: it returns an
    Authorization header built from [None].  The extraction then goes on to
    the resource request with that header; the embed endpoint is not
    tried. *)
Theorem token_answer_without_token (w : World) (u typ id endpoint ci cs : string)
  (resp : response) (d : list (string * pyval)) :
  Spotify.configured (environ w "SPOTIFY_BEARER_TOKEN") = false ->
  environ w "SPOTIFY_CLIENT_ID" = Some ci ->
  environ w "SPOTIFY_CLIENT_SECRET" = Some cs ->
  is_empty ci = false -> is_empty cs = false ->
  send w (exchange ci cs) = Ok resp ->
  status_code resp = 200%Z ->
  json resp = Ok (PDict d) ->
  dict_get d "access_token" = None ->
  Spotify._parse_spotify_url w u = (Some typ, Some id) ->
  is_empty typ = false -> is_empty id = false ->
  endpoint_of typ = Some endpoint ->
  run (Spotify._get_auth_headers w) = (Ok (Authorization PNone), [exchange ci cs]) /\
  sent (Spotify.extract_info w u) =
    [exchange ci cs; resource_call endpoint id (Authorization PNone)].
Proof.
  intros Hb Hci Hcs Ei Es Hs H200 Hj Hd Hp Ht Hi He.
  assert (run (Spotify._get_auth_headers w)
          = (Ok (Authorization PNone), [exchange ci cs])) as Hrun.
  { unfold run. rewrite (auth_headers_unconfigured _ _ Hb).
    unfold bind, Spotify.get_access_token, Spotify._get_client_credentials.
    rewrite Hci, Hcs. simpl. rewrite Ei, Es. simpl.
    unfold bind, request_. fold (exchange ci cs). rewrite Hs, H200. simpl.
    rewrite Hj. simpl. now rewrite Hd. }
  split; [exact Hrun |].
  assert (outcome (Spotify._get_auth_headers w) = Ok (Authorization PNone)) as Ha
    by (unfold outcome; now rewrite Hrun).
  rewrite (resource_request_sent _ _ _ _ _ _ Hp Ht Hi Ha He).
  unfold sent. now rewrite Hrun.
Qed.

Lemma token_answer_without_token_witness :
  run (Spotify._get_auth_headers Scenario2.tokenless_world)
    = (Ok (Authorization PNone), [exchange "client-id" "client-secret"]) /\
  sent (Spotify.extract_info Scenario2.tokenless_world Scenario.track_url) =
    [exchange "client-id" "client-secret";
     resource_call "tracks" "4uLU6hMC" (Authorization PNone)].
Proof.
  apply (token_answer_without_token Scenario2.tokenless_world Scenario.track_url
           "track" "4uLU6hMC" "tracks" "client-id" "client-secret"
           (Scenario.api 200 (PDict [("error", PStr "unsupported")]))
           [("error", PStr "unsupported")]);
    reflexivity.
Defined.

(** ** Lists that are present but empty *)

(** X19: an authenticated extraction for an album whose resource object has
    an empty artists list raises an IndexError that nothing handles; when
    the artists key is missing the default, a list of one empty object, is
    used instead, and a record returned has its uploader unset. *)
Theorem album_without_artists (w : World) (u id : string) (h : headers)
  (resp : response) (data : list (string * pyval)) :
  Spotify._parse_spotify_url w u = (Some "album", Some id) ->
  is_empty id = false ->
  outcome (Spotify._get_auth_headers w) = Ok h ->
  send w (resource_call "albums" id h) = Ok resp ->
  status_code resp = 200%Z ->
  json resp = Ok (PDict data) ->
  (dict_get data "artists" = Some (PList []) ->
   outcome (Spotify.extract_info w u) = Raise (Exn IndexError "list index out of range")) /\
  (dict_get data "artists" = None ->
   forall r, outcome (Spotify.extract_info w u) = Ok r -> uploader r = PNone).
Proof.
  intros Hp Hi Ha Hs H200 Hj.
  rewrite (spotify_extract_info_parsed _ _ _ _ Hp eq_refl Hi), Ha.
  unfold Spotify.dispatch. cbn [String.eqb Ascii.eqb Bool.eqb].
  rewrite resource_outcome. unfold resource_call in Hs. rewrite Hs. cbn [rbind].
  rewrite H200. cbn [Z.eqb Pos.eqb negb]. rewrite Hj. cbn [rbind].
  unfold Spotify.album_info.
  split; intros Hd; unfold get at 1; unfold get_default at 1 2;
    cbn [rbind]; rewrite Hd.
  - reflexivity.
  - cbn [rbind item0]. intros r H. ok_steps H.
    inversion H; subst r. simpl.
    match goal with
    | Hn : get (PDict []) "name" = Ok ?x |- _ => inversion Hn; subst x
    end.
    match goal with
    | Hw : Spotify.with_first_image _ _ = Ok ?j |- _ =>
        unfold Spotify.with_first_image in Hw;
        match type of Hw with
        | (if ?b then _ else _) = _ => destruct b
        end; [ok_steps Hw |]; now inversion Hw
    end.
Qed.

Lemma album_without_artists_witness :
  outcome (Spotify.extract_info Scenario2.anonymous_world
             "https://open.spotify.com/album/4aawyAB9")
  = Raise (Exn IndexError "list index out of range") /\
  exists r,
    outcome (Spotify.extract_info Scenario2.keyless_world
               "https://open.spotify.com/album/4aawyAB9") = Ok r /\
    uploader r = PNone.
Proof.
  split.
  - destruct (album_without_artists Scenario2.anonymous_world
                "https://open.spotify.com/album/4aawyAB9" "4aawyAB9"
                (Authorization (PStr "BQDtoken"))
                (Scenario.api 200 Scenario2.anonymous_album)
                [("name", PStr "Untitled"); ("artists", PList [])]
                eq_refl eq_refl eq_refl eq_refl eq_refl eq_refl) as [H _].
    apply H. reflexivity.
  - destruct (album_without_artists Scenario2.keyless_world
                "https://open.spotify.com/album/4aawyAB9" "4aawyAB9"
                (Authorization (PStr "BQDtoken"))
                (Scenario.api 200 Scenario2.keyless_album)
                [("name", PStr "Untitled")]
                eq_refl eq_refl eq_refl eq_refl eq_refl eq_refl) as [_ H].
    eexists. split; [reflexivity |]. apply (H eq_refl). reflexivity.
Defined.

(** X20: when the structured-data block is an object whose image is an empty
    list, the HTML extractor raises an IndexError that nothing handles. *)
Theorem empty_image_list (w : World) (u : string) (resp : response)
  (d : list (string * pyval)) :
  send w (Get u [] DefaultHeaders false 15) = Ok resp ->
  status_code resp = 200%Z ->
  Audiomack._find_json_ld w (text resp) = PDict d ->
  dict_get d "image" = Some (PList []) ->
  outcome (Audiomack.extract_info w u) = Raise (Exn IndexError "list index out of range").
Proof.
  intros Hs H200 Hld Him.
  rewrite (audiomack_extract_info_fetched _ _ _ Hs).
  unfold Audiomack.check_status, Audiomack.scrape. rewrite H200, Hld.
  cbn [Z.eqb Pos.eqb negb rbind]. simpl rbind at 1.
  unfold Audiomack.heuristics, Audiomack.from_json_ld.
  assert (truthy (PDict d) = true) as -> by (destruct d; [discriminate Him | reflexivity]).
  simpl get. cbn [rbind].
  destruct (truthy match dict_get d "name" with Some x => x | None => PNone end);
    cbn [rbind]; rewrite Him; reflexivity.
Qed.

Lemma empty_image_list_witness :
  outcome (Audiomack.extract_info Scenario2.imageless_world Scenario.song_url)
  = Raise (Exn IndexError "list index out of range").
Proof.
  apply (empty_image_list Scenario2.imageless_world Scenario.song_url
           (Scenario.page 200 Scenario.song_html)
           [("name", PStr "Night Drive"); ("image", PList [])]);
    reflexivity.
Defined.

(** ** The structured-data audio url comes first *)

Lemma fold_keep_new_url_prefix (l : list format_entry) :
  forall seen fs, exists more,
    snd (fold_left Audiomack.keep_new_url l (seen, fs)) = (fs ++ more)%list.
Proof.
  induction l as [| f l IH]; intros seen fs; simpl.
  - exists []. now rewrite app_nil_r.
  - destruct (truthy (url f) && negb (existsb (str_eqb (url f)) seen)).
    + destruct (IH (url f :: seen) (fs ++ [f])%list) as [more ->].
      exists (f :: more). now rewrite <- app_assoc.
    + apply IH.
Qed.

Lemma from_json_ld_audio (d a : list (string * pyval)) (c : string) (i i' : info) :
  Audiomack.from_json_ld (PDict d) i = Ok i' ->
  dict_get d "audio" = Some (PDict a) ->
  dict_get a "contentUrl" = Some (PStr c) ->
  c <> "" ->
  formats i' = (formats i ++ [Format (PStr "audio") (PStr (audio_ext c)) (PStr c)])%list.
Proof.
  intros H Hau Hc Hne.
  assert (truthy (PStr c) = true) as Et by (destruct c; [contradiction | reflexivity]).
  revert H. unfold Audiomack.from_json_ld.
  assert (truthy (PDict d) = true) as -> by (destruct d; [discriminate Hau | reflexivity]).
  intros H. ok_steps H.
  match goal with
  | Hu : (if is_dict ?x then _ else _) = Ok ?j |- _ =>
      assert (formats j = formats i) as Ej
        by (destruct (is_dict x);
            [ok_steps Hu; inversion Hu; reflexivity
            | destruct (is_str x); inversion Hu; reflexivity])
  end.
  match goal with
  | Hg : get (PDict d) "audio" = Ok ?x |- _ =>
      unfold get, get_default in Hg; rewrite Hau in Hg; inversion Hg; subst x
  end.
  cbn [is_dict] in H. unfold get at 1 in H. unfold get_default at 1 in H.
  rewrite Hc in H. cbn [rbind] in H. rewrite Et in H. cbn [rbind] in H.
  rewrite Et in H. cbn [rbind lower_of] in H. unfold audio_ext.
  destruct (endswith ".mp3" (lower c)); cbn [rbind split_of] in H;
    inversion H; simpl; now rewrite Ej.
Qed.

(** X21: when the structured-data block is an object whose audio is an
    object with a non-empty string as contentUrl, the first format entry of
    the record returned is the one for that url, with format_id audio: a
    direct link to the same url does not displace it. *)
Theorem structured_audio_comes_first (w : World) (u : string) (resp : response)
  (d a : list (string * pyval)) (c : string) (r : info) :
  send w (Get u [] DefaultHeaders false 15) = Ok resp ->
  Audiomack._find_json_ld w (text resp) = PDict d ->
  dict_get d "audio" = Some (PDict a) ->
  dict_get a "contentUrl" = Some (PStr c) ->
  c <> "" ->
  outcome (Audiomack.extract_info w u) = Ok r ->
  exists rest,
    formats r = Format (PStr "audio") (PStr (audio_ext c)) (PStr c) :: rest.
Proof.
  intros Hs Hld Hau Hc Hne H.
  apply audiomack_extract_info_ok in H as (resp' & i & Hs' & _ & Hi & Hr).
  rewrite Hs in Hs'. inversion Hs'; subst resp'. clear Hs'.
  rewrite (with_title_formats _ _ _ _ Hr).
  unfold Audiomack.scrape in Hi. rewrite Hld in Hi.
  unfold Audiomack.heuristics in Hi. apply rbind_ok in Hi as (j & Hj & Hi).
  apply with_duration_formats in Hi. rewrite Hi. simpl.
  rewrite (from_json_ld_audio _ _ _ _ _ Hj Hau Hc Hne). simpl.
  unfold Audiomack.dedup_formats. simpl fold_left.
  assert (negb (is_empty c) = true) as -> by (destruct c; [contradiction | reflexivity]).
  cbn [andb].
  match goal with
  | |- context [fold_left Audiomack.keep_new_url ?l (?seen, ?fs)] =>
      destruct (fold_keep_new_url_prefix l seen fs) as [more ->]
  end.
  now exists more.
Qed.

Lemma structured_audio_comes_first_witness :
  exists rest,
    formats Scenario.song_record =
    Format (PStr "audio") (PStr (audio_ext Scenario.song_mp3)) (PStr Scenario.song_mp3)
      :: rest.
Proof.
  apply (structured_audio_comes_first Scenario.song_world Scenario.song_url
           (Scenario.page 200 Scenario.song_html)
           [("name", PStr "Night Drive");
            ("audio", PDict [("contentUrl", PStr Scenario.song_mp3)])]
           [("contentUrl", PStr Scenario.song_mp3)]
           Scenario.song_mp3 Scenario.song_record eq_refl).
  - vm_compute. reflexivity.
  - reflexivity.
  - reflexivity.
  - discriminate.
  - vm_compute. reflexivity.
Defined.
